(** * Session and token lifecycle of the auth service

    A shallow embedding of [internal/auth/server.go] (the gRPC handlers
    Register, Login, Refresh, ValidateToken, Logout), of the JWT manager
    in package [utils] and of [models.NewUser] / [User.CheckPassword].

    The third-party packages the code calls (golang-jwt, go-redis, bcrypt,
    uuid, time) are not part of the repository.  Their observable
    behaviour is modelled as follows:
    - the clock, the random source and the availability of Redis and
      Postgres are fields of an explicit [World]; every call that observes
      time first lets an arbitrary scheduled delay elapse, so a theorem
      quantified over worlds covers every interleaving of time passage and
      dependency failure of a sequential run;
    - the cryptographic and serialisation primitives of golang-jwt and
      bcrypt are the fields of a record [Library]; the algorithm of
      [jwt.ParseWithClaims] (decode, key function, signature check, claim
      validation) is written out on top of them.  Module [Fake] gives an
      executable in-memory instance. *)

From Stdlib Require Import ZArith Ascii String List Lia.
From stdpp Require Import gmap strings.

Local Open Scope string_scope.
Local Open Scope Z_scope.

(** ** Time *)

(** [time.Duration] and instants are counted in nanoseconds. *)
Definition Duration := Z.
Definition Millisecond : Duration := 1000000.
Definition Second : Duration := 1000000000.

(** [jwt.NumericDate]: an instant truncated to [jwt.TimePrecision], which is
    one second; kept as whole seconds since the epoch. *)
Definition NumericDate := Z.
Definition NewNumericDate (t : Z) : NumericDate := t / Second.
Definition Time (d : NumericDate) : Z := d * Second.

(** [int64(d.Seconds())]: truncation toward zero (the float64 intermediate
    of [Duration.Seconds] is not modelled). *)
Definition Seconds (d : Duration) : Z := Z.quot d Second.

(** ** Errors and results *)

Inductive error : Type :=
| Errorf (msg : string)                       (* fmt.Errorf without %w *)
| Wrapf (msg : string) (cause : error)        (* fmt.Errorf with a %w cause *)
| ErrTokenMalformed
| ErrTokenUnverifiable (cause : error)
| ErrTokenSignatureInvalid
| ErrTokenInvalidClaims (expired notYetValid : bool)
| ErrPasswordTooLong
| redis_Nil                                   (* go-redis: key does not exist *)
| ErrUnavailable                              (* a dependency timed out or refused *)
| ErrNoRows                                   (* Postgres: no such row *)
| ErrConstraint.                              (* Postgres: unique violation *)

(** What a Go call hands back: a value, an error, or a run-time panic. *)
Inductive result (A : Type) : Type :=
| Ok (a : A)
| Err (e : error)
| Panic.
Arguments Ok {A} a.
Arguments Err {A} e.
Arguments Panic {A}.

(** ** Data model *)

(** [models.User] *)
Module User.
Record t := mk {
  ID : string;
  Email : string;
  PasswordHash : string;
  Name : string;
  CreatedAt : Z;
  UpdatedAt : Z
}.
End User.

(** [utils.TokenClaims], with the fields of the embedded
    [jwt.RegisteredClaims] that issuance sets or validation reads.  The
    date fields are pointers in Go, hence optional. *)
Module TokenClaims.
Record t := mk {
  UserID : string;
  Email : string;
  Type_ : string;                 (* the field Type *)
  ExpiresAt : option NumericDate;
  NotBefore : option NumericDate;
  IssuedAt : option NumericDate;
  ID : string
}.
End TokenClaims.

(** The signing methods golang-jwt registers. *)
Inductive SigningMethod : Type :=
| HS256 | HS384 | HS512
| RS256 | RS384 | RS512
| PS256 | PS384 | PS512
| ES256 | ES384 | ES512
| EdDSA
| none.

Definition Alg (m : SigningMethod) : string :=
  match m with
  | HS256 => "HS256" | HS384 => "HS384" | HS512 => "HS512"
  | RS256 => "RS256" | RS384 => "RS384" | RS512 => "RS512"
  | PS256 => "PS256" | PS384 => "PS384" | PS512 => "PS512"
  | ES256 => "ES256" | ES384 => "ES384" | ES512 => "ES512"
  | EdDSA => "EdDSA"
  | none => "none"
  end.

(** The type assertion of [token.Method] to a pointer to
    [jwt.SigningMethodHMAC]: the three HS methods are the values of that
    type. *)
Definition is_SigningMethodHMAC (m : SigningMethod) : bool :=
  match m with
  | HS256 | HS384 | HS512 => true
  | _ => false
  end.

(** [jwt.Token] *)
Module Token.
Record t := mk {
  Method : SigningMethod;
  Claims : TokenClaims.t;
  SigningString : string;     (* header and payload segments, as received *)
  Signature : string;         (* decoded third segment *)
  Valid : bool
}.
End Token.

(** ** Third-party primitives *)

Record Library := mkLibrary {
  (** [Parser.ParseUnverified] and the decoding of the signature segment:
      splits the compact form, decodes header and payload, looks the [alg]
      header up among the registered methods.  [Valid] is not set. *)
  Decode : string -> error + Token.t;
  (** [SigningMethodHMAC.Verify] with a byte-slice key: method, signing
      string, signature, key. *)
  Verify : SigningMethod -> string -> string -> string -> bool;
  (** [jwt.NewWithClaims(m, claims).SignedString(key)] *)
  SignedString : SigningMethod -> TokenClaims.t -> string -> error + string;
  (** [bcrypt.GenerateFromPassword(password, DefaultCost)], salt explicit *)
  GenerateFromPassword : string -> string -> error + string;
  (** [bcrypt.CompareHashAndPassword(hash, password) == nil] *)
  CompareHashAndPassword : string -> string -> bool
}.

(** ** The world outside the process *)

(** A Redis key with its value and, when it has one, the instant at which
    it expires. *)
Record Entry := mkEntry {
  value : string;
  deadline : option Z
}.

(** How a dependency treats one request: it answers, it refuses before
    doing anything, or it does the work and the reply is lost. *)
Inductive Service : Type := Served | Refused | Lost.

Record World := mkWorld {
  users : list User.t;            (* rows of the Postgres table users *)
  redis : gmap string Entry;      (* the Redis keyspace *)
  clock : Z;                      (* the present instant *)
  delays : list N;                (* time that elapses before each coming call to the outside *)
  services : list Service;        (* fate of each coming Redis or Postgres request *)
  entropy : nat -> string;        (* the random source, as the strings it will yield *)
  drawn : nat                     (* how many of them were taken *)
}.

Definition with_users (w : World) (u : list User.t) : World :=
  mkWorld u (redis w) (clock w) (delays w) (services w) (entropy w) (drawn w).
Definition with_redis (w : World) (r : gmap string Entry) : World :=
  mkWorld (users w) r (clock w) (delays w) (services w) (entropy w) (drawn w).

(** Time moves on by the next scheduled delay (by nothing when none is
    scheduled). *)
Definition elapse (w : World) : World :=
  match delays w with
  | [] => w
  | d :: ds =>
      mkWorld (users w) (redis w) (clock w + Z.of_N d) ds (services w) (entropy w) (drawn w)
  end.

Definition next_service (w : World) : Service * World :=
  match services w with
  | [] => (Served, w)
  | s :: ss =>
      (s, mkWorld (users w) (redis w) (clock w) (delays w) ss (entropy w) (drawn w))
  end.

(** The instant at which the [n]-th coming call to the outside happens
    (counted from 1). *)
Definition instant (w : World) (n : nat) : Z :=
  clock w + Z.of_N (fold_right N.add 0%N (firstn n (delays w))).

(** The fate of the [n]-th coming request to a dependency (counted from 0). *)
Definition service_at (w : World) (n : nat) : Service :=
  nth n (services w) Served.

(** ** Computations *)

Definition M (A : Type) : Type := World -> result A * World.

Definition ret {A} (a : A) : M A := fun w => (Ok a, w).
Definition fail {A} (e : error) : M A := fun w => (Err e, w).
Definition panic {A} : M A := fun w => (Panic, w).

Definition bind {A B} (m : M A) (k : A -> M B) : M B :=
  fun w =>
    match m w with
    | (Ok a, w') => k a w'
    | (Err e, w') => (Err e, w')
    | (Panic, w') => (Panic, w')
    end.

Declare Scope go_scope.
Delimit Scope go_scope with go.
Notation "x <- m ;; k" := (bind m (fun x => k))
  (at level 100, m at next level, right associativity) : go_scope.
Notation "m ;;; k" := (bind m (fun _ => k))
  (at level 100, right associativity) : go_scope.
Local Open Scope go_scope.

(** [if err != nil { return nil, f(err) }] around a call. *)
Definition or_return {A} (m : M A) (f : error -> error) : M A :=
  fun w =>
    match m w with
    | (Err e, w') => (Err (f e), w')
    | other => other
    end.

(** A pure library call. *)
Definition call {A} (r : error + A) : M A :=
  match r with
  | inl e => fail e
  | inr a => ret a
  end.

(** [time.Now()] *)
Definition time_Now : M Z :=
  fun w => let w' := elapse w in (Ok (clock w'), w').

(** [time.Until(t)] *)
Definition time_Until (t : Z) : M Duration :=
  now <- time_Now ;; ret (t - now).

(** The next string of the random source ([uuid.New().String()], a salt). *)
Definition random_string : M string :=
  fun w =>
    (Ok (entropy w (drawn w)),
     mkWorld (users w) (redis w) (clock w) (delays w) (services w) (entropy w) (S (drawn w))).

(** One request to Redis or Postgres: time passes, then the dependency
    serves it, refuses it, or serves it and loses the reply. *)
Definition request {A} (reply : World -> result A) (effect : World -> World) : M A :=
  fun w =>
    let '(s, w1) := next_service (elapse w) in
    match s with
    | Served => (reply w1, effect w1)
    | Refused => (Err ErrUnavailable, w1)
    | Lost => (Err ErrUnavailable, effect w1)
    end.

(** ** Redis, as go-redis drives it *)

Definition alive (t : Z) (e : Entry) : bool :=
  match deadline e with
  | None => true
  | Some d => t <? d
  end.

(** The value of [key] at instant [t], unless absent or expired. *)
Definition lookup_at (r : gmap string Entry) (t : Z) (key : string) : option string :=
  match r !! key with
  | Some e => if alive t e then Some (value e) else None
  | None => None
  end.

Definition KeepTTL : Duration := -1.

(** The deadline [Set] gives a key: go-redis sends [EX]/[PX] for a positive
    expiration (whole milliseconds, at least one), [KEEPTTL] for
    [redis.KeepTTL], and no expiry otherwise. *)
Definition new_deadline (r : gmap string Entry) (t : Z) (key : string)
    (expiration : Duration) : option Z :=
  if 0 <? expiration then
    Some (t + (if expiration <? Millisecond then Millisecond
               else expiration / Millisecond * Millisecond))
  else if expiration =? KeepTTL then
    match r !! key with
    | Some e => if alive t e then deadline e else None
    | None => None
    end
  else None.

Module redisClient.
(** [Exists(ctx, key).Result()] *)
Definition Exists (key : string) : M Z :=
  request
    (fun w => Ok (match lookup_at (redis w) (clock w) key with
                  | Some _ => 1
                  | None => 0
                  end))
    (fun w => w).

(** [Get(ctx, key).Result()] *)
Definition Get (key : string) : M string :=
  request
    (fun w => match lookup_at (redis w) (clock w) key with
              | Some v => Ok v
              | None => Err redis_Nil
              end)
    (fun w => w).

(** [Set(ctx, key, value, expiration).Err()] (Set is reserved here) *)
Definition Set_ (key val : string) (expiration : Duration) : M unit :=
  request
    (fun _ => Ok tt)
    (fun w =>
       with_redis w
         (<[key := mkEntry val (new_deadline (redis w) (clock w) key expiration)]>
            (redis w))).

(** [Del(ctx, key).Err()] *)
Definition Del (key : string) : M unit :=
  request (fun _ => Ok tt) (fun w => with_redis w (delete key (redis w))).
End redisClient.

(** ** The user repository *)

Module UserRepository.
Definition has_email (email : string) (u : User.t) : bool :=
  String.eqb (User.Email u) email.

(** Modelled from the spec: [UserRepository.ExistsByEmail] is not among the
    sources; the Credential Store exposes [exists(email) -> bool]. *)
Definition ExistsByEmail (email : string) : M bool :=
  request (fun w => Ok (existsb (has_email email) (users w))) (fun w => w).

(** Modelled from the spec: [UserRepository.GetByEmail] is not among the
    sources; the Credential Store exposes
    [lookup(email) -> Principal|NotFound]. *)
Definition GetByEmail (email : string) : M User.t :=
  request
    (fun w => match find (has_email email) (users w) with
              | Some u => Ok u
              | None => Err ErrNoRows
              end)
    (fun w => w).

(** The constraints of the table [users] in the schema: [id] is the
    primary key and [email] is unique. *)
Definition clashes (user : User.t) (u : User.t) : bool :=
  String.eqb (User.ID u) (User.ID user) || String.eqb (User.Email u) (User.Email user).

(** Modelled from the spec: [UserRepository.Create] is not among the
    sources; the Credential Store exposes [create(Principal)], which
    persists the principal. *)
Definition Create (user : User.t) : M unit :=
  request
    (fun w => if existsb (clashes user) (users w) then Err ErrConstraint else Ok tt)
    (fun w => if existsb (clashes user) (users w) then w
              else with_users w (users w ++ [user])).
End UserRepository.

(** ** Package utils: the JWT manager *)

Record JWTManager := mkJWTManager {
  secret : string;
  accessTokenTTL : Duration;
  refreshTokenTTL : Duration
}.

Module jwt.
Section WithLibrary.
Context (L : Library).

(** [Validator.Validate] with the default options: [exp] and [nbf] are
    checked against [time.Now()] when present, neither is required, [iat]
    is not checked. *)
Definition Validate (claims : TokenClaims.t) : M unit :=
  now <- time_Now ;;
  let expired :=
    match TokenClaims.ExpiresAt claims with
    | Some e => negb (now <? Time e)
    | None => false
    end in
  let notYetValid :=
    match TokenClaims.NotBefore claims with
    | Some n => now <? Time n
    | None => false
    end in
  if expired || notYetValid then fail (ErrTokenInvalidClaims expired notYetValid)
  else ret tt.

(** [jwt.ParseWithClaims(tokenString, claims, keyFunc)] with no parser
    option: decode, ask [keyFunc] for the key, check the signature with
    the method the header names, validate the claims, set [Valid]. *)
Definition ParseWithClaims (tokenString : string)
    (keyFunc : Token.t -> error + string) : M Token.t :=
  token <- call (Decode L tokenString) ;;
  key <- or_return (call (keyFunc token)) ErrTokenUnverifiable ;;
  if Verify L (Token.Method token) (Token.SigningString token) (Token.Signature token) key
  then
    Validate (Token.Claims token) ;;;
    ret (Token.mk (Token.Method token) (Token.Claims token)
           (Token.SigningString token) (Token.Signature token) true)
  else fail ErrTokenSignatureInvalid.
End WithLibrary.
End jwt.

Module utils.
Section WithLibrary.
Context (L : Library).

Definition NewJWTManager (secret : string) (accessTTL refreshTTL : Duration) : JWTManager :=
  mkJWTManager secret accessTTL refreshTTL.

Definition GenerateTokenPair (j : JWTManager) (userID email : string) : M (string * string) :=
  accessExp <- time_Now ;;
  accessIat <- time_Now ;;
  accessID <- random_string ;;
  let accessClaims :=
    TokenClaims.mk userID email "access"
      (Some (NewNumericDate (accessExp + accessTokenTTL j)))
      None
      (Some (NewNumericDate accessIat))
      accessID in
  accessToken <- or_return (call (SignedString L HS256 accessClaims (secret j)))
                   (Wrapf "failed to sign access token") ;;
  refreshExp <- time_Now ;;
  refreshIat <- time_Now ;;
  refreshID <- random_string ;;
  let refreshClaims :=
    TokenClaims.mk userID email "refresh"
      (Some (NewNumericDate (refreshExp + refreshTokenTTL j)))
      None
      (Some (NewNumericDate refreshIat))
      refreshID in
  refreshToken <- or_return (call (SignedString L HS256 refreshClaims (secret j)))
                    (Wrapf "failed to sign refresh token") ;;
  ret (accessToken, refreshToken).

(** The key function handed to [jwt.ParseWithClaims]. *)
Definition keyFunc (j : JWTManager) (token : Token.t) : error + string :=
  if is_SigningMethodHMAC (Token.Method token) then inr (secret j)
  else inl (Errorf ("unexpected signing method: " +:+ Alg (Token.Method token))).

Definition ValidateToken (j : JWTManager) (tokenString : string) : M TokenClaims.t :=
  token <- or_return (jwt.ParseWithClaims L tokenString (keyFunc j))
             (Wrapf "failed to parse token") ;;
  if Token.Valid token then ret (Token.Claims token)
  else fail (Errorf "invalid token claims or expired").

Definition ValidateAccessToken (j : JWTManager) (tokenString : string) : M TokenClaims.t :=
  claims <- ValidateToken j tokenString ;;
  if negb (String.eqb (TokenClaims.Type_ claims) "access")
  then fail (Errorf "invalid token type: expected access")
  else ret claims.

Definition ValidateRefreshToken (j : JWTManager) (tokenString : string) : M TokenClaims.t :=
  claims <- ValidateToken j tokenString ;;
  if negb (String.eqb (TokenClaims.Type_ claims) "refresh")
  then fail (Errorf "invalid token type: expected refresh")
  else ret claims.
End WithLibrary.
End utils.

(** ** Package models *)

Module models.
Section WithLibrary.
Context (L : Library).

Definition NewUser (email password name : string) : M User.t :=
  salt <- random_string ;;
  hashedPassword <- call (GenerateFromPassword L salt password) ;;
  id <- random_string ;;
  createdAt <- time_Now ;;
  updatedAt <- time_Now ;;
  ret (User.mk id email hashedPassword name createdAt updatedAt).

Definition CheckPassword (u : User.t) (password : string) : bool :=
  CompareHashAndPassword L (User.PasswordHash u) password.
End WithLibrary.
End models.

(** ** Package configs and the messages of package api *)

Record JWTConfig := mkJWTConfig {
  Secret : string;
  AccessTokenTTL : Duration;
  RefreshTokenTTL : Duration
}.

(** Only the section [JWT] of [configs.Config] is read by the auth server. *)
Record Config := mkConfig {
  JWT : JWTConfig
}.

Module RegisterRequest.
Record t := mk { Email : string; Password : string; Name : string }.
End RegisterRequest.

Module LoginRequest.
Record t := mk { Email : string; Password : string }.
End LoginRequest.

Module RefreshRequest.
Record t := mk { RefreshToken : string }.
End RefreshRequest.

Module ValidateTokenRequest.
Record t := mk { Token : string }.
End ValidateTokenRequest.

Module LogoutRequest.
Record t := mk { RefreshToken : string }.
End LogoutRequest.

(** [api.RegisterResponse] and [api.LoginResponse] carry the same fields. *)
Module IssueResponse.
Record t := mk {
  UserId : string;
  Email : string;
  Name : string;
  AccessToken : string;
  AccessExpiresIn : Z;
  RefreshToken : string;
  RefreshExpiresIn : Z
}.
End IssueResponse.

Module RefreshResponse.
Record t := mk {
  AccessToken : string;
  AccessExpiresIn : Z;
  RefreshToken : string;
  RefreshExpiresIn : Z
}.
End RefreshResponse.

Module ValidateTokenResponse.
Record t := mk {
  Valid : bool;
  UserId : string;
  Email : string;
  ExpiresIn : Z
}.
End ValidateTokenResponse.

Module LogoutResponse.
Record t := mk { Success : bool }.
End LogoutResponse.

(** ** Package auth: the server *)

Record Server := mkServer {
  jwtManager : JWTManager;
  config : Config
}.

(** [if err != nil] with a handler that may return a value instead of the
    error; a panic is never caught. *)
Definition on_error {A B} (m : M A) (handler : error -> M B) (k : A -> M B) : M B :=
  fun w =>
    match m w with
    | (Ok a, w') => k a w'
    | (Err e, w') => handler e w'
    | (Panic, w') => (Panic, w')
    end.

Module auth.
Section WithLibrary.
Context (L : Library).

Definition NewServer (config : Config) : Server :=
  mkServer
    (utils.NewJWTManager (Secret (JWT config)) (AccessTokenTTL (JWT config))
       (RefreshTokenTTL (JWT config)))
    config.

Definition Register (s : Server) (req : RegisterRequest.t) : M IssueResponse.t :=
  exists_ <- or_return (UserRepository.ExistsByEmail (RegisterRequest.Email req))
               (Wrapf "failed to check user existence") ;;
  if exists_ : bool then fail (Errorf "user with this email already exists")
  else
    user <- or_return
              (models.NewUser L (RegisterRequest.Email req) (RegisterRequest.Password req)
                 (RegisterRequest.Name req))
              (Wrapf "failed to create user") ;;
    or_return (UserRepository.Create user) (Wrapf "failed to save user") ;;;
    tokens <- or_return
                (utils.GenerateTokenPair L (jwtManager s) (User.ID user) (User.Email user))
                (Wrapf "failed to generate tokens") ;;
    or_return
      (redisClient.Set_ ("refresh:" +:+ User.ID user) (snd tokens)
         (RefreshTokenTTL (JWT (config s))))
      (Wrapf "failed to store refresh token") ;;;
    ret (IssueResponse.mk (User.ID user) (User.Email user) (User.Name user)
           (fst tokens) (Seconds (AccessTokenTTL (JWT (config s))))
           (snd tokens) (Seconds (RefreshTokenTTL (JWT (config s))))).

Definition Login (s : Server) (req : LoginRequest.t) : M IssueResponse.t :=
  user <- or_return (UserRepository.GetByEmail (LoginRequest.Email req))
            (fun _ => Errorf "invalid credentials") ;;
  if negb (models.CheckPassword L user (LoginRequest.Password req))
  then fail (Errorf "invalid credentials")
  else
    tokens <- or_return
                (utils.GenerateTokenPair L (jwtManager s) (User.ID user) (User.Email user))
                (Wrapf "failed to generate tokens") ;;
    or_return
      (redisClient.Set_ ("refresh:" +:+ User.ID user) (snd tokens)
         (RefreshTokenTTL (JWT (config s))))
      (Wrapf "failed to store refresh token") ;;;
    ret (IssueResponse.mk (User.ID user) (User.Email user) (User.Name user)
           (fst tokens) (Seconds (AccessTokenTTL (JWT (config s))))
           (snd tokens) (Seconds (RefreshTokenTTL (JWT (config s))))).

Definition Refresh (s : Server) (req : RefreshRequest.t) : M RefreshResponse.t :=
  blacklisted <- or_return
                   (redisClient.Exists ("blacklist:" +:+ RefreshRequest.RefreshToken req))
                   (Wrapf "redis blacklist check failed") ;;
  if 0 <? blacklisted then fail (Errorf "refresh token blacklisted")
  else
    claims <- or_return
                (utils.ValidateRefreshToken L (jwtManager s) (RefreshRequest.RefreshToken req))
                (Wrapf "invalid refresh token") ;;
    storedRefresh <- or_return (redisClient.Get ("refresh:" +:+ TokenClaims.UserID claims))
                       (Wrapf "refresh token not found") ;;
    if negb (String.eqb storedRefresh (RefreshRequest.RefreshToken req))
    then fail (Errorf "refresh token mismatch")
    else
      tokens <- or_return
                  (utils.GenerateTokenPair L (jwtManager s) (TokenClaims.UserID claims)
                     (TokenClaims.Email claims))
                  (Wrapf "failed to generate new tokens") ;;
      or_return
        (redisClient.Set_ ("refresh:" +:+ TokenClaims.UserID claims) (snd tokens)
           (RefreshTokenTTL (JWT (config s))))
        (Wrapf "failed to save new refresh token") ;;;
      ret (RefreshResponse.mk
             (fst tokens) (Seconds (AccessTokenTTL (JWT (config s))))
             (snd tokens) (Seconds (RefreshTokenTTL (JWT (config s))))).

(** [claims.ExpiresAt.Time] dereferences the pointer [ExpiresAt]: a nil
    pointer there is a run-time panic. *)
Definition ExpiresAt_Time (claims : TokenClaims.t) : M Z :=
  match TokenClaims.ExpiresAt claims with
  | Some e => ret (Time e)
  | None => panic
  end.

Definition ValidateToken (s : Server) (req : ValidateTokenRequest.t)
    : M ValidateTokenResponse.t :=
  on_error (utils.ValidateAccessToken L (jwtManager s) (ValidateTokenRequest.Token req))
    (fun _ => ret (ValidateTokenResponse.mk false "" "" 0))
    (fun claims =>
       expiresAt <- ExpiresAt_Time claims ;;
       remaining <- time_Until expiresAt ;;
       ret (ValidateTokenResponse.mk true (TokenClaims.UserID claims)
              (TokenClaims.Email claims) (Seconds remaining))).

Definition Logout (s : Server) (req : LogoutRequest.t) : M LogoutResponse.t :=
  on_error (utils.ValidateRefreshToken L (jwtManager s) (LogoutRequest.RefreshToken req))
    (fun _ => ret (LogoutResponse.mk false))
    (fun claims =>
       expiresAt <- ExpiresAt_Time claims ;;
       remainingTTL <- time_Until expiresAt ;;
       (if 0 <? remainingTTL
        then or_return
               (redisClient.Set_ ("blacklist:" +:+ LogoutRequest.RefreshToken req) "1"
                  remainingTTL)
               (Wrapf "failed to blacklist token")
        else ret tt) ;;;
       or_return (redisClient.Del ("refresh:" +:+ TokenClaims.UserID claims))
         (Wrapf "failed to delete refresh token") ;;;
       ret (LogoutResponse.mk true)).
End WithLibrary.
End auth.

(** ** An in-memory fake of the third-party primitives

    A self-delimiting textual encoding stands in for the compact JWT form,
    and a keyed tag that repeats key, method and signing string stands in
    for the HMAC.  The fake is what closed examples are run on. *)

Module Fake.
Fixpoint put_nat (n : nat) (rest : string) : string :=
  match n with
  | O => String "0"%char rest
  | S n' => String "1"%char (put_nat n' rest)
  end.

Fixpoint get_nat (s : string) : option (nat * string) :=
  match s with
  | EmptyString => None
  | String c r =>
      if Ascii.eqb c "0"%char then Some (O, r)
      else if Ascii.eqb c "1"%char then
        match get_nat r with
        | Some (n, rest) => Some (S n, rest)
        | None => None
        end
      else None
  end.

Fixpoint take (n : nat) (s : string) : option (string * string) :=
  match n with
  | O => Some (EmptyString, s)
  | S n' =>
      match s with
      | EmptyString => None
      | String c r =>
          match take n' r with
          | Some (a, b) => Some (String c a, b)
          | None => None
          end
      end
  end.

Definition put_str (s rest : string) : string :=
  put_nat (String.length s) (s +:+ rest).

Definition get_str (s : string) : option (string * string) :=
  match get_nat s with
  | Some (n, r) => take n r
  | None => None
  end.

Definition put_Z (z : Z) (rest : string) : string :=
  if z <? 0 then String "-"%char (put_nat (Z.to_nat (- z)) rest)
  else String "+"%char (put_nat (Z.to_nat z) rest).

Definition get_Z (s : string) : option (Z * string) :=
  match s with
  | EmptyString => None
  | String c r =>
      match get_nat r with
      | Some (n, rest) =>
          if Ascii.eqb c "-"%char then Some (- Z.of_nat n, rest)
          else if Ascii.eqb c "+"%char then Some (Z.of_nat n, rest)
          else None
      | None => None
      end
  end.

Definition put_date (d : option NumericDate) (rest : string) : string :=
  match d with
  | None => String "n"%char rest
  | Some z => String "s"%char (put_Z z rest)
  end.

Definition get_date (s : string) : option (option NumericDate * string) :=
  match s with
  | EmptyString => None
  | String c r =>
      if Ascii.eqb c "n"%char then Some (None, r)
      else if Ascii.eqb c "s"%char then
        match get_Z r with
        | Some (z, rest) => Some (Some z, rest)
        | None => None
        end
      else None
  end.

Definition methods : list SigningMethod :=
  [HS256; HS384; HS512; RS256; RS384; RS512; PS256; PS384; PS512;
   ES256; ES384; ES512; EdDSA; none].

(** [jwt.GetSigningMethod] *)
Definition GetSigningMethod (alg : string) : option SigningMethod :=
  find (fun m => String.eqb (Alg m) alg) methods.

Definition put_claims (c : TokenClaims.t) (rest : string) : string :=
  put_str (TokenClaims.UserID c)
    (put_str (TokenClaims.Email c)
       (put_str (TokenClaims.Type_ c)
          (put_date (TokenClaims.ExpiresAt c)
             (put_date (TokenClaims.NotBefore c)
                (put_date (TokenClaims.IssuedAt c)
                   (put_str (TokenClaims.ID c) rest)))))).

Definition get_claims (s : string) : option (TokenClaims.t * string) :=
  '(userID, s) ← get_str s;
  '(email, s) ← get_str s;
  '(type, s) ← get_str s;
  '(exp, s) ← get_date s;
  '(nbf, s) ← get_date s;
  '(iat, s) ← get_date s;
  '(id, s) ← get_str s;
  Some (TokenClaims.mk userID email type exp nbf iat id, s).

Definition signing_string (m : SigningMethod) (c : TokenClaims.t) : string :=
  put_str (Alg m) (put_claims c "").

(** The tag the fake uses for a signature. *)
Definition mac (m : SigningMethod) (signingString key : string) : string :=
  put_str key (put_str (Alg m) signingString).

Definition Decode (tokenString : string) : error + Token.t :=
  match get_str tokenString with
  | None => inl ErrTokenMalformed
  | Some (alg, s) =>
      match get_claims s with
      | None => inl ErrTokenMalformed
      | Some (c, sig) =>
          match GetSigningMethod alg with
          | None => inl (ErrTokenUnverifiable (Errorf "signing method (alg) is unavailable"))
          | Some m => inr (Token.mk m c (signing_string m c) sig false)
          end
      end
  end.

Definition Verify (m : SigningMethod) (signingString sig key : string) : bool :=
  String.eqb sig (mac m signingString key).

Definition SignedString (m : SigningMethod) (c : TokenClaims.t) (key : string)
    : error + string :=
  if is_SigningMethodHMAC m
  then inr (put_str (Alg m) (put_claims c (mac m (signing_string m c) key)))
  else inl (Errorf "key is of invalid type").

Definition GenerateFromPassword (salt password : string) : error + string :=
  if (72 <? String.length password)%nat then inl ErrPasswordTooLong
  else inr (put_str salt password).

Definition CompareHashAndPassword (hash password : string) : bool :=
  match get_str hash with
  | Some (_, p) => String.eqb p password
  | None => false
  end.

Definition library : Library :=
  mkLibrary Decode Verify SignedString GenerateFromPassword CompareHashAndPassword.

Definition config : Config :=
  mkConfig (mkJWTConfig "s3cret" (2 * Second) (10 * Second)).

Definition server : Server := auth.NewServer config.

(** A world with empty stores in which no dependency fails and each of the
    next sixty-four calls to the outside takes fifty milliseconds. *)
Definition world : World :=
  mkWorld [] ∅ 0 (repeat 50000000%N 64) [] (fun n => put_nat n "") O.
End Fake.

(** ** What the claims speak about *)

Section Vocabulary.
Context (L : Library).

(** The token string [T] carries a signature that checks, under [key] and
    the HMAC method its header names, and its payload is [c]. *)
Definition signed_by (key T : string) (c : TokenClaims.t) : Prop :=
  exists token,
    Decode L T = inr token /\
    is_SigningMethodHMAC (Token.Method token) = true /\
    Verify L (Token.Method token) (Token.SigningString token) (Token.Signature token) key
      = true /\
    Token.Claims token = c.

(** The claims are neither expired nor premature at instant [t]. *)
Definition in_force (t : Z) (c : TokenClaims.t) : Prop :=
  (forall e, TokenClaims.ExpiresAt c = Some e -> t < Time e) /\
  (forall n, TokenClaims.NotBefore c = Some n -> Time n <= t).

(** [T] verifies at instant [t] as a token of the given kind, with claims [c]. *)
Definition verifies (j : JWTManager) (t : Z) (kind T : string) (c : TokenClaims.t) : Prop :=
  signed_by (secret j) T c /\ in_force t c /\ TokenClaims.Type_ c = kind.
End Vocabulary.

(** The deny-list entry of a refresh token, and the session entry of a
    principal, as seen at instant [t]. *)
Definition revoked (r : gmap string Entry) (t : Z) (T : string) : Prop :=
  lookup_at r t ("blacklist:" +:+ T) <> None.

Definition activeRefresh (r : gmap string Entry) (t : Z) (principal : string) : option string :=
  lookup_at r t ("refresh:" +:+ principal).

(** The failures of the specification's taxonomy, as the errors the
    handlers build. *)
Definition AlreadyExists (e : error) : Prop :=
  e = Errorf "user with this email already exists".
Definition InvalidCredentials (e : error) : Prop :=
  e = Errorf "invalid credentials".
Definition Blacklisted (e : error) : Prop :=
  e = Errorf "refresh token blacklisted".
Definition InvalidToken (e : error) : Prop :=
  exists cause, e = Wrapf "invalid refresh token" cause.
Definition SessionNotFound (e : error) : Prop :=
  exists cause, e = Wrapf "refresh token not found" cause.
Definition SessionMismatch (e : error) : Prop :=
  e = Errorf "refresh token mismatch".

(** The world in which a request reaches its dependency. *)
Definition arrive (w : World) : World := snd (next_service (elapse w)).

(** Two worlds that differ at most in the time that has passed. *)
Definition same_stores (w w' : World) : Prop :=
  users w' = users w /\ redis w' = redis w.

(** ** Worlds along a run *)

(** The keyspace after [Set] has been carried out. *)
Definition written (w : World) (key val : string) (expiration : Duration) : World :=
  with_redis (arrive w)
    (<[key := mkEntry val (new_deadline (redis w) (instant w 1) key expiration)]> (redis w)).

(** The keyspace after [Del] has been carried out. *)
Definition deleted (w : World) (key : string) : World :=
  with_redis (arrive w) (delete key (redis w)).

(** The world after the clock was read twice and a random string drawn:
    what building one set of claims does to it. *)
Definition after_claims (w : World) : World :=
  let w2 := elapse (elapse w) in
  mkWorld (users w2) (redis w2) (clock w2) (delays w2) (services w2) (entropy w2)
    (S (drawn w2)).

(** The world in which Refresh, started in [w], has passed its checks. *)
Definition checked (w : World) : World := arrive (elapse (arrive w)).

(** The world in which Logout, started in [w], has verified the token and
    measured its remaining lifetime. *)
Definition measured (w : World) : World := elapse (elapse w).

(** The world in which Logout has put [T], which expires at [e], on the
    deny-list. *)
Definition denied (T : string) (e : NumericDate) (w : World) : World :=
  written (measured w) ("blacklist:" +:+ T) "1" (Time e - instant w 2).

(** The row the repository finds for an email. *)
Definition principal (w : World) (email : string) : option User.t :=
  find (UserRepository.has_email email) (users w).

(** The access claims [GenerateTokenPair] signs when started in [w]. *)
Definition accessClaims_of (j : JWTManager) (userID email : string) (w : World)
    : TokenClaims.t :=
  TokenClaims.mk userID email "access"
    (Some (NewNumericDate (instant w 1 + accessTokenTTL j)))
    None
    (Some (NewNumericDate (instant w 2)))
    (entropy w (drawn w)).

(** The refresh claims [GenerateTokenPair] signs when started in [w]. *)
Definition refreshClaims_of (j : JWTManager) (userID email : string) (w : World)
    : TokenClaims.t :=
  let w1 := after_claims w in
  TokenClaims.mk userID email "refresh"
    (Some (NewNumericDate (instant w1 1 + refreshTokenTTL j)))
    None
    (Some (NewNumericDate (instant w1 2)))
    (entropy w (S (drawn w))).

(** The world in which the session of [userID] has been replaced by the
    refresh token [rt], issuance having started in [w]. *)
Definition session_written (s : Server) (userID rt : string) (w : World) : World :=
  written (after_claims (after_claims w)) ("refresh:" +:+ userID) rt
    (RefreshTokenTTL (JWT (config s))).

(** The answer of Register and Login for a principal and a token pair. *)
Definition IssueResponse_of (s : Server) (user : User.t) (tokens : string * string)
    : IssueResponse.t :=
  IssueResponse.mk (User.ID user) (User.Email user) (User.Name user)
    (fst tokens) (Seconds (AccessTokenTTL (JWT (config s))))
    (snd tokens) (Seconds (RefreshTokenTTL (JWT (config s)))).

(** The answer of Refresh for a token pair. *)
Definition RefreshResponse_of (s : Server) (tokens : string * string) : RefreshResponse.t :=
  RefreshResponse.mk
    (fst tokens) (Seconds (AccessTokenTTL (JWT (config s))))
    (snd tokens) (Seconds (RefreshTokenTTL (JWT (config s)))).

(** ** Results and laws *)

(** The result is a failure of the given kind. *)
Definition fails_with {A} (r : result A) (kind : error -> Prop) : Prop :=
  exists e, r = Err e /\ kind e.

(** A signed string decodes to the method and the claims it was made from,
    and its signature checks under the same key. *)
Definition round_trip (L : Library) : Prop :=
  forall m c key T,
    SignedString L m c key = inr T ->
    exists token,
      Decode L T = inr token /\
      Token.Method token = m /\
      Token.Claims token = c /\
      Verify L m (Token.SigningString token) (Token.Signature token) key = true.

(** ** Every way a handler can run *)

Section Runs.
Context (L : Library).

(** Generate a pair, store the refresh token as the principal's session,
    answer: the three issuing handlers end this way, with their own
    error messages and response. *)
Definition issue {R} (s : Server) (userID email : string) (f g : error -> error)
    (k : string * string -> R) : M R :=
  tokens <- or_return (utils.GenerateTokenPair L (jwtManager s) userID email) f ;;
  or_return
    (redisClient.Set_ ("refresh:" +:+ userID) (snd tokens) (RefreshTokenTTL (JWT (config s))))
    g ;;;
  ret (k tokens).

(** Every way that tail can go when started in [w]: signing fails, or the
    pair is signed and Redis stores the session, refuses to, or stores it
    and loses the reply. *)
Inductive issue_run {R} (s : Server) (userID email : string) (f g : error -> error)
    (k : string * string -> R) (w : World) : result R -> World -> Prop :=
| issue_unsigned e w' :
    same_stores w w' ->
    issue_run s userID email f g k w (Err (f e)) w'
| issue_done a rt :
    SignedString L HS256 (accessClaims_of (jwtManager s) userID email w)
      (secret (jwtManager s)) = inr a ->
    SignedString L HS256 (refreshClaims_of (jwtManager s) userID email w)
      (secret (jwtManager s)) = inr rt ->
    service_at w 0 = Served ->
    issue_run s userID email f g k w (Ok (k (a, rt))) (session_written s userID rt w)
| issue_refused rt :
    SignedString L HS256 (refreshClaims_of (jwtManager s) userID email w)
      (secret (jwtManager s)) = inr rt ->
    service_at w 0 = Refused ->
    issue_run s userID email f g k w (Err (g ErrUnavailable))
      (arrive (after_claims (after_claims w)))
| issue_lost rt :
    SignedString L HS256 (refreshClaims_of (jwtManager s) userID email w)
      (secret (jwtManager s)) = inr rt ->
    service_at w 0 = Lost ->
    issue_run s userID email f g k w (Err (g ErrUnavailable)) (session_written s userID rt w).

(** Every way a call of Refresh started in [w] can go. *)
Inductive Refresh_run (s : Server) (T : string) (w : World)
    : result RefreshResponse.t -> World -> Prop :=
| Refresh_unavailable :
    service_at w 0 <> Served ->
    Refresh_run s T w (Err (Wrapf "redis blacklist check failed" ErrUnavailable)) (arrive w)
| Refresh_blacklisted :
    service_at w 0 = Served ->
    revoked (redis w) (instant w 1) T ->
    Refresh_run s T w (Err (Errorf "refresh token blacklisted")) (arrive w)
| Refresh_invalid e w' :
    service_at w 0 = Served ->
    ~ revoked (redis w) (instant w 1) T ->
    (forall c, ~ verifies L (jwtManager s) (instant w 2) "refresh" T c) ->
    same_stores w w' ->
    Refresh_run s T w (Err (Wrapf "invalid refresh token" e)) w'
| Refresh_not_found c e :
    service_at w 0 = Served ->
    ~ revoked (redis w) (instant w 1) T ->
    verifies L (jwtManager s) (instant w 2) "refresh" T c ->
    service_at w 1 <> Served \/
      activeRefresh (redis w) (instant w 3) (TokenClaims.UserID c) = None ->
    Refresh_run s T w (Err (Wrapf "refresh token not found" e)) (checked w)
| Refresh_mismatch c stored :
    service_at w 0 = Served ->
    ~ revoked (redis w) (instant w 1) T ->
    verifies L (jwtManager s) (instant w 2) "refresh" T c ->
    service_at w 1 = Served ->
    activeRefresh (redis w) (instant w 3) (TokenClaims.UserID c) = Some stored ->
    stored <> T ->
    Refresh_run s T w (Err (Errorf "refresh token mismatch")) (checked w)
| Refresh_rotate c r w' :
    service_at w 0 = Served ->
    ~ revoked (redis w) (instant w 1) T ->
    verifies L (jwtManager s) (instant w 2) "refresh" T c ->
    service_at w 1 = Served ->
    activeRefresh (redis w) (instant w 3) (TokenClaims.UserID c) = Some T ->
    issue_run s (TokenClaims.UserID c) (TokenClaims.Email c)
      (Wrapf "failed to generate new tokens") (Wrapf "failed to save new refresh token")
      (RefreshResponse_of s) (checked w) r w' ->
    Refresh_run s T w r w'.

(** Every way a call of Logout started in [w] can go. *)
Inductive Logout_run (s : Server) (T : string) (w : World)
    : result LogoutResponse.t -> World -> Prop :=
| Logout_invalid w' :
    (forall c, ~ verifies L (jwtManager s) (instant w 1) "refresh" T c) ->
    same_stores w w' ->
    Logout_run s T w (Ok (LogoutResponse.mk false)) w'
| Logout_nil_expiry c :
    verifies L (jwtManager s) (instant w 1) "refresh" T c ->
    TokenClaims.ExpiresAt c = None ->
    Logout_run s T w Panic (elapse w)
| Logout_lapsed c e :
    verifies L (jwtManager s) (instant w 1) "refresh" T c ->
    TokenClaims.ExpiresAt c = Some e ->
    Time e <= instant w 2 ->
    service_at w 0 = Served ->
    Logout_run s T w (Ok (LogoutResponse.mk true))
      (deleted (measured w) ("refresh:" +:+ TokenClaims.UserID c))
| Logout_revoked c e :
    verifies L (jwtManager s) (instant w 1) "refresh" T c ->
    TokenClaims.ExpiresAt c = Some e ->
    instant w 2 < Time e ->
    service_at w 0 = Served ->
    service_at w 1 = Served ->
    Logout_run s T w (Ok (LogoutResponse.mk true))
      (deleted (denied T e w) ("refresh:" +:+ TokenClaims.UserID c))
| Logout_unavailable c cause w' :
    verifies L (jwtManager s) (instant w 1) "refresh" T c ->
    service_at w 0 <> Served \/ service_at w 1 <> Served ->
    cause = "failed to blacklist token" \/ cause = "failed to delete refresh token" ->
    Logout_run s T w (Err (Wrapf cause ErrUnavailable)) w'.

(** Every way a call of ValidateToken started in [w] can go. *)
Inductive ValidateToken_run (s : Server) (T : string) (w : World)
    : result ValidateTokenResponse.t -> World -> Prop :=
| Validate_invalid w' :
    (forall c, ~ verifies L (jwtManager s) (instant w 1) "access" T c) ->
    w' = w \/ w' = elapse w ->
    ValidateToken_run s T w (Ok (ValidateTokenResponse.mk false "" "" 0)) w'
| Validate_nil_expiry c :
    verifies L (jwtManager s) (instant w 1) "access" T c ->
    TokenClaims.ExpiresAt c = None ->
    ValidateToken_run s T w Panic (elapse w)
| Validate_valid c e :
    verifies L (jwtManager s) (instant w 1) "access" T c ->
    TokenClaims.ExpiresAt c = Some e ->
    ValidateToken_run s T w
      (Ok (ValidateTokenResponse.mk true (TokenClaims.UserID c) (TokenClaims.Email c)
             (Seconds (Time e - instant w 2))))
      (measured w).

(** Every way a call of Login started in [w] can go. *)
Inductive Login_run (s : Server) (req : LoginRequest.t) (w : World)
    : result IssueResponse.t -> World -> Prop :=
| Login_not_found :
    service_at w 0 <> Served \/ principal w (LoginRequest.Email req) = None ->
    Login_run s req w (Err (Errorf "invalid credentials")) (arrive w)
| Login_wrong_password user :
    service_at w 0 = Served ->
    principal w (LoginRequest.Email req) = Some user ->
    models.CheckPassword L user (LoginRequest.Password req) = false ->
    Login_run s req w (Err (Errorf "invalid credentials")) (arrive w)
| Login_issue user r w' :
    service_at w 0 = Served ->
    principal w (LoginRequest.Email req) = Some user ->
    models.CheckPassword L user (LoginRequest.Password req) = true ->
    issue_run s (User.ID user) (User.Email user)
      (Wrapf "failed to generate tokens") (Wrapf "failed to store refresh token")
      (IssueResponse_of s user) (arrive w) r w' ->
    Login_run s req w r w'.

(** [signed_by], computed: the claims of [T] if its signature checks. *)
Definition claims_if_signed (key T : string) : option TokenClaims.t :=
  match Decode L T with
  | inr token =>
      if is_SigningMethodHMAC (Token.Method token)
         && Verify L (Token.Method token) (Token.SigningString token)
              (Token.Signature token) key
      then Some (Token.Claims token)
      else None
  | inl _ => None
  end.
End Runs.

(** ** A run on the fake *)

Module Scenario.
Import Fake.

Definition alice : RegisterRequest.t := RegisterRequest.mk "a@x.com" "pw" "A".
Definition credentials : LoginRequest.t := LoginRequest.mk "a@x.com" "pw".

(** Alice registers in the empty world, then logs in twice. *)
Definition registered : World := snd (auth.Register library server alice world).
Definition logged_in : World := snd (auth.Login library server credentials registered).
Definition logged_in_again : World :=
  snd (auth.Login library server credentials logged_in).

Definition response {A} (r : result A * World) (default : A) : A :=
  match fst r with
  | Ok resp => resp
  | _ => default
  end.

Definition no_response : IssueResponse.t := IssueResponse.mk "" "" "" "" 0 "" 0.

(** The answers to the first and to the second Login. *)
Definition login1 : IssueResponse.t :=
  Eval vm_compute in
    response (auth.Login library server credentials registered) no_response.
Definition login2 : IssueResponse.t :=
  Eval vm_compute in
    response (auth.Login library server credentials logged_in) no_response.

Definition access1 : string := Eval vm_compute in IssueResponse.AccessToken login1.
Definition refresh1 : string := Eval vm_compute in IssueResponse.RefreshToken login1.
Definition refresh2 : string := Eval vm_compute in IssueResponse.RefreshToken login2.

Definition claims_of (T : string) : TokenClaims.t :=
  match Decode T with
  | inr token => Token.Claims token
  | inl _ => TokenClaims.mk "" "" "" None None None ""
  end.

Definition refresh1_claims : TokenClaims.t := Eval vm_compute in claims_of refresh1.
Definition access1_claims : TokenClaims.t := Eval vm_compute in claims_of access1.

Definition signed (m : SigningMethod) (c : TokenClaims.t) : string :=
  match SignedString m c (secret (jwtManager server)) with
  | inr T => T
  | inl _ => ""
  end.

(** After her first Login Alice refreshes with its refresh token. *)
Definition refreshed : World :=
  snd (auth.Refresh library server (RefreshRequest.mk refresh1) logged_in).

(** Or she logs out with it. *)
Definition logged_out : World :=
  snd (auth.Logout library server (LogoutRequest.mk refresh1) logged_in).

(** The access claims of the first Login, signed with HS384. *)
Definition hs384_token : string := Eval vm_compute in signed HS384 access1_claims.

(** The same claims under a header that names RS256. *)
Definition rs256_token : string :=
  Eval vm_compute in put_str "RS256" (put_claims access1_claims "forged").

(** Access claims without an expiry, signed with the server's secret. *)
Definition eternal_claims : TokenClaims.t :=
  TokenClaims.mk "10" "a@x.com" "access" None None None "x".
Definition eternal_token : string := Eval vm_compute in signed HS256 eternal_claims.

(** The row of Alice in the credential store. *)
Definition alice_row : User.t :=
  Eval vm_compute in
    match principal registered "a@x.com" with
    | Some u => u
    | None => User.mk "" "" "" "" 0 0
    end.

(** A world in which Redis refuses the third request to a dependency. *)
Definition redis_down : World :=
  mkWorld [] ∅ 0 [] [Served; Served; Refused] (fun n => put_nat n "") O.
End Scenario.

(** ** A law of the password hash *)

(** [bcrypt]: the hash made from a password compares equal to that
    password. *)
Definition password_law (L : Library) : Prop :=
  forall salt password hash,
    GenerateFromPassword L salt password = inr hash ->
    CompareHashAndPassword L hash password = true.

(** The outcome is a response, or a failure of the tail that generates the
    pair and stores the session. *)
Definition past_the_checks {R} (r : result R) (f g : string) : Prop :=
  (exists resp, r = Ok resp) \/
  (exists cause, r = Err (Wrapf f cause)) \/
  (exists cause, r = Err (Wrapf g cause)).

(** ** Packages strings and strconv, as far as the code calls them

    Every separator the code splits on is a single byte, so the
    separator of [Cut], [SplitN] and [Split] is a character here. *)

(** [strings.Map(unicode.ToLower, s)] and [strings.Map(unicode.ToUpper, s)],
    which [strings.ToLower] and [strings.ToUpper] fall back to on a string
    with a byte outside ASCII. *)
Record Unicode := mkUnicode {
  MapToLower : string -> string;
  MapToUpper : string -> string
}.

Module strings.
(** [strings.Cut(s, sep)]: the text before and the text after the first
    occurrence of [sep]. *)
Fixpoint Cut (s : string) (sep : ascii) : option (string * string) :=
  match s with
  | EmptyString => None
  | String c r =>
      if Ascii.eqb c sep then Some (EmptyString, r)
      else
        match Cut r sep with
        | Some (before, after) => Some (String c before, after)
        | None => None
        end
  end.

(** The loop of [genSplit]: cut at most [n] times, the rest is the last
    piece. *)
Fixpoint pieces (n : nat) (s : string) (sep : ascii) : list string :=
  match n with
  | O => [s]
  | S n' =>
      match Cut s sep with
      | Some (before, after) => before :: pieces n' after sep
      | None => [s]
      end
  end.

(** [strings.SplitN(s, sep, n)]: nil for [n = 0], every piece for [n < 0]
    (a string has no more separators than bytes), at most [n] pieces
    otherwise. *)
Definition SplitN (s : string) (sep : ascii) (n : Z) : list string :=
  if n =? 0 then []
  else if n <? 0 then pieces (String.length s) s sep
  else pieces (Z.to_nat (n - 1)) s sep.

(** [strings.Split(s, sep)] *)
Definition Split (s : string) (sep : ascii) : list string := SplitN s sep (-1).

(** [strings.Join(elems, sep)] *)
Fixpoint Join (elems : list string) (sep : string) : string :=
  match elems with
  | [] => ""
  | [a] => a
  | a :: rest => a +:+ sep +:+ Join rest sep
  end.

(** [s[n:]] *)
Fixpoint drop (n : nat) (s : string) : string :=
  match n, s with
  | O, _ => s
  | S n', String _ r => drop n' r
  | S _, EmptyString => EmptyString
  end.

(** [strings.HasPrefix(s, prefix)] *)
Definition HasPrefix (s prefix : string) : bool := String.prefix prefix s.

(** [strings.TrimPrefix(s, prefix)] *)
Definition TrimPrefix (s prefix : string) : string :=
  if HasPrefix s prefix then drop (String.length prefix) s else s.

Definition is_ASCII (c : ascii) : bool := (nat_of_ascii c <? 128)%nat.

Definition is_upper (c : ascii) : bool :=
  (65 <=? nat_of_ascii c)%nat && (nat_of_ascii c <=? 90)%nat.

Definition is_lower (c : ascii) : bool :=
  (97 <=? nat_of_ascii c)%nat && (nat_of_ascii c <=? 122)%nat.

Fixpoint all (p : ascii -> bool) (s : string) : bool :=
  match s with
  | EmptyString => true
  | String c r => p c && all p r
  end.

Fixpoint map_bytes (f : ascii -> ascii) (s : string) : string :=
  match s with
  | EmptyString => EmptyString
  | String c r => String (f c) (map_bytes f r)
  end.

Section WithUnicode.
Context (U : Unicode).

(** [strings.ToLower(s)]: on an ASCII string each upper-case letter is
    moved down by 32. *)
Definition ToLower (s : string) : string :=
  if all is_ASCII s
  then map_bytes (fun c => if is_upper c then ascii_of_nat (nat_of_ascii c + 32) else c) s
  else MapToLower U s.

(** [strings.ToUpper(s)] *)
Definition ToUpper (s : string) : string :=
  if all is_ASCII s
  then map_bytes (fun c => if is_lower c then ascii_of_nat (nat_of_ascii c - 32) else c) s
  else MapToUpper U s.
End WithUnicode.
End strings.

Module strconv.
Definition MaxUint64 : Z := 2 ^ 64 - 1.
Definition MaxInt64 : Z := 2 ^ 63 - 1.
Definition MinInt64 : Z := - 2 ^ 63.

(** How a parse ends: with a value, with a syntax error, or out of range. *)
Inductive parsed : Type :=
| Value (n : Z)
| ErrSyntax
| ErrRange.

(** The loop of [strconv.ParseUint(s, 10, 64)] from the accumulator [n]:
    it stops at the first byte that is no digit, and at the first digit
    that takes the value out of range. *)
Fixpoint ParseUint_from (s : string) (n : Z) : parsed :=
  match s with
  | EmptyString => Value n
  | String c r =>
      let d := Z.of_nat (nat_of_ascii c) - 48 in
      if (d <? 0) || (9 <? d) then ErrSyntax
      else if MaxUint64 / 10 + 1 <=? n then ErrRange
      else if MaxUint64 <? n * 10 + d then ErrRange
      else ParseUint_from r (n * 10 + d)
  end.

Definition ParseUint (s : string) : parsed :=
  match s with
  | EmptyString => ErrSyntax
  | _ => ParseUint_from s 0
  end.

(** [strconv.ParseInt(s, 10, 64)]: the value it returns, and whether the
    error it returns is nil.  Out of range it returns the nearest bound
    together with the error. *)
Definition ParseInt (s : string) : Z * bool :=
  match s with
  | EmptyString => (0, false)
  | String c r =>
      let neg := Ascii.eqb c "-"%char in
      let body := if Ascii.eqb c "+"%char || neg then r else s in
      match ParseUint body with
      | ErrSyntax => (0, false)
      | ErrRange => (if neg then MinInt64 else MaxInt64, false)
      | Value un =>
          if negb neg && (MaxInt64 <? un) then (MaxInt64, false)
          else if neg && (- MinInt64 <? un) then (MinInt64, false)
          else (if neg then - un else un, true)
      end
  end.

(** [strconv.Atoi(s)] where [int] has 64 bits.  Its fast path, taken for
    strings of fewer than 19 bytes, returns what [ParseInt] returns. *)
Definition Atoi (s : string) : Z * bool := ParseInt s.

(** The decimal digits of a natural number, most significant first. *)
Fixpoint digits (fuel : nat) (n : Z) (acc : string) : string :=
  match fuel with
  | O => acc
  | S fuel' =>
      let acc' := String (ascii_of_nat (48 + Z.to_nat (n mod 10))) acc in
      if n / 10 =? 0 then acc' else digits fuel' (n / 10) acc'
  end.

(** [strconv.FormatInt(i, 10)], which is what the verb [%d] prints. *)
Definition FormatInt (i : Z) : string :=
  let fuel := S (Z.to_nat (Z.log2 (Z.abs i))) in
  if i <? 0 then String "-"%char (digits fuel (- i) "") else digits fuel i "".
End strconv.

(** The conversion [int32(x)] of an [int]: the low 32 bits, as a signed
    number. *)
Definition int32 (x : Z) : Z := (x + 2 ^ 31) mod 2 ^ 32 - 2 ^ 31.

(** The product of two [int64], which wraps around. *)
Definition mul64 (x y : Z) : Z := (x * y + 2 ^ 63) mod 2 ^ 64 - 2 ^ 63.

(** ** Tags, as the file repository stores them *)

(** The entries of a map in the order a [range] visits them.  Go leaves
    that order open: [order] picks one of the permutations. *)
Definition range (order : nat) (m : gmap string string) : list (string * string) :=
  let entries := map_to_list m in
  nth order (permutations entries) entries.

(** [formatTags].  A nil map and an empty map are the same map here; the
    code returns the empty string for both. *)
Definition formatTags (order : nat) (tags : gmap string string) : string :=
  strings.Join (map (fun kv => fst kv +:+ "=" +:+ snd kv) (range order tags)) ",".

(** The body of the loop of [parseTags]. *)
Definition parse_step (result : gmap string string) (part : string) : gmap string string :=
  match strings.SplitN part "="%char 2 with
  | [k; v] => <[k := v]> result
  | _ => result
  end.

Definition parseTags (tags : string) : gmap string string :=
  if String.eqb tags "" then ∅
  else fold_left parse_step (strings.Split tags ","%char) ∅.

(** No byte of [s] is [c]. *)
Definition free_of (c : ascii) (s : string) : bool :=
  strings.all (fun x => negb (Ascii.eqb x c)) s.

(** Tags that the stored form can carry: no key holds a comma or an equals
    sign, no value holds a comma. *)
Definition storable (tags : gmap string string) : Prop :=
  forall k v,
    tags !! k = Some v ->
    free_of ","%char k = true /\ free_of "="%char k = true /\ free_of ","%char v = true.

(** ** Files and the table that holds them *)

(** [models.File] *)
Module File.
Record t := mk {
  ID : string;
  UserID : string;
  Filename : string;
  OriginalName : string;
  Size : Z;
  MimeType : string;
  StoragePath : string;
  Bucket : string;
  IsPublic : bool;
  Tags : gmap string string;
  CreatedAt : Z;
  UpdatedAt : Z
}.
End File.

(** A row of the table [files], as the repository writes it: the tags are
    text, and a [TIMESTAMP WITH TIME ZONE] keeps whole microseconds. *)
Module FileRow.
Record t := mk {
  id : string;
  user_id : string;
  filename : string;
  original_name : string;
  size : Z;
  mime_type : string;
  storage_path : string;
  bucket : string;
  is_public : bool;
  tags : string;
  created_at : Z;
  updated_at : Z
}.
End FileRow.

Definition Microsecond : Duration := 1000.

(** The instant Postgres keeps for a [time.Time]. *)
Definition timestamptz (t : Z) : Z := t / Microsecond * Microsecond.

(** The world of the metadata service: the world of the auth service,
    whose Postgres also holds the table [files], and the order each coming
    [range] over a map takes. *)
Record Cloud := mkCloud {
  world : World;
  files : list FileRow.t;
  orders : list nat
}.

Definition with_world (c : Cloud) (w : World) : Cloud := mkCloud w (files c) (orders c).
Definition with_files (c : Cloud) (f : list FileRow.t) : Cloud := mkCloud (world c) f (orders c).

(** ** Computations over any state *)

Definition Run (S A : Type) : Type := S -> result A * S.

Section Run.
Context {S : Type}.

Definition unit_ {A} (a : A) : Run S A := fun s => (Ok a, s).
Definition raise {A} (e : error) : Run S A := fun s => (Err e, s).

Definition then_ {A B} (m : Run S A) (k : A -> Run S B) : Run S B :=
  fun s =>
    match m s with
    | (Ok a, s') => k a s'
    | (Err e, s') => (Err e, s')
    | (Panic, s') => (Panic, s')
    end.

(** [if err != nil { return nil, f(err) }] around a call. *)
Definition or_else {A} (m : Run S A) (f : error -> error) : Run S A :=
  fun s =>
    match m s with
    | (Err e, s') => (Err (f e), s')
    | other => other
    end.
End Run.

Declare Scope run_scope.
Delimit Scope run_scope with run.
Notation "x <- m ;; k" := (then_ m (fun x => k))
  (at level 100, m at next level, right associativity) : run_scope.
Notation "m ;;; k" := (then_ m (fun _ => k))
  (at level 100, right associativity) : run_scope.

(** A computation of the auth world, run in the world of the metadata
    service. *)
Definition lift {A} (m : M A) : Run Cloud A :=
  fun c => let '(r, w) := m (world c) in (r, with_world c w).

(** The order the next [range] over a map takes (the canonical one when
    none is scheduled). *)
Definition next_order : Run Cloud nat :=
  fun c =>
    match orders c with
    | [] => (Ok O, c)
    | o :: os => (Ok o, mkCloud (world c) (files c) os)
    end.

(** One statement sent to Postgres: time passes, then Postgres carries it
    out, refuses it, or carries it out and the reply is lost. *)
Definition statement {A} (reply : Cloud -> result A) (effect : Cloud -> Cloud) : Run Cloud A :=
  fun c =>
    let '(s, w1) := next_service (elapse (world c)) in
    let c1 := with_world c w1 in
    match s with
    | Served => (reply c1, effect c1)
    | Refused => (Err ErrUnavailable, c1)
    | Lost => (Err ErrUnavailable, effect c1)
    end.

(** The world in which a statement reaches Postgres. *)
Definition arrived (c : Cloud) : Cloud := with_world c (arrive (world c)).

(** The order [next_order] yields in [c], and the world it leaves. *)
Definition order_of (c : Cloud) : nat := hd O (orders c).
Definition ordered (c : Cloud) : Cloud := mkCloud (world c) (files c) (tl (orders c)).

(** ** The file repository

    Identifiers are compared as they are written, and a statement that
    Postgres rejects for the shape of a value is one it refuses. *)

Module FileRepository.
Local Open Scope run_scope.

Definition row_of (file : File.t) (tags : string) : FileRow.t :=
  FileRow.mk (File.ID file) (File.UserID file) (File.Filename file) (File.OriginalName file)
    (File.Size file) (File.MimeType file) (File.StoragePath file) (File.Bucket file)
    (File.IsPublic file) tags
    (timestamptz (File.CreatedAt file)) (timestamptz (File.UpdatedAt file)).

(** What [Scan] and [parseTags] make of a row. *)
Definition file_of (row : FileRow.t) : File.t :=
  File.mk (FileRow.id row) (FileRow.user_id row) (FileRow.filename row) (FileRow.original_name row)
    (FileRow.size row) (FileRow.mime_type row) (FileRow.storage_path row) (FileRow.bucket row)
    (FileRow.is_public row) (parseTags (FileRow.tags row))
    (FileRow.created_at row) (FileRow.updated_at row).

Definition has_id (id : string) (row : FileRow.t) : bool := String.eqb (FileRow.id row) id.

(** [WHERE id = $1 AND user_id = $2] *)
Definition owned (id userID : string) (row : FileRow.t) : bool :=
  String.eqb (FileRow.id row) id && String.eqb (FileRow.user_id row) userID.

(** The constraints of the table [files] in the schema: [id] is the
    primary key and [user_id] references a row of [users]. *)
Definition insertable (c : Cloud) (row : FileRow.t) : bool :=
  negb (existsb (has_id (FileRow.id row)) (files c))
  && existsb (fun u => String.eqb (User.ID u) (FileRow.user_id row)) (users (world c)).

Definition Create (file : File.t) : Run Cloud unit :=
  order <- next_order ;;
  let tags := formatTags order (File.Tags file) in
  or_else
    (statement
       (fun c => if insertable c (row_of file tags) then Ok tt else Err ErrConstraint)
       (fun c => if insertable c (row_of file tags)
                 then with_files c (files c ++ [row_of file tags])
                 else c))
    (Wrapf "failed to create file").

Definition GetByID (id : string) : Run Cloud File.t :=
  fun c =>
    match statement
            (fun c => match find (has_id id) (files c) with
                      | Some row => Ok row
                      | None => Err ErrNoRows
                      end)
            (fun c => c) c with
    | (Ok row, c') => (Ok (file_of row), c')
    | (Err ErrNoRows, c') => (Err (Errorf "file not found"), c')
    | (Err e, c') => (Err (Wrapf "failed to get file by id" e), c')
    | (Panic, c') => (Panic, c')
    end.

(** [SET filename = $1, original_name = $2, is_public = $3, tags = $4,
    updated_at = $5] *)
Definition updated (file : File.t) (tags : string) (row : FileRow.t) : FileRow.t :=
  FileRow.mk (FileRow.id row) (FileRow.user_id row) (File.Filename file) (File.OriginalName file)
    (FileRow.size row) (FileRow.mime_type row) (FileRow.storage_path row) (FileRow.bucket row)
    (File.IsPublic file) tags
    (FileRow.created_at row) (timestamptz (File.UpdatedAt file)).

Definition Update (file : File.t) : Run Cloud unit :=
  order <- next_order ;;
  let tags := formatTags order (File.Tags file) in
  let hit := owned (File.ID file) (File.UserID file) in
  rowsAffected <-
    or_else
      (statement
         (fun c => Ok (Z.of_nat (length (List.filter hit (files c)))))
         (fun c =>
            with_files c
              (map (fun row => if hit row then updated file tags row else row) (files c))))
      (Wrapf "failed to update file") ;;
  if rowsAffected =? 0 then raise (Errorf "file not found or access denied")
  else unit_ tt.

Definition Delete (id userID : string) : Run Cloud unit :=
  rowsAffected <-
    or_else
      (statement
         (fun c => Ok (Z.of_nat (length (List.filter (owned id userID) (files c)))))
         (fun c => with_files c (List.filter (fun row => negb (owned id userID row)) (files c))))
      (Wrapf "failed to delete file") ;;
  if rowsAffected =? 0 then raise (Errorf "file not found or access denied")
  else unit_ tt.

(** The three values [CheckAccess] returns beside the error. *)
Definition CheckAccess (fileID userID : string) : Run Cloud (bool * string * string) :=
  fun c =>
    match statement
            (fun c => match find (has_id fileID) (files c) with
                      | Some row => Ok row
                      | None => Err ErrNoRows
                      end)
            (fun c => c) c with
    | (Ok row, c') =>
        if FileRow.is_public row then (Ok (true, FileRow.storage_path row, FileRow.bucket row), c')
        else if String.eqb (FileRow.user_id row) userID
        then (Ok (true, FileRow.storage_path row, FileRow.bucket row), c')
        else (Ok (false, "", ""), c')
    | (Err ErrNoRows, c') => (Err (Errorf "file not found"), c')
    | (Err e, c') => (Err (Wrapf "failed to check access" e), c')
    | (Panic, c') => (Panic, c')
    end.
End FileRepository.

(** [models.NewFile] *)
Definition NewFile (userID filename originalName mimeType storagePath bucket : string)
    (size : Z) (isPublic : bool) (tags : gmap string string) : M File.t :=
  id <- random_string ;;
  createdAt <- time_Now ;;
  updatedAt <- time_Now ;;
  ret (File.mk id userID filename originalName size mimeType storagePath bucket
         isPublic tags createdAt updatedAt).

(** ** Package metadata: the server *)

(** [api.FileMetadata] *)
Module FileMetadata.
Record t := mk {
  Id : string;
  UserId : string;
  Filename : string;
  OriginalName : string;
  Size : Z;
  MimeType : string;
  StoragePath : string;
  Bucket : string;
  CreatedAt : Z;
  UpdatedAt : Z;
  IsPublic : bool;
  Tags : gmap string string
}.
End FileMetadata.

Module CreateMetadataRequest.
Record t := mk {
  UserId : string;
  Filename : string;
  OriginalName : string;
  MimeType : string;
  StoragePath : string;
  Bucket : string;
  Size : Z;
  IsPublic : bool;
  Tags : gmap string string
}.
End CreateMetadataRequest.

Module GetMetadataRequest.
Record t := mk { Id : string; UserId : string }.
End GetMetadataRequest.

Module UpdateMetadataRequest.
Record t := mk {
  Id : string;
  UserId : string;
  Filename : string;
  OriginalName : string;
  IsPublic : bool;
  Tags : gmap string string
}.
End UpdateMetadataRequest.

Module DeleteMetadataRequest.
Record t := mk { Id : string; UserId : string }.
End DeleteMetadataRequest.

Module CheckAccessRequest.
Record t := mk { FileId : string; UserId : string }.
End CheckAccessRequest.

Module ListMetadataRequest.
Record t := mk {
  UserId : string;
  Page : Z;
  PageSize : Z;
  SortBy : string;
  SortOrder : string;
  Search : string
}.
End ListMetadataRequest.

(** [api.CreateMetadataResponse], [api.GetMetadataResponse] and
    [api.UpdateMetadataResponse] carry the one field [Metadata]. *)
Module MetadataResponse.
Record t := mk { Metadata : FileMetadata.t }.
End MetadataResponse.

Module DeleteMetadataResponse.
Record t := mk { Success : bool }.
End DeleteMetadataResponse.

Module CheckAccessResponse.
Record t := mk { HasAccess : bool; StoragePath : string; Bucket : string }.
End CheckAccessResponse.

Module ListMetadataResponse.
Record t := mk {
  Items : list FileMetadata.t;
  Total : Z;
  Page : Z;
  PageSize : Z
}.
End ListMetadataResponse.

Module metadata.
Local Open Scope run_scope.

Definition convertToProto (file : File.t) : FileMetadata.t :=
  FileMetadata.mk (File.ID file) (File.UserID file) (File.Filename file)
    (File.OriginalName file) (File.Size file) (File.MimeType file)
    (File.StoragePath file) (File.Bucket file) (File.CreatedAt file)
    (File.UpdatedAt file) (File.IsPublic file) (File.Tags file).

Definition CreateMetadata (req : CreateMetadataRequest.t) : Run Cloud MetadataResponse.t :=
  file <- lift (NewFile (CreateMetadataRequest.UserId req)
                  (CreateMetadataRequest.Filename req)
                  (CreateMetadataRequest.OriginalName req)
                  (CreateMetadataRequest.MimeType req)
                  (CreateMetadataRequest.StoragePath req)
                  (CreateMetadataRequest.Bucket req)
                  (CreateMetadataRequest.Size req)
                  (CreateMetadataRequest.IsPublic req)
                  (CreateMetadataRequest.Tags req)) ;;
  or_else (FileRepository.Create file) (Wrapf "failed to create metadata") ;;;
  unit_ (MetadataResponse.mk (convertToProto file)).

Definition GetMetadata (req : GetMetadataRequest.t) : Run Cloud MetadataResponse.t :=
  file <- or_else (FileRepository.GetByID (GetMetadataRequest.Id req))
            (Wrapf "failed to get metadata") ;;
  if negb (String.eqb (File.UserID file) (GetMetadataRequest.UserId req))
     && negb (File.IsPublic file)
  then raise (Errorf "access denied")
  else unit_ (MetadataResponse.mk (convertToProto file)).

Definition UpdateMetadata (req : UpdateMetadataRequest.t) : Run Cloud MetadataResponse.t :=
  existing <- or_else (FileRepository.GetByID (UpdateMetadataRequest.Id req))
                (Wrapf "failed to get metadata") ;;
  if negb (String.eqb (File.UserID existing) (UpdateMetadataRequest.UserId req))
  then raise (Errorf "access denied")
  else
    now <- lift time_Now ;;
    let existing :=
      File.mk (File.ID existing) (File.UserID existing)
        (UpdateMetadataRequest.Filename req) (UpdateMetadataRequest.OriginalName req)
        (File.Size existing) (File.MimeType existing) (File.StoragePath existing)
        (File.Bucket existing)
        (UpdateMetadataRequest.IsPublic req) (UpdateMetadataRequest.Tags req)
        (File.CreatedAt existing) now in
    or_else (FileRepository.Update existing) (Wrapf "failed to update metadata") ;;;
    unit_ (MetadataResponse.mk (convertToProto existing)).

Definition DeleteMetadata (req : DeleteMetadataRequest.t) : Run Cloud DeleteMetadataResponse.t :=
  or_else
    (FileRepository.Delete (DeleteMetadataRequest.Id req) (DeleteMetadataRequest.UserId req))
    (Wrapf "failed to delete metadata") ;;;
  unit_ (DeleteMetadataResponse.mk true).

Definition CheckAccess (req : CheckAccessRequest.t) : Run Cloud CheckAccessResponse.t :=
  answer <- or_else
              (FileRepository.CheckAccess (CheckAccessRequest.FileId req)
                 (CheckAccessRequest.UserId req))
              (Wrapf "failed to check access") ;;
  let '(hasAccess, storagePath, bucket) := answer in
  unit_ (CheckAccessResponse.mk hasAccess storagePath bucket).
End metadata.

(** The file is public or belongs to [userID]. *)
Definition may_read (userID : string) (row : FileRow.t) : Prop :=
  FileRow.is_public row = true \/ FileRow.user_id row = userID.

(** The columns that no statement of the repository changes once a row is
    written. *)
Definition same_fixed_columns (old new : FileRow.t) : Prop :=
  FileRow.id new = FileRow.id old /\
  FileRow.user_id new = FileRow.user_id old /\
  FileRow.size new = FileRow.size old /\
  FileRow.mime_type new = FileRow.mime_type old /\
  FileRow.storage_path new = FileRow.storage_path old /\
  FileRow.bucket new = FileRow.bucket old /\
  FileRow.created_at new = FileRow.created_at old.


(** ** Package file: the parts that need no object store *)

Module GetDownloadLinkRequest.
Record t := mk { FileId : string; UserId : string; ExpiresIn : Z }.
End GetDownloadLinkRequest.

Module GetDownloadLinkResponse.
Record t := mk {
  DownloadUrl : string;
  Method : string;
  Headers : gmap string string;
  ExpiresIn : Z
}.
End GetDownloadLinkResponse.

(** [presignedClient.PresignedGetObject(ctx, bucket, object, expires, nil)]
    followed by [String()] on the URL: presigning is a computation of the
    MinIO client, which contacts no server. *)
Record MinIO := mkMinIO {
  PresignedGetObject : string -> string -> Duration -> error + string
}.

Definition Hour : Duration := 3600 * Second.

Module file.
Local Open Scope run_scope.

(** The loop of [generateUniqueFilename], which looks at the bytes from
    the last one down to the first and keeps the text from the first dot
    it meets; [i] is one more than the index looked at next. *)
Fixpoint scan (original : string) (i : nat) : string :=
  match i with
  | O => ""
  | S i' =>
      match String.get i' original with
      | Some c => if Ascii.eqb c "."%char then strings.drop i' original else scan original i'
      | None => scan original i'
      end
  end.

Definition generateUniqueFilename (original : string) : M string :=
  let ext :=
    if 0 <? Z.of_nat (String.length original) - 1
    then scan original (String.length original)
    else "" in
  (now <- time_Now ;; ret (strconv.FormatInt now +:+ ext))%go.

Definition GetDownloadLink (S : MinIO) (req : GetDownloadLinkRequest.t)
    : Run Cloud GetDownloadLinkResponse.t :=
  answer <- or_else
              (FileRepository.CheckAccess (GetDownloadLinkRequest.FileId req)
                 (GetDownloadLinkRequest.UserId req))
              (Wrapf "failed to check access") ;;
  let '(hasAccess, storagePath, bucket) := answer in
  if negb hasAccess then raise (Errorf "access denied")
  else
    let expiresIn :=
      if 0 <? GetDownloadLinkRequest.ExpiresIn req
      then mul64 (GetDownloadLinkRequest.ExpiresIn req) Second
      else Hour in
    match PresignedGetObject S bucket storagePath expiresIn with
    | inl err => raise (Wrapf "failed to generate download URL" err)
    | inr presignedURL =>
        unit_ (GetDownloadLinkResponse.mk presignedURL "GET" ∅ (Z.quot expiresIn Second))
    end.
End file.

(** ** Package gateway *)

Module http.
Definition StatusOK : Z := 200.
Definition StatusCreated : Z := 201.
Definition StatusBadRequest : Z := 400.
Definition StatusUnauthorized : Z := 401.
Definition StatusNotFound : Z := 404.
Definition StatusMethodNotAllowed : Z := 405.
Definition StatusInternalServerError : Z := 500.

(** [http.Header] and [url.Values]: the values under each key. *)
Definition Values := gmap string (list string).

(** [Header.Get] and [Values.Get]: the first value under the key, the
    empty string when there is none.  The keys of a request header are in
    canonical form, and so is the one key the code asks for. *)
Definition Get (v : Values) (key : string) : string :=
  match v !! key with
  | Some (x :: _) => x
  | _ => ""
  end.

(** [http.Request]: method, [URL.Path], [URL.Query()], header, body, and
    the values attached to its context, the innermost first. *)
Record Request := mkRequest {
  Method : string;
  Path : string;
  Query : Values;
  Header : Values;
  Body : string;
  Context : list (string * string)
}.

(** [r.WithContext(context.WithValue(r.Context(), key, val))] *)
Definition WithValue (r : Request) (key val : string) : Request :=
  mkRequest (Method r) (Path r) (Query r) (Header r) (Body r) ((key, val) :: Context r).

(** [r.Context().Value(key)] *)
Definition Value (r : Request) (key : string) : option string :=
  match find (fun kv => String.eqb (fst kv) key) (Context r) with
  | Some kv => Some (snd kv)
  | None => None
  end.
End http.

(** What is handed to [json.NewEncoder(w).Encode]. *)
Inductive Payload : Type :=
| JSON_status (status : string)            (* map[string]string{"status": ...} *)
| JSON_success (success : bool)            (* map[string]bool{"success": ...} *)
| JSON_issue (resp : IssueResponse.t)
| JSON_refresh (resp : RefreshResponse.t)
| JSON_logout (resp : LogoutResponse.t)
| JSON_metadata (resp : MetadataResponse.t)
| JSON_list (resp : ListMetadataResponse.t).

(** The calls a handler makes on its [http.ResponseWriter]. *)
Inductive Written : Type :=
| SetHeader (key val : string)             (* w.Header().Set(key, val) *)
| WriteHeader (status : Z)
| Encode (data : Payload)
| Error (body : string) (status : Z).      (* http.Error(w, body, status) *)

(** How a handler ends: it returns, or it panics (which net/http
    recovers), having made these calls. *)
Inductive Outcome : Type :=
| Wrote (calls : list Written)
| Panicked (calls : list Written).

(** The body of an error response: [{], the key [error] in double quotes,
    a colon and a space, the message in double quotes, [}]. *)
Definition error_body (msg : string) : string :=
  let q := String "034"%char "" in
  "{" +:+ q +:+ "error" +:+ q +:+ ": " +:+ q +:+ msg +:+ q +:+ "}".

(** What the gateway takes from its surroundings: the decoding of a JSON
    body into each request message ([json.NewDecoder(r.Body).Decode]),
    and the text [err.Error()] of an error that a client call returns. *)
Record Codec := mkCodec {
  DecodeRegister : string -> option RegisterRequest.t;
  DecodeLogin : string -> option LoginRequest.t;
  DecodeRefresh : string -> option RefreshRequest.t;
  DecodeLogout : string -> option LogoutRequest.t;
  DecodeUpdate : string -> option UpdateMetadataRequest.t;
  ErrorText : error -> string
}.

(** A client call: the response or the error, and the state the services
    behind the gateway are left in. *)
Definition Call (St A : Type) : Type := St -> (error + A) * St.

Module api.
(** [api.AuthServiceClient] *)
Record AuthServiceClient (St : Type) := mkAuthServiceClient {
  Register : RegisterRequest.t -> Call St IssueResponse.t;
  Login : LoginRequest.t -> Call St IssueResponse.t;
  Refresh : RefreshRequest.t -> Call St RefreshResponse.t;
  ValidateToken : ValidateTokenRequest.t -> Call St ValidateTokenResponse.t;
  Logout : LogoutRequest.t -> Call St LogoutResponse.t
}.
Arguments Register {St}.
Arguments Login {St}.
Arguments Refresh {St}.
Arguments ValidateToken {St}.
Arguments Logout {St}.

(** [api.MetadataServiceClient], the methods the gateway calls. *)
Record MetadataServiceClient (St : Type) := mkMetadataServiceClient {
  ListMetadata : ListMetadataRequest.t -> Call St ListMetadataResponse.t;
  GetMetadata : GetMetadataRequest.t -> Call St MetadataResponse.t;
  UpdateMetadata : UpdateMetadataRequest.t -> Call St MetadataResponse.t;
  DeleteMetadata : DeleteMetadataRequest.t -> Call St DeleteMetadataResponse.t
}.
Arguments ListMetadata {St}.
Arguments GetMetadata {St}.
Arguments UpdateMetadata {St}.
Arguments DeleteMetadata {St}.
End api.

(** A call that reaches the handler [h] of a gRPC server: the caller gets
    the response or the error of the handler; when the handler panics the
    serving process ends and the call fails. *)
Definition connect {St A} (h : Run St A) : Call St A :=
  fun s =>
    match h s with
    | (Ok a, s') => (inr a, s')
    | (Err e, s') => (inl e, s')
    | (Panic, s') => (inl ErrUnavailable, s')
    end.

Module gateway.
(** The clients of [gateway.Server] whose calls are followed here. *)
Record Server (St : Type) := mkServer {
  authClient : api.AuthServiceClient St;
  metadataClient : api.MetadataServiceClient St
}.
Arguments authClient {St}.
Arguments metadataClient {St}.

Definition HandlerFunc (St : Type) : Type := http.Request -> St -> Outcome * St.

Definition jsonResponse (status : Z) (data : Payload) : list Written :=
  [SetHeader "Content-Type" "application/json"; WriteHeader status; Encode data].

Section WithSurroundings.
Context (U : Unicode) (J : Codec) {St : Type}.

(** [if err != nil { http.Error(w, fmt.Sprintf(..., err.Error()), failure);
    return }; jsonResponse(w, success, resp)], the end of five handlers. *)
Definition respond {A} (failure success : Z) (payload : A -> Payload)
    (answer : (error + A) * St) : Outcome * St :=
  match answer with
  | (inl err, st) => (Wrote [Error (error_body (ErrorText J err)) failure], st)
  | (inr resp, st) => (Wrote (jsonResponse success (payload resp)), st)
  end.

Definition corsMiddleware (next : HandlerFunc St) : HandlerFunc St :=
  fun r st =>
    let headers :=
      [SetHeader "Access-Control-Allow-Origin" "*";
       SetHeader "Access-Control-Allow-Methods" "GET, POST, PUT, DELETE, OPTIONS";
       SetHeader "Access-Control-Allow-Headers" "Content-Type, Authorization"] in
    if String.eqb (http.Method r) "OPTIONS"
    then (Wrote (headers ++ [WriteHeader http.StatusOK]), st)
    else
      match next r st with
      | (Wrote calls, st') => (Wrote (headers ++ calls), st')
      | (Panicked calls, st') => (Panicked (headers ++ calls), st')
      end.

Definition withAuth (s : Server St) (next : HandlerFunc St) : HandlerFunc St :=
  fun r st =>
    let authHeader := http.Get (http.Header r) "Authorization" in
    if String.eqb authHeader ""
    then (Wrote [Error (error_body "authorization header required") http.StatusUnauthorized],
          st)
    else
      match strings.SplitN authHeader " "%char 2 with
      | [scheme; token] =>
          if negb (String.eqb (strings.ToLower U scheme) "bearer")
          then (Wrote [Error (error_body "invalid authorization header format")
                         http.StatusUnauthorized], st)
          else
            match api.ValidateToken (authClient s) (ValidateTokenRequest.mk token) st with
            | (inr resp, st') =>
                if negb (ValidateTokenResponse.Valid resp)
                then (Wrote [Error (error_body "invalid or expired token")
                               http.StatusUnauthorized], st')
                else
                  next
                    (http.WithValue
                       (http.WithValue
                          (http.WithValue r "userID" (ValidateTokenResponse.UserId resp))
                          "email" (ValidateTokenResponse.Email resp))
                       "token" token)
                    st'
            | (inl _, st') =>
                (Wrote [Error (error_body "invalid or expired token")
                          http.StatusUnauthorized], st')
            end
      | _ =>
          (Wrote [Error (error_body "invalid authorization header format")
                    http.StatusUnauthorized], st)
      end.

Definition handleHealth : HandlerFunc St :=
  fun r st => (Wrote (jsonResponse http.StatusOK (JSON_status "healthy")), st).

Definition handleRegister (s : Server St) : HandlerFunc St :=
  fun r st =>
    if negb (String.eqb (http.Method r) "POST")
    then (Wrote [Error (error_body "method not allowed") http.StatusMethodNotAllowed], st)
    else
      match DecodeRegister J (http.Body r) with
      | None => (Wrote [Error (error_body "invalid request body") http.StatusBadRequest], st)
      | Some req =>
          respond http.StatusInternalServerError http.StatusCreated JSON_issue
            (api.Register (authClient s) req st)
      end.

Definition handleLogin (s : Server St) : HandlerFunc St :=
  fun r st =>
    if negb (String.eqb (http.Method r) "POST")
    then (Wrote [Error (error_body "method not allowed") http.StatusMethodNotAllowed], st)
    else
      match DecodeLogin J (http.Body r) with
      | None => (Wrote [Error (error_body "invalid request body") http.StatusBadRequest], st)
      | Some req =>
          respond http.StatusUnauthorized http.StatusOK JSON_issue
            (api.Login (authClient s) req st)
      end.

Definition handleRefresh (s : Server St) : HandlerFunc St :=
  fun r st =>
    if negb (String.eqb (http.Method r) "POST")
    then (Wrote [Error (error_body "method not allowed") http.StatusMethodNotAllowed], st)
    else
      match DecodeRefresh J (http.Body r) with
      | None => (Wrote [Error (error_body "invalid request body") http.StatusBadRequest], st)
      | Some req =>
          match api.Refresh (authClient s) req st with
          | (inl _, st') =>
              (Wrote [Error (error_body "refresh failed") http.StatusInternalServerError],
               st')
          | (inr resp, st') =>
              (Wrote (jsonResponse http.StatusOK (JSON_refresh resp)), st')
          end
      end.

Definition handleLogout (s : Server St) : HandlerFunc St :=
  fun r st =>
    if negb (String.eqb (http.Method r) "POST")
    then (Wrote [Error (error_body "method not allowed") http.StatusMethodNotAllowed], st)
    else
      match DecodeLogout J (http.Body r) with
      | None => (Wrote [Error (error_body "invalid request body") http.StatusBadRequest], st)
      | Some req =>
          match api.Logout (authClient s) req st with
          | (inr resp, st') =>
              if negb (LogoutResponse.Success resp)
              then (Wrote [Error (error_body "logout failed")
                             http.StatusInternalServerError], st')
              else (Wrote (jsonResponse http.StatusOK (JSON_logout resp)), st')
          | (inl _, st') =>
              (Wrote [Error (error_body "logout failed") http.StatusInternalServerError],
               st')
          end
      end.

Definition handleFiles (s : Server St) : HandlerFunc St :=
  fun r st =>
    match http.Value r "userID" with
    | None => (Panicked [], st)
    | Some userID =>
        if String.eqb (http.Method r) "GET" then
          let page := fst (strconv.Atoi (http.Get (http.Query r) "page")) in
          let page := if page <? 1 then 1 else page in
          let pageSize := fst (strconv.Atoi (http.Get (http.Query r) "page_size")) in
          let pageSize := if (pageSize <? 1) || (100 <? pageSize) then 20 else pageSize in
          respond http.StatusInternalServerError http.StatusOK JSON_list
            (api.ListMetadata (metadataClient s)
               (ListMetadataRequest.mk userID (int32 page) (int32 pageSize)
                  (http.Get (http.Query r) "sort_by")
                  (http.Get (http.Query r) "sort_order")
                  (http.Get (http.Query r) "search"))
               st)
        else
          (Wrote [Error (error_body "method not allowed") http.StatusMethodNotAllowed], st)
    end.

Definition handleFileDetail (s : Server St) : HandlerFunc St :=
  fun r st =>
    match http.Value r "userID" with
    | None => (Panicked [], st)
    | Some userID =>
        let fileID := strings.TrimPrefix (http.Path r) "/api/v1/files/" in
        if String.eqb (http.Method r) "GET" then
          respond http.StatusNotFound http.StatusOK JSON_metadata
            (api.GetMetadata (metadataClient s) (GetMetadataRequest.mk fileID userID) st)
        else if String.eqb (http.Method r) "PUT" then
          match DecodeUpdate J (http.Body r) with
          | None =>
              (Wrote [Error (error_body "invalid request body") http.StatusBadRequest], st)
          | Some req =>
              respond http.StatusInternalServerError http.StatusOK JSON_metadata
                (api.UpdateMetadata (metadataClient s)
                   (UpdateMetadataRequest.mk fileID userID
                      (UpdateMetadataRequest.Filename req)
                      (UpdateMetadataRequest.OriginalName req)
                      (UpdateMetadataRequest.IsPublic req)
                      (UpdateMetadataRequest.Tags req))
                   st)
          end
        else if String.eqb (http.Method r) "DELETE" then
          match api.DeleteMetadata (metadataClient s)
                  (DeleteMetadataRequest.mk fileID userID) st with
          | (inl err, st') =>
              (Wrote [Error (error_body (ErrorText J err)) http.StatusInternalServerError],
               st')
          | (inr _, st') =>
              (Wrote (jsonResponse http.StatusOK (JSON_success true)), st')
          end
        else
          (Wrote [Error (error_body "method not allowed") http.StatusMethodNotAllowed], st)
    end.
End WithSurroundings.

End gateway.

(** The gateway of a deployment: its auth client reaches the auth server
    [a], its metadata client the metadata server, which keep their state
    in one Postgres and one Redis. *)
Definition deployed (L : Library) (a : Server)
    (lister : ListMetadataRequest.t -> Call Cloud ListMetadataResponse.t)
    : gateway.Server Cloud :=
  gateway.mkServer Cloud
    (api.mkAuthServiceClient Cloud
       (fun req => connect (lift (auth.Register L a req)))
       (fun req => connect (lift (auth.Login L a req)))
       (fun req => connect (lift (auth.Refresh L a req)))
       (fun req => connect (lift (auth.ValidateToken L a req)))
       (fun req => connect (lift (auth.Logout L a req))))
    (api.mkMetadataServiceClient Cloud
       lister
       (fun req => connect (metadata.GetMetadata req))
       (fun req => connect (metadata.UpdateMetadata req))
       (fun req => connect (metadata.DeleteMetadata req))).

(** The token of a bearer header: what follows the first space. *)
Definition bearer_token (r : http.Request) : string :=
  match strings.Cut (http.Get (http.Header r) "Authorization") " "%char with
  | Some (_, token) => token
  | None => ""
  end.

(** The request [withAuth] hands on when the token verifies with the given
    claims: their user id and email, and the token, are attached to its
    context. *)
Definition authenticated (r : http.Request) (claims : TokenClaims.t) : http.Request :=
  http.WithValue
    (http.WithValue
       (http.WithValue r "userID" (TokenClaims.UserID claims))
       "email" (TokenClaims.Email claims))
    "token" (bearer_token r).

(** The id of the file a request for [/api/v1/files/<id>] names. *)
Definition file_id (r : http.Request) : string :=
  strings.TrimPrefix (http.Path r) "/api/v1/files/".

(** ** More runs on the fake *)

Module Tour.
(** The world of a cloud, under a name that the first world of the
    scenario does not hide. *)
Definition world_of (c : Cloud) : World := world c.

Import Fake Scenario.

(** A pair generated in the first world. *)
Definition pair : string * string :=
  Eval vm_compute in
    response (utils.GenerateTokenPair library (jwtManager server) "7" "a@x.com" world)
      ("", "").

(** The world three seconds after the first one. *)
Definition much_later : World :=
  mkWorld [] ∅ (Time 3) [] [] (fun n => put_nat n "") O.

(** Alice logs out with the refresh token of her first Login after she
    has logged in again. *)
Definition logged_out_late : World :=
  snd (auth.Logout library server (LogoutRequest.mk refresh1) logged_in_again).

Definition answer {S A} (run : result A * S) (default : A) : A :=
  match fst run with
  | Ok resp => resp
  | _ => default
  end.

(** Surroundings of the gateway: strings outside ASCII are left as they
    are, the body of a refresh or logout request is the token itself, the
    body of an update is the new file name. *)
Definition unicode : Unicode := mkUnicode (fun s => s) (fun s => s).

Definition codec : Codec :=
  mkCodec
    (fun _ => None)
    (fun _ => None)
    (fun body => Some (RefreshRequest.mk body))
    (fun body => Some (LogoutRequest.mk body))
    (fun body => Some (UpdateMetadataRequest.mk "" "" body body false ∅))
    (fun _ => "failed").

Definition minio : MinIO :=
  mkMinIO (fun bucket object _ => inr (bucket +:+ "/" +:+ object)).

(** A gateway in front of the auth server and the metadata server; its
    ListMetadata is out of service. *)
Definition out_of_service (req : ListMetadataRequest.t) : Call Cloud ListMetadataResponse.t :=
  fun c => (inl ErrUnavailable, c).

Definition front : gateway.Server Cloud := deployed library server out_of_service.

(** After Alice's first Login the table of files is empty. *)
Definition cloud : Cloud := mkCloud logged_in [] [].

(** Alice stores the metadata of a private file. *)
Definition upload : CreateMetadataRequest.t :=
  CreateMetadataRequest.mk "10" "1.txt" "notes.txt" "text/plain" "10/1.txt" "cloud-storage"
    5 false {["kind" := "notes"]}.

Definition stocked : Cloud := snd (metadata.CreateMetadata upload cloud).

Definition no_metadata : MetadataResponse.t :=
  MetadataResponse.mk (FileMetadata.mk "" "" "" "" 0 "" "" "" 0 0 false ∅).

Definition created : MetadataResponse.t :=
  answer (metadata.CreateMetadata upload cloud) no_metadata.

(** The id the file got. *)
Definition notes : string :=
  Eval vm_compute in FileMetadata.Id (MetadataResponse.Metadata created).

(** A row of another user in the table. *)
Definition bobs_row : FileRow.t :=
  FileRow.mk "b1" "bob" "2.txt" "plan.txt" 7 "text/plain" "bob/2.txt" "cloud-storage"
    false "" 0 0.

Definition shared : Cloud := mkCloud logged_in [bobs_row] [].

(** Requests that carry the access token of Alice's first Login. *)
Definition bearer : http.Values := {["Authorization" := ["Bearer " +:+ access1]]}.

Definition get_notes : http.Request :=
  http.mkRequest "GET" ("/api/v1/files/" +:+ notes) ∅ bearer "" [].

Definition delete_bobs : http.Request :=
  http.mkRequest "DELETE" "/api/v1/files/b1" ∅ bearer "" [].

Definition logout : http.Request :=
  http.mkRequest "POST" "/api/v1/auth/logout" ∅ bearer refresh1 [].

(** A request with a Basic header. *)
Definition basic : http.Request :=
  http.mkRequest "GET" "/api/v1/files" ∅ {["Authorization" := ["Basic YTpi"]]} "" [].

(** A listing of page 4294967295, as a handler behind [withAuth] sees it. *)
Definition far_page : http.Request :=
  http.mkRequest "GET" "/api/v1/files" {["page" := ["4294967295"]]} bearer ""
    [("userID", "10")].

Definition calls_of (out : Outcome) : list Written :=
  match out with
  | Wrote calls => calls
  | Panicked calls => calls
  end.
End Tour.

(** ** Basic facts about worlds *)

Lemma instant_0 w : instant w 0 = clock w.
Proof. unfold instant. simpl. lia. Qed.

Lemma clock_elapse w : clock (elapse w) = instant w 1.
Proof.
  unfold elapse, instant. destruct (delays w) as [|d ds] eqn:E; simpl; rewrite ?E; simpl; lia.
Qed.

Lemma instant_elapse w n : instant (elapse w) n = instant w (S n).
Proof.
  unfold elapse, instant. destruct (delays w) as [|d ds] eqn:E; simpl; rewrite ?E.
  - destruct n; simpl; lia.
  - lia.
Qed.

Lemma instant_mono w n : instant w n <= instant w (S n).
Proof.
  unfold instant. generalize (delays w). induction n as [|n IH]; intros [|d ds]; simpl; try lia.
  specialize (IH ds). simpl in IH. destruct ds; simpl in *; lia.
Qed.

Lemma redis_elapse w : redis (elapse w) = redis w.
Proof. unfold elapse. destruct (delays w); reflexivity. Qed.

Lemma users_elapse w : users (elapse w) = users w.
Proof. unfold elapse. destruct (delays w); reflexivity. Qed.

Lemma services_elapse w : services (elapse w) = services w.
Proof. unfold elapse. destruct (delays w); reflexivity. Qed.

Lemma entropy_elapse w : entropy (elapse w) = entropy w.
Proof. unfold elapse. destruct (delays w); reflexivity. Qed.

Lemma drawn_elapse w : drawn (elapse w) = drawn w.
Proof. unfold elapse. destruct (delays w); reflexivity. Qed.

Lemma service_at_elapse w n : service_at (elapse w) n = service_at w n.
Proof. unfold service_at. now rewrite services_elapse. Qed.

Lemma redis_arrive w : redis (arrive w) = redis w.
Proof.
  unfold arrive, next_service. rewrite <- (redis_elapse w).
  destruct (services (elapse w)); reflexivity.
Qed.

Lemma users_arrive w : users (arrive w) = users w.
Proof.
  unfold arrive, next_service. rewrite <- (users_elapse w).
  destruct (services (elapse w)); reflexivity.
Qed.

Lemma clock_arrive w : clock (arrive w) = instant w 1.
Proof.
  unfold arrive, next_service. rewrite <- clock_elapse.
  destruct (services (elapse w)); reflexivity.
Qed.

Lemma entropy_arrive w : entropy (arrive w) = entropy w.
Proof.
  unfold arrive, next_service. rewrite <- (entropy_elapse w).
  destruct (services (elapse w)); reflexivity.
Qed.

Lemma drawn_arrive w : drawn (arrive w) = drawn w.
Proof.
  unfold arrive, next_service. rewrite <- (drawn_elapse w).
  destruct (services (elapse w)); reflexivity.
Qed.

Lemma instant_arrive w n : instant (arrive w) n = instant w (S n).
Proof.
  rewrite <- instant_elapse. unfold arrive, next_service, instant.
  destruct (services (elapse w)); reflexivity.
Qed.

Lemma service_at_arrive w n : service_at (arrive w) n = service_at w (S n).
Proof.
  unfold arrive, next_service, service_at. rewrite <- (services_elapse w).
  destruct (services (elapse w)) as [|s ss] eqn:E; simpl; rewrite ?E; [now destruct n|reflexivity].
Qed.

Lemma request_unfold {A} (reply : World -> result A) (effect : World -> World) w :
  request reply effect w =
  match service_at w 0 with
  | Served => (reply (arrive w), effect (arrive w))
  | Refused => (Err ErrUnavailable, arrive w)
  | Lost => (Err ErrUnavailable, effect (arrive w))
  end.
Proof.
  unfold request, arrive, service_at, next_service. rewrite <- (services_elapse w).
  destruct (services (elapse w)) as [|[] ss]; reflexivity.
Qed.

Lemma refresh_key_not_blacklist_key a b : "refresh:" +:+ a <> "blacklist:" +:+ b.
Proof. discriminate. Qed.

Lemma time_Now_unfold w : time_Now w = (Ok (instant w 1), elapse w).
Proof. unfold time_Now. now rewrite clock_elapse. Qed.

Lemma time_Until_unfold t w : time_Until t w = (Ok (t - instant w 1), elapse w).
Proof. unfold time_Until, bind. now rewrite time_Now_unfold. Qed.

Lemma same_stores_refl w : same_stores w w.
Proof. now split. Qed.

Lemma same_stores_elapse w : same_stores w (elapse w).
Proof. split; [apply users_elapse|apply redis_elapse]. Qed.

Lemma same_stores_arrive w : same_stores w (arrive w).
Proof. split; [apply users_arrive|apply redis_arrive]. Qed.

Lemma same_stores_trans w1 w2 w3 :
  same_stores w1 w2 -> same_stores w2 w3 -> same_stores w1 w3.
Proof. intros [H1 H2] [H3 H4]. split; congruence. Qed.

(** ** The token codec *)

Section Codec.
Context (L : Library).

Lemma signed_by_functional key T c c' :
  signed_by L key T c -> signed_by L key T c' -> c = c'.
Proof.
  intros (t & Hd & _ & _ & Hc) (t' & Hd' & _ & _ & Hc'). congruence.
Qed.

Lemma in_force_dec t c : {in_force t c} + {~ in_force t c}.
Proof.
  unfold in_force.
  destruct (TokenClaims.ExpiresAt c) as [e|], (TokenClaims.NotBefore c) as [n|].
  - destruct (Z_lt_dec t (Time e)), (Z_le_dec (Time n) t);
      try (left; split; intros ? [= <-]; assumption);
      right; intros [H1 H2]; auto.
  - destruct (Z_lt_dec t (Time e));
      [left; split; [intros ? [= <-]; assumption | discriminate]
      |right; intros [H1 H2]; auto].
  - destruct (Z_le_dec (Time n) t);
      [left; split; [discriminate | intros ? [= <-]; assumption]
      |right; intros [H1 H2]; auto].
  - left; split; discriminate.
Qed.

Lemma Validate_in_force c w :
  in_force (instant w 1) c -> jwt.Validate c w = (Ok tt, elapse w).
Proof.
  intros [He Hn]. unfold jwt.Validate, bind. rewrite time_Now_unfold.
  destruct (TokenClaims.ExpiresAt c) as [e|].
  - specialize (He e eq_refl). apply Z.ltb_lt in He. rewrite He. simpl.
    destruct (TokenClaims.NotBefore c) as [n|]; [|reflexivity].
    specialize (Hn n eq_refl). apply Z.ltb_ge in Hn. now rewrite Hn.
  - simpl. destruct (TokenClaims.NotBefore c) as [n|]; [|reflexivity].
    specialize (Hn n eq_refl). apply Z.ltb_ge in Hn. now rewrite Hn.
Qed.

Lemma Validate_not_in_force c w :
  ~ in_force (instant w 1) c ->
  exists a b, jwt.Validate c w = (Err (ErrTokenInvalidClaims a b), elapse w).
Proof.
  intros Hnot. unfold jwt.Validate, bind. rewrite time_Now_unfold.
  match goal with |- context [if ?b then _ else _] => destruct b eqn:Hb end.
  - eauto.
  - exfalso. apply Hnot. apply orb_false_elim in Hb as [H1 H2]. split.
    + intros e He. rewrite He in H1. apply negb_false_iff in H1. now apply Z.ltb_lt.
    + intros n Hn. rewrite Hn in H2. now apply Z.ltb_ge.
Qed.

(** What [ValidateToken] returns, by cases on the token and the instant at
    which the validator reads the clock. *)
Lemma ValidateToken_cases j T w :
  (exists c,
      signed_by L (secret j) T c /\ in_force (instant w 1) c /\
      utils.ValidateToken L j T w = (Ok c, elapse w)) \/
  (exists e w',
      (forall c, ~ (signed_by L (secret j) T c /\ in_force (instant w 1) c)) /\
      utils.ValidateToken L j T w = (Err e, w') /\ (w' = w \/ w' = elapse w)).
Proof.
  unfold utils.ValidateToken, jwt.ParseWithClaims, utils.keyFunc, bind, or_return, call,
    fail, ret.
  destruct (Decode L T) as [e|token] eqn:Hd.
  { right. do 2 eexists. split; [|split; [reflexivity|now left]].
    intros c [(t & Ht & _) _]. congruence. }
  destruct (is_SigningMethodHMAC (Token.Method token)) eqn:Hm.
  2:{ right. do 2 eexists. split; [|split; [reflexivity|now left]].
      intros c [(t & Ht & Hm' & _) _]. congruence. }
  destruct (Verify L _ _ _ _) eqn:Hv.
  2:{ right. do 2 eexists. split; [|split; [reflexivity|now left]].
      intros c [(t & Ht & _ & Hv' & _) _]. congruence. }
  destruct (in_force_dec (instant w 1) (Token.Claims token)) as [Hf|Hf].
  - left. exists (Token.Claims token). rewrite (Validate_in_force _ _ Hf). simpl.
    split; [|split; [assumption|reflexivity]].
    exists token. auto.
  - right. destruct (Validate_not_in_force _ _ Hf) as (a & b & ->).
    do 2 eexists. split; [|split; [reflexivity|now right]].
    intros c [(t & Ht & _ & _ & Hc) Hin]. apply Hf. congruence.
Qed.

Lemma ValidateAccessToken_cases j T w :
  (exists c,
      verifies L j (instant w 1) "access" T c /\
      utils.ValidateAccessToken L j T w = (Ok c, elapse w)) \/
  (exists e w',
      (forall c, ~ verifies L j (instant w 1) "access" T c) /\
      utils.ValidateAccessToken L j T w = (Err e, w') /\ (w' = w \/ w' = elapse w)).
Proof.
  unfold utils.ValidateAccessToken, bind, verifies.
  destruct (ValidateToken_cases j T w) as [(c & Hs & Hf & ->)|(e & w' & Hn & -> & Hw)].
  - destruct (String.eqb (TokenClaims.Type_ c) "access") eqn:Ht; simpl.
    + apply String.eqb_eq in Ht. left. exists c. auto.
    + apply String.eqb_neq in Ht. right. do 2 eexists.
      split; [|split; [reflexivity|now right]].
      intros c' (Hs' & _ & Ht'). rewrite (signed_by_functional _ _ _ _ Hs Hs') in Ht.
      contradiction.
  - right. exists e, w'. split; [|split; [reflexivity|assumption]].
    intros c (Hs & Hf & _). apply (Hn c). auto.
Qed.

Lemma ValidateRefreshToken_cases j T w :
  (exists c,
      verifies L j (instant w 1) "refresh" T c /\
      utils.ValidateRefreshToken L j T w = (Ok c, elapse w)) \/
  (exists e w',
      (forall c, ~ verifies L j (instant w 1) "refresh" T c) /\
      utils.ValidateRefreshToken L j T w = (Err e, w') /\ (w' = w \/ w' = elapse w)).
Proof.
  unfold utils.ValidateRefreshToken, bind, verifies.
  destruct (ValidateToken_cases j T w) as [(c & Hs & Hf & ->)|(e & w' & Hn & -> & Hw)].
  - destruct (String.eqb (TokenClaims.Type_ c) "refresh") eqn:Ht; simpl.
    + apply String.eqb_eq in Ht. left. exists c. auto.
    + apply String.eqb_neq in Ht. right. do 2 eexists.
      split; [|split; [reflexivity|now right]].
      intros c' (Hs' & _ & Ht'). rewrite (signed_by_functional _ _ _ _ Hs Hs') in Ht.
      contradiction.
  - right. exists e, w'. split; [|split; [reflexivity|assumption]].
    intros c (Hs & Hf & _). apply (Hn c). auto.
Qed.

Lemma verifies_functional j t t' kind kind' T c c' :
  verifies L j t kind T c -> verifies L j t' kind' T c' -> c = c'.
Proof. intros [H _] [H' _]. eapply signed_by_functional; eassumption. Qed.
End Codec.

(** ** Redis requests *)

Lemma Exists_unfold key w :
  redisClient.Exists key w =
  match service_at w 0 with
  | Served =>
      (Ok (match lookup_at (redis w) (instant w 1) key with Some _ => 1 | None => 0 end),
       arrive w)
  | _ => (Err ErrUnavailable, arrive w)
  end.
Proof.
  unfold redisClient.Exists. rewrite request_unfold, redis_arrive, clock_arrive.
  now destruct (service_at w 0).
Qed.

Lemma Get_unfold key w :
  redisClient.Get key w =
  match service_at w 0 with
  | Served =>
      (match lookup_at (redis w) (instant w 1) key with Some v => Ok v | None => Err redis_Nil end,
       arrive w)
  | _ => (Err ErrUnavailable, arrive w)
  end.
Proof.
  unfold redisClient.Get. rewrite request_unfold, redis_arrive, clock_arrive.
  now destruct (service_at w 0).
Qed.

Lemma Set_unfold key val expiration w :
  redisClient.Set_ key val expiration w =
  match service_at w 0 with
  | Served => (Ok tt, written w key val expiration)
  | Refused => (Err ErrUnavailable, arrive w)
  | Lost => (Err ErrUnavailable, written w key val expiration)
  end.
Proof.
  unfold redisClient.Set_, written. rewrite request_unfold, redis_arrive, clock_arrive.
  now destruct (service_at w 0).
Qed.

Lemma Del_unfold key w :
  redisClient.Del key w =
  match service_at w 0 with
  | Served => (Ok tt, deleted w key)
  | Refused => (Err ErrUnavailable, arrive w)
  | Lost => (Err ErrUnavailable, deleted w key)
  end.
Proof.
  unfold redisClient.Del, deleted. rewrite request_unfold, redis_arrive.
  now destruct (service_at w 0).
Qed.

Lemma users_written w key val expiration : users (written w key val expiration) = users w.
Proof. unfold written. change (users (with_redis ?x _)) with (users x). apply users_arrive. Qed.

Lemma entropy_written w key val expiration :
  entropy (written w key val expiration) = entropy w.
Proof.
  unfold written. change (entropy (with_redis ?x _)) with (entropy x). apply entropy_arrive.
Qed.

Lemma drawn_written w key val expiration : drawn (written w key val expiration) = drawn w.
Proof. unfold written. change (drawn (with_redis ?x _)) with (drawn x). apply drawn_arrive. Qed.

Lemma redis_written w key val expiration :
  redis (written w key val expiration) =
  <[key := mkEntry val (new_deadline (redis w) (instant w 1) key expiration)]> (redis w).
Proof. reflexivity. Qed.

Lemma service_at_written w key val expiration n :
  service_at (written w key val expiration) n = service_at w (S n).
Proof. unfold written. apply service_at_arrive. Qed.

Lemma users_deleted w key : users (deleted w key) = users w.
Proof. unfold deleted. change (users (with_redis ?x _)) with (users x). apply users_arrive. Qed.

Lemma redis_deleted w key : redis (deleted w key) = delete key (redis w).
Proof. reflexivity. Qed.

(** ** Issuance *)

Section Issuance.
Context (L : Library).

Lemma same_stores_after_claims w : same_stores w (after_claims w).
Proof.
  unfold after_claims, same_stores. simpl.
  now rewrite !users_elapse, !redis_elapse.
Qed.

Lemma users_after_claims w : users (after_claims w) = users w.
Proof. apply same_stores_after_claims. Qed.

Lemma services_after_claims w : services (after_claims w) = services w.
Proof. unfold after_claims. simpl. now rewrite !services_elapse. Qed.

Lemma service_at_after_claims w n : service_at (after_claims w) n = service_at w n.
Proof. unfold service_at. now rewrite services_after_claims. Qed.

Lemma instant_after_claims w n : instant (after_claims w) n = instant w (S (S n)).
Proof. rewrite <- !instant_elapse. reflexivity. Qed.

Lemma entropy_after_claims w : entropy (after_claims w) = entropy w.
Proof. unfold after_claims. simpl. now rewrite !entropy_elapse. Qed.

Lemma drawn_after_claims w : drawn (after_claims w) = S (drawn w).
Proof. unfold after_claims. simpl. now rewrite !drawn_elapse. Qed.

Lemma GenerateTokenPair_unfold j userID email w :
  utils.GenerateTokenPair L j userID email w =
  match SignedString L HS256 (accessClaims_of j userID email w) (secret j) with
  | inl e => (Err (Wrapf "failed to sign access token" e), after_claims w)
  | inr accessToken =>
      match SignedString L HS256 (refreshClaims_of j userID email w) (secret j) with
      | inl e => (Err (Wrapf "failed to sign refresh token" e), after_claims (after_claims w))
      | inr refreshToken => (Ok (accessToken, refreshToken), after_claims (after_claims w))
      end
  end.
Proof.
  unfold utils.GenerateTokenPair, bind, or_return, call, fail, ret, random_string,
    accessClaims_of, refreshClaims_of.
  rewrite !time_Now_unfold. rewrite instant_elapse.
  change (mkWorld (users (elapse (elapse w))) _ _ _ _ _ _) with (after_claims w).
  rewrite !entropy_elapse, !drawn_elapse.
  destruct (SignedString L HS256 _ (secret j)) as [e|a]; [reflexivity|].
  rewrite !time_Now_unfold. rewrite instant_elapse.
  change (mkWorld (users (elapse (elapse (after_claims w)))) _ _ _ _ _ _)
    with (after_claims (after_claims w)).
  rewrite !entropy_elapse, !drawn_elapse, entropy_after_claims, drawn_after_claims.
  destruct (SignedString L HS256 _ (secret j)) as [e|r]; reflexivity.
Qed.
End Issuance.

(** ** The tail shared by Register, Login and Refresh *)

Section Issue.
Context (L : Library).

Lemma issue_cases {R} s userID email f g (k : string * string -> R) w r w' :
  issue L s userID email f g k w = (r, w') ->
  issue_run L s userID email f g k w r w'.
Proof.
  unfold issue, bind, or_return, ret. rewrite GenerateTokenPair_unfold.
  destruct (SignedString L HS256 (accessClaims_of _ _ _ _) _) as [e|a] eqn:Ha.
  { intros [= <- <-]. apply issue_unsigned. apply same_stores_after_claims. }
  destruct (SignedString L HS256 (refreshClaims_of _ _ _ _) _) as [e|rt] eqn:Hr.
  { intros [= <- <-]. apply issue_unsigned.
    eapply same_stores_trans; apply same_stores_after_claims. }
  rewrite Set_unfold, !service_at_after_claims.
  destruct (service_at w 0) eqn:Hs; intros [= <- <-].
  - now apply issue_done.
  - now apply (issue_refused L _ _ _ _ _ _ _ rt).
  - now apply (issue_lost L _ _ _ _ _ _ _ rt).
Qed.
End Issue.

(** ** Refresh *)

Section Refresh.
Context (L : Library).

Lemma Refresh_cases s req w r w' :
  auth.Refresh L s req w = (r, w') ->
  Refresh_run L s (RefreshRequest.RefreshToken req) w r w'.
Proof.
  set (T := RefreshRequest.RefreshToken req). intros H.
  unfold auth.Refresh in H. fold T in H.
  unfold bind at 1 in H. unfold or_return at 1 in H.
  rewrite Exists_unfold in H.
  destruct (service_at w 0) eqn:Hs0;
    [|injection H as <- <-; apply Refresh_unavailable; rewrite Hs0; discriminate..].
  destruct (lookup_at (redis w) (instant w 1) ("blacklist:" +:+ T)) as [v|] eqn:Hbl.
  { injection H as <- <-. apply Refresh_blacklisted; [assumption|].
    unfold revoked. now rewrite Hbl. }
  assert (Hnr : ~ revoked (redis w) (instant w 1) T)
    by (unfold revoked; rewrite Hbl; tauto).
  change (0 <? 0) with false in H. cbv iota in H.
  unfold bind at 1 in H. unfold or_return at 1 in H.
  destruct (ValidateRefreshToken_cases L (jwtManager s) T (arrive w))
    as [(c & Hv & Hrun)|(e & w1 & Hn & Hrun & Hw1)];
    rewrite Hrun in H; rewrite instant_arrive in *.
  2:{ injection H as <- <-. apply Refresh_invalid; try assumption.
      destruct Hw1 as [->| ->]; [apply same_stores_arrive|].
      eapply same_stores_trans; [apply same_stores_arrive|apply same_stores_elapse]. }
  unfold bind at 1 in H. unfold or_return at 1 in H.
  rewrite Get_unfold in H.
  rewrite service_at_elapse, service_at_arrive, redis_elapse, redis_arrive,
    instant_elapse, instant_arrive in H.
  fold (checked w) in H.
  destruct (service_at w 1) eqn:Hs1;
    [|injection H as <- <-; apply (Refresh_not_found L _ _ _ c); auto; left; rewrite Hs1; discriminate..].
  fold (activeRefresh (redis w) (instant w 3) (TokenClaims.UserID c)) in H.
  destruct (activeRefresh (redis w) (instant w 3) (TokenClaims.UserID c))
    as [stored|] eqn:Hact.
  2:{ injection H as <- <-. apply (Refresh_not_found L _ _ _ c); auto. }
  destruct (String.eqb stored T) eqn:Heq.
  - apply String.eqb_eq in Heq. subst stored.
    change (issue L s (TokenClaims.UserID c) (TokenClaims.Email c)
              (Wrapf "failed to generate new tokens")
              (Wrapf "failed to save new refresh token")
              (RefreshResponse_of s) (checked w) = (r, w')) in H.
    apply (Refresh_rotate L _ _ _ c); auto using issue_cases.
  - apply String.eqb_neq in Heq. injection H as <- <-.
    now apply (Refresh_mismatch L _ _ _ c stored).
Qed.
End Refresh.

(** ** Logout *)

Section Logout.
Context (L : Library).

Lemma service_at_measured w n : service_at (measured w) n = service_at w n.
Proof. unfold measured. now rewrite !service_at_elapse. Qed.

Lemma Logout_cases s req w r w' :
  auth.Logout L s req w = (r, w') ->
  Logout_run L s (LogoutRequest.RefreshToken req) w r w'.
Proof.
  set (T := LogoutRequest.RefreshToken req). intros H.
  unfold auth.Logout in H. fold T in H. unfold on_error in H.
  destruct (ValidateRefreshToken_cases L (jwtManager s) T w)
    as [(c & Hv & Hrun)|(e & w1 & Hn & Hrun & Hw1)];
    rewrite Hrun in H.
  2:{ injection H as <- <-. apply Logout_invalid; [assumption|].
      destruct Hw1 as [->| ->]; [apply same_stores_refl|apply same_stores_elapse]. }
  unfold auth.ExpiresAt_Time, bind, or_return, ret, panic in H.
  destruct (TokenClaims.ExpiresAt c) as [e|] eqn:He.
  2:{ injection H as <- <-. now apply (Logout_nil_expiry L _ _ _ c). }
  rewrite time_Until_unfold, instant_elapse in H. fold (measured w) in H.
  destruct (0 <? Time e - instant w 2) eqn:Hrem.
  - apply Z.ltb_lt in Hrem.
    rewrite Set_unfold, service_at_measured in H.
    destruct (service_at w 0) eqn:Hs0.
    + rewrite Del_unfold, service_at_written, service_at_measured in H.
      change (written (measured w) _ _ _) with (denied T e w) in H.
      destruct (service_at w 1) eqn:Hs1; injection H as <- <-.
      * apply (Logout_revoked L _ _ _ c e); auto; lia.
      * apply (Logout_unavailable L _ _ _ c); auto; right; rewrite Hs1; discriminate.
      * apply (Logout_unavailable L _ _ _ c); auto; right; rewrite Hs1; discriminate.
    + injection H as <- <-.
      apply (Logout_unavailable L _ _ _ c); auto; left; rewrite Hs0; discriminate.
    + injection H as <- <-.
      apply (Logout_unavailable L _ _ _ c); auto; left; rewrite Hs0; discriminate.
  - apply Z.ltb_ge in Hrem.
    rewrite Del_unfold, service_at_measured in H.
    destruct (service_at w 0) eqn:Hs0; injection H as <- <-;
      [apply (Logout_lapsed L _ _ _ c e); auto; lia
      |apply (Logout_unavailable L _ _ _ c); auto; left; rewrite Hs0; discriminate..].
Qed.
End Logout.

(** ** ValidateToken *)

Section ValidateToken.
Context (L : Library).

Lemma ValidateToken_cases' s req w r w' :
  auth.ValidateToken L s req w = (r, w') ->
  ValidateToken_run L s (ValidateTokenRequest.Token req) w r w'.
Proof.
  set (T := ValidateTokenRequest.Token req). intros H.
  unfold auth.ValidateToken in H. fold T in H. unfold on_error in H.
  destruct (ValidateAccessToken_cases L (jwtManager s) T w)
    as [(c & Hv & Hrun)|(e & w1 & Hn & Hrun & Hw1)];
    rewrite Hrun in H.
  2:{ injection H as <- <-. now apply Validate_invalid. }
  unfold auth.ExpiresAt_Time, bind, ret, panic in H.
  destruct (TokenClaims.ExpiresAt c) as [e|] eqn:He.
  2:{ injection H as <- <-. now apply (Validate_nil_expiry L _ _ _ c). }
  rewrite time_Until_unfold, instant_elapse in H. injection H as <- <-.
  now apply Validate_valid.
Qed.
End ValidateToken.

(** ** Login *)

Section Login.
Context (L : Library).

Lemma GetByEmail_unfold email w :
  UserRepository.GetByEmail email w =
  match service_at w 0 with
  | Served =>
      (match principal w email with Some u => Ok u | None => Err ErrNoRows end, arrive w)
  | _ => (Err ErrUnavailable, arrive w)
  end.
Proof.
  unfold UserRepository.GetByEmail, principal. rewrite request_unfold, users_arrive.
  now destruct (service_at w 0).
Qed.

Lemma Login_cases s req w r w' :
  auth.Login L s req w = (r, w') -> Login_run L s req w r w'.
Proof.
  intros H. unfold auth.Login in H.
  unfold bind at 1 in H. unfold or_return at 1 in H.
  rewrite GetByEmail_unfold in H.
  destruct (service_at w 0) eqn:Hs0;
    [|injection H as <- <-; apply Login_not_found; left; rewrite Hs0; discriminate..].
  destruct (principal w (LoginRequest.Email req)) as [user|] eqn:Hu.
  2:{ injection H as <- <-. apply Login_not_found. now right. }
  destruct (models.CheckPassword L user (LoginRequest.Password req)) eqn:Hp.
  - change (issue L s (User.ID user) (User.Email user)
              (Wrapf "failed to generate tokens") (Wrapf "failed to store refresh token")
              (IssueResponse_of s user) (arrive w) = (r, w')) in H.
    apply (Login_issue L _ _ _ user); auto using issue_cases.
  - injection H as <- <-. now apply (Login_wrong_password L _ _ _ user).
Qed.
End Login.

(** ** Register *)

Section Register.
Context (L : Library).

Lemma ExistsByEmail_unfold email w :
  UserRepository.ExistsByEmail email w =
  match service_at w 0 with
  | Served => (Ok (existsb (UserRepository.has_email email) (users w)), arrive w)
  | _ => (Err ErrUnavailable, arrive w)
  end.
Proof.
  unfold UserRepository.ExistsByEmail. rewrite request_unfold, users_arrive.
  now destruct (service_at w 0).
Qed.

(** Registering an email that the credential store holds fails with
    [AlreadyExists], whenever the store answers. *)
Lemma Register_taken s req w :
  service_at w 0 = Served ->
  existsb (UserRepository.has_email (RegisterRequest.Email req)) (users w) = true ->
  auth.Register L s req w =
  (Err (Errorf "user with this email already exists"), arrive w).
Proof.
  intros Hs He. unfold auth.Register, bind, or_return.
  now rewrite ExistsByEmail_unfold, Hs, He.
Qed.

Lemma issue_users {R} s userID email f g (k : string * string -> R) w r w' :
  issue_run L s userID email f g k w r w' -> users w' = users w.
Proof.
  intros [e w1 [Hu _]|a rt _ _ _|rt _ _|rt _ _]; try assumption;
    unfold session_written;
    now rewrite ?users_written, ?users_arrive, !users_after_claims.
Qed.

Lemma NewUser_outcome email password name w r w' :
  models.NewUser L email password name w = (r, w') ->
  users w' = users w /\
  r <> Panic /\
  forall user, r = Ok user -> User.Email user = email.
Proof.
  unfold models.NewUser, bind, call, random_string, fail, ret.
  destruct (GenerateFromPassword L _ password) as [e|h].
  - intros [= <- <-]. simpl. repeat split; discriminate.
  - rewrite !time_Now_unfold. intros [= <- <-].
    rewrite !users_elapse. simpl. repeat split; try discriminate.
    now intros user [= <-].
Qed.

Lemma Create_served user w w' :
  UserRepository.Create user w = (Ok tt, w') ->
  users w' = (users w ++ [user])%list.
Proof.
  unfold UserRepository.Create. rewrite request_unfold, users_arrive.
  destruct (service_at w 0); try discriminate.
  destruct (existsb _ (users w)); [discriminate|].
  intros [= <-]. reflexivity.
Qed.

(** A Register that fails while generating or storing the tokens has
    already added the principal to the credential store. *)
Lemma Register_persists s req w e w' :
  auth.Register L s req w = (Err e, w') ->
  (exists cause, e = Wrapf "failed to generate tokens" cause) \/
  (exists cause, e = Wrapf "failed to store refresh token" cause) ->
  exists user,
    User.Email user = RegisterRequest.Email req /\ users w' = (users w ++ [user])%list.
Proof.
  intros H Hkind. unfold auth.Register in H.
  unfold bind at 1 in H. unfold or_return at 1 in H.
  rewrite ExistsByEmail_unfold in H.
  destruct (service_at w 0) eqn:Hs0;
    [|injection H as <- <-; destruct Hkind as [[? [=]]|[? [=]]]..].
  destruct (existsb _ (users w)) eqn:Hex.
  { injection H as <- <-. destruct Hkind as [[? [=]]|[? [=]]]. }
  unfold bind at 1 in H. unfold or_return at 1 in H.
  destruct (models.NewUser L _ _ _ (arrive w)) as [[user|e1|] w1] eqn:Hnew;
    [|injection H as <- <-; destruct Hkind as [[? [=]]|[? [=]]]|discriminate].
  apply NewUser_outcome in Hnew as (Hu1 & _ & Hemail). specialize (Hemail user eq_refl).
  unfold bind at 1 in H. unfold or_return at 1 in H.
  destruct (UserRepository.Create user w1) as [[[]|e2|] w2] eqn:Hcreate;
    [|injection H as <- <-; destruct Hkind as [[? [=]]|[? [=]]]|discriminate].
  apply Create_served in Hcreate.
  change (issue L s (User.ID user) (User.Email user)
            (Wrapf "failed to generate tokens") (Wrapf "failed to store refresh token")
            (IssueResponse_of s user) w2 = (Err e, w')) in H.
  apply issue_cases, issue_users in H.
  exists user. split; [assumption|]. rewrite H, Hcreate, Hu1. now rewrite users_arrive.
Qed.
End Register.

(** ** What issuance and verification have to agree on *)

Lemma round_trip_signed_by L key c T :
  round_trip L -> SignedString L HS256 c key = inr T -> signed_by L key T c.
Proof.
  intros Hrt Hs. destruct (Hrt _ _ _ _ Hs) as (token & Hd & Hm & Hc & Hv).
  exists token. rewrite Hm. auto.
Qed.

(** ** The fake satisfies it *)

Module FakeFacts.
Import Fake.

Lemma get_put_nat n rest : get_nat (put_nat n rest) = Some (n, rest).
Proof. induction n as [|n IH]; simpl; [reflexivity|now rewrite IH]. Qed.

Lemma take_app s rest : take (String.length s) (s +:+ rest) = Some (s, rest).
Proof. induction s as [|a s IH]; simpl; [reflexivity|now rewrite IH]. Qed.

Lemma get_put_str s rest : get_str (put_str s rest) = Some (s, rest).
Proof. unfold get_str, put_str. now rewrite get_put_nat, take_app. Qed.

Lemma get_put_Z z rest : get_Z (put_Z z rest) = Some (z, rest).
Proof.
  unfold get_Z, put_Z. destruct (z <? 0) eqn:Hz; rewrite get_put_nat; simpl.
  - apply Z.ltb_lt in Hz. do 2 f_equal. lia.
  - apply Z.ltb_ge in Hz. do 2 f_equal. lia.
Qed.

Lemma get_put_date d rest : get_date (put_date d rest) = Some (d, rest).
Proof. destruct d as [z|]; simpl; [now rewrite get_put_Z|reflexivity]. Qed.

Lemma get_put_claims c rest : get_claims (put_claims c rest) = Some (c, rest).
Proof.
  unfold get_claims, put_claims.
  rewrite !get_put_str. simpl. rewrite !get_put_str. simpl.
  rewrite !get_put_str. simpl. rewrite !get_put_date. simpl.
  rewrite !get_put_date. simpl. rewrite !get_put_date. simpl.
  rewrite !get_put_str. simpl. now destruct c.
Qed.

Lemma GetSigningMethod_Alg m : GetSigningMethod (Alg m) = Some m.
Proof. now destruct m. Qed.

Lemma library_round_trip : round_trip library.
Proof.
  intros m c key T. simpl. unfold SignedString.
  destruct (is_SigningMethodHMAC m); [|discriminate].
  intros [= <-]. unfold Decode.
  rewrite get_put_str, get_put_claims, GetSigningMethod_Alg.
  eexists. split; [reflexivity|]. simpl. repeat split.
  unfold Verify. apply String.eqb_refl.
Qed.

Lemma entropy_injective m n : entropy world m = entropy world n -> m = n.
Proof.
  simpl. intros H.
  assert (Hg : get_nat (put_nat m "") = get_nat (put_nat n "")) by now rewrite H.
  rewrite !get_put_nat in Hg. congruence.
Qed.
End FakeFacts.

(** ** Frame lemmas: what the handlers leave alone *)

Section Frames.
Context (L : Library).

Lemma redis_after_claims w : redis (after_claims w) = redis w.
Proof. apply same_stores_after_claims. Qed.

Lemma redis_checked w : redis (checked w) = redis w.
Proof. unfold checked. now rewrite redis_arrive, redis_elapse, redis_arrive. Qed.

Lemma instant_checked w n : instant (checked w) n = instant w (S (S (S n))).
Proof. unfold checked. now rewrite instant_arrive, instant_elapse, instant_arrive. Qed.

Lemma entropy_checked w : entropy (checked w) = entropy w.
Proof. unfold checked. now rewrite entropy_arrive, entropy_elapse, entropy_arrive. Qed.

Lemma drawn_checked w : drawn (checked w) = drawn w.
Proof. unfold checked. now rewrite drawn_arrive, drawn_elapse, drawn_arrive. Qed.

Lemma redis_session_written s userID rt w :
  exists d,
    redis (session_written s userID rt w) = <["refresh:" +:+ userID := mkEntry rt d]> (redis w).
Proof.
  unfold session_written. rewrite redis_written, !redis_after_claims. eauto.
Qed.

(** Issuance touches no key of the keyspace but the principal's session. *)
Lemma issue_redis {R} s userID email f g (k : string * string -> R) w r w' key :
  issue_run L s userID email f g k w r w' ->
  key <> "refresh:" +:+ userID ->
  redis w' !! key = redis w !! key.
Proof.
  intros [e w1 [_ Hr]|a rt _ _ _|rt _ _|rt _ _] Hkey.
  - now rewrite Hr.
  - destruct (redis_session_written s userID rt w) as [d ->].
    now rewrite lookup_insert_ne.
  - now rewrite redis_arrive, !redis_after_claims.
  - destruct (redis_session_written s userID rt w) as [d ->].
    now rewrite lookup_insert_ne.
Qed.

(** A successful issuance leaves the new refresh token as the session. *)
Lemma issue_Ok {R} s userID email f g (k : string * string -> R) w x w' :
  issue_run L s userID email f g k w (Ok x) w' ->
  exists a rt d,
    x = k (a, rt) /\
    SignedString L HS256 (refreshClaims_of (jwtManager s) userID email w)
      (secret (jwtManager s)) = inr rt /\
    service_at w 0 = Served /\
    w' = session_written s userID rt w /\
    redis w' = <["refresh:" +:+ userID := mkEntry rt d]> (redis w).
Proof.
  intros H. inversion H as [| a rt Ha Hrt Hs | |]; subst.
  destruct (redis_session_written s userID rt w) as [d Hd].
  exists a, rt, d. auto.
Qed.

Lemma Refresh_redis s req w r w' key :
  auth.Refresh L s req w = (r, w') ->
  (forall principal, key <> "refresh:" +:+ principal) ->
  redis w' !! key = redis w !! key.
Proof.
  intros H Hkey. apply Refresh_cases in H.
  destruct H as [| |e w1 _ _ _ [_ Hr]| | |c r w1 _ _ _ _ _ Hi];
    rewrite ?redis_arrive, ?redis_checked; try reflexivity.
  - now rewrite Hr.
  - rewrite (issue_redis _ _ _ _ _ _ _ _ _ key Hi (Hkey _)). now rewrite redis_checked.
Qed.

Lemma Login_redis s req w r w' key :
  auth.Login L s req w = (r, w') ->
  (forall principal, key <> "refresh:" +:+ principal) ->
  redis w' !! key = redis w !! key.
Proof.
  intros H Hkey. apply Login_cases in H.
  destruct H as [| |user r w1 _ _ _ Hi]; rewrite ?redis_arrive; try reflexivity.
  rewrite (issue_redis _ _ _ _ _ _ _ _ _ key Hi (Hkey _)). now rewrite redis_arrive.
Qed.

Lemma ValidateToken_redis s req w r w' :
  auth.ValidateToken L s req w = (r, w') -> redis w' = redis w.
Proof.
  intros H. apply ValidateToken_cases' in H.
  destruct H as [w1 _ [->| ->]| |]; unfold measured; now rewrite ?redis_elapse.
Qed.

Lemma NewUser_redis email password name w r w' :
  models.NewUser L email password name w = (r, w') -> redis w' = redis w.
Proof.
  unfold models.NewUser, bind, call, random_string, fail, ret.
  destruct (GenerateFromPassword L _ password) as [e|h].
  - now intros [= <- <-].
  - rewrite !time_Now_unfold. intros [= <- <-]. now rewrite !redis_elapse.
Qed.

Lemma Create_redis user w r w' :
  UserRepository.Create user w = (r, w') -> redis w' = redis w.
Proof.
  unfold UserRepository.Create. rewrite request_unfold.
  destruct (service_at w 0), (existsb (UserRepository.clashes user) (users (arrive w)));
    intros [= <- <-]; apply redis_arrive.
Qed.

Lemma Register_redis s req w r w' key :
  auth.Register L s req w = (r, w') ->
  (forall principal, key <> "refresh:" +:+ principal) ->
  redis w' !! key = redis w !! key.
Proof.
  intros H Hkey. unfold auth.Register in H.
  unfold bind at 1 in H. unfold or_return at 1 in H.
  rewrite ExistsByEmail_unfold in H.
  destruct (service_at w 0) eqn:Hs0;
    [|injection H as <- <-; now rewrite redis_arrive..].
  destruct (existsb _ (users w)) eqn:Hex.
  { injection H as <- <-. now rewrite redis_arrive. }
  unfold bind at 1 in H. unfold or_return at 1 in H.
  destruct (models.NewUser L _ _ _ (arrive w)) as [[user|e1|] w1] eqn:Hnew;
    apply NewUser_redis in Hnew; rewrite redis_arrive in Hnew;
    [|injection H as <- <-; now rewrite Hnew..].
  unfold bind at 1 in H. unfold or_return at 1 in H.
  destruct (UserRepository.Create user w1) as [[[]|e2|] w2] eqn:Hcreate;
    apply Create_redis in Hcreate;
    [|injection H as <- <-; congruence..].
  change (issue L s (User.ID user) (User.Email user)
            (Wrapf "failed to generate tokens") (Wrapf "failed to store refresh token")
            (IssueResponse_of s user) w2 = (r, w')) in H.
  apply issue_cases in H.
  rewrite (issue_redis _ _ _ _ _ _ _ _ _ key H (Hkey _)). congruence.
Qed.
End Frames.

(** ** The claims *)

Section Claims.
Context (L : Library).

Lemma lookup_at_insert r t key val d :
  lookup_at (<[key := mkEntry val d]> r) t key = Some val \/
  lookup_at (<[key := mkEntry val d]> r) t key = None.
Proof.
  unfold lookup_at. rewrite lookup_insert_eq. simpl.
  destruct (alive t _); auto.
Qed.

Lemma entropy_session_written s userID rt w :
  entropy (session_written s userID rt w) = entropy w.
Proof.
  unfold session_written. now rewrite entropy_written, !entropy_after_claims.
Qed.

Lemma drawn_session_written s userID rt w :
  drawn (session_written s userID rt w) = S (S (drawn w)).
Proof.
  unfold session_written. now rewrite drawn_written, !drawn_after_claims.
Qed.

(** What a successful Login leaves behind. *)
Lemma Login_Ok s req w resp w' :
  round_trip L ->
  auth.Login L s req w = (Ok resp, w') ->
  exists c d,
    signed_by L (secret (jwtManager s)) (IssueResponse.RefreshToken resp) c /\
    TokenClaims.UserID c = IssueResponse.UserId resp /\
    TokenClaims.Type_ c = "refresh" /\
    TokenClaims.ID c = entropy w (S (drawn w)) /\
    redis w' = <["refresh:" +:+ IssueResponse.UserId resp
                 := mkEntry (IssueResponse.RefreshToken resp) d]> (redis w) /\
    entropy w' = entropy w /\
    drawn w' = S (S (drawn w)).
Proof.
  intros Hrt H. apply Login_cases in H.
  inversion H as [| |u ? ? _ _ _ Hi]; subst.
  apply issue_Ok in Hi as (a & rt & d & -> & Hsig & _ & -> & Hr).
  apply round_trip_signed_by in Hsig; [|assumption].
  exists (refreshClaims_of (jwtManager s) (User.ID u) (User.Email u) (arrive w)), d.
  split; [exact Hsig|]. split; [reflexivity|]. split; [reflexivity|].
  split; [cbn [refreshClaims_of TokenClaims.ID]; now rewrite entropy_arrive, drawn_arrive|].
  split; [rewrite Hr; now rewrite redis_arrive|].
  rewrite entropy_session_written, drawn_session_written, entropy_arrive, drawn_arrive.
  now split.
Qed.

(** C1, as amended.  A refresh token that Refresh accepts (a) verifies as
    a refresh token, (b) is not on the deny-list and (c) is the value
    stored as the session of the principal its claims name, each at the
    instant of the respective check (the second, first and third call to
    the outside); a refresh token that Logout accepts verifies as a
    refresh token, at the instant its validator reads the clock. *)
Theorem accepted_refresh_token (s : Server) (T : string) (w : World) :
  (forall resp w',
      auth.Refresh L s (RefreshRequest.mk T) w = (Ok resp, w') ->
      exists c,
        verifies L (jwtManager s) (instant w 2) "refresh" T c /\
        ~ revoked (redis w) (instant w 1) T /\
        activeRefresh (redis w) (instant w 3) (TokenClaims.UserID c) = Some T) /\
  (forall w',
      auth.Logout L s (LogoutRequest.mk T) w = (Ok (LogoutResponse.mk true), w') ->
      exists c, verifies L (jwtManager s) (instant w 1) "refresh" T c).
Proof.
  split.
  - intros resp w' H. apply Refresh_cases in H. simpl in H.
    inversion H as [| | | | |c r w1 _ Hnr Hv _ Hact _]; subst. eauto.
  - intros w' H. apply Logout_cases in H. simpl in H.
    inversion H; subst; eauto.
Qed.

(** C2, as amended.  A token whose header names a method that is not one
    of the HMAC methods is rejected with an error, whatever its payload,
    its signature and the time. *)
Theorem ValidateToken_rejects_other_families (j : JWTManager) (T : string)
    (token : Token.t) (w : World) :
  Decode L T = inr token ->
  is_SigningMethodHMAC (Token.Method token) = false ->
  exists e, utils.ValidateToken L j T w = (Err e, w).
Proof.
  intros Hd Hm.
  unfold utils.ValidateToken, jwt.ParseWithClaims, utils.keyFunc, bind, or_return, call,
    fail, ret.
  rewrite Hd, Hm. eauto.
Qed.

(** When the four checks pass, Refresh goes on as the issuing tail does
    from the world the checks leave. *)
Lemma Refresh_passed s req w c :
  service_at w 0 = Served ->
  ~ revoked (redis w) (instant w 1) (RefreshRequest.RefreshToken req) ->
  verifies L (jwtManager s) (instant w 2) "refresh" (RefreshRequest.RefreshToken req) c ->
  service_at w 1 = Served ->
  activeRefresh (redis w) (instant w 3) (TokenClaims.UserID c)
  = Some (RefreshRequest.RefreshToken req) ->
  auth.Refresh L s req w
  = issue L s (TokenClaims.UserID c) (TokenClaims.Email c)
      (Wrapf "failed to generate new tokens") (Wrapf "failed to save new refresh token")
      (RefreshResponse_of s) (checked w).
Proof.
  set (T := RefreshRequest.RefreshToken req). intros Hs0 Hnr Hv Hs1 Hact.
  unfold auth.Refresh. fold T.
  unfold bind at 1. unfold or_return at 1.
  rewrite Exists_unfold, Hs0.
  destruct (lookup_at (redis w) (instant w 1) ("blacklist:" +:+ T)) as [v|] eqn:Hbl.
  { exfalso. apply Hnr. unfold revoked. rewrite Hbl. discriminate. }
  change (0 <? 0) with false. cbv iota.
  unfold bind at 1. unfold or_return at 1.
  destruct (ValidateRefreshToken_cases L (jwtManager s) T (arrive w))
    as [(c' & Hv' & Hrun)|(e & w1 & Hn & _)]; rewrite instant_arrive in *.
  2:{ exfalso. eapply Hn. eassumption. }
  rewrite Hrun. rewrite (verifies_functional L _ _ _ _ _ _ _ _ Hv' Hv).
  unfold bind at 1. unfold or_return at 1.
  rewrite Get_unfold.
  rewrite service_at_elapse, service_at_arrive, redis_elapse, redis_arrive,
    instant_elapse, instant_arrive.
  fold (checked w). rewrite Hs1.
  fold (activeRefresh (redis w) (instant w 3) (TokenClaims.UserID c)). rewrite Hact.
  rewrite String.eqb_refl. reflexivity.
Qed.

(** A pair that GenerateTokenPair has made leaves both stores as they
    were. *)
Lemma GenerateTokenPair_stores j userID email w g w1 :
  utils.GenerateTokenPair L j userID email w = (g, w1) ->
  same_stores w w1 /\ service_at w1 0 = service_at w 0.
Proof.
  rewrite GenerateTokenPair_unfold.
  destruct (SignedString L HS256 (accessClaims_of _ _ _ _) _) as [e|a].
  { intros [= <- <-]. split; [apply same_stores_after_claims|].
    apply service_at_after_claims. }
  assert (Hst : same_stores w (after_claims (after_claims w)))
    by (eapply same_stores_trans; apply same_stores_after_claims).
  destruct (SignedString L HS256 (refreshClaims_of _ _ _ _) _) as [e|rt];
    intros [= <- <-]; (split; [exact Hst|now rewrite !service_at_after_claims]).
Qed.

(** C3.  Whenever the deny-list lookup is answered, Refresh decides in this
    order: a revoked token fails with Blacklisted; otherwise a token that
    does not verify as a refresh token fails with InvalidToken; otherwise
    a principal without a session fails with SessionNotFound; otherwise a
    stored value other than the presented token fails with
    SessionMismatch (when the session lookup is answered).  None of these
    failures writes to either store, and a response is returned only if
    all four checks passed.  When all four pass, Refresh calls
    GenerateTokenPair for the principal and the email of the claims: if
    that fails Refresh fails and writes nothing; if it returns a pair and
    Redis carries out the Set, the session of the principal is
    overwritten with the new refresh token, under the refresh TTL, and no
    other key changes; the response carries that pair when Redis also
    answers the Set, and Refresh fails when Redis refuses the Set (the
    session stays) or loses its reply (the session is overwritten).  In a
    call started in [w], Redis answers the deny-list lookup at
    [instant w 1], the validator reads the clock at [instant w 2] and
    Redis answers the session lookup at [instant w 3]; the pair is
    generated from the world [checked w]. *)
Theorem Refresh_checks_in_order (s : Server) (req : RefreshRequest.t) (w : World)
    (r : result RefreshResponse.t) (w' : World) :
  auth.Refresh L s req w = (r, w') ->
  service_at w 0 = Served ->
  let T := RefreshRequest.RefreshToken req in
  let j := jwtManager s in
  (revoked (redis w) (instant w 1) T ->
     fails_with r Blacklisted /\ same_stores w w') /\
  (~ revoked (redis w) (instant w 1) T ->
     ((forall c, ~ verifies L j (instant w 2) "refresh" T c) ->
        fails_with r InvalidToken /\ same_stores w w') /\
     (forall c, verifies L j (instant w 2) "refresh" T c ->
        (activeRefresh (redis w) (instant w 3) (TokenClaims.UserID c) = None ->
           fails_with r SessionNotFound /\ same_stores w w') /\
        (forall stored,
           activeRefresh (redis w) (instant w 3) (TokenClaims.UserID c) = Some stored ->
           stored <> T -> service_at w 1 = Served ->
           fails_with r SessionMismatch /\ same_stores w w'))) /\
  (forall resp, r = Ok resp ->
     ~ revoked (redis w) (instant w 1) T /\
     exists c,
       verifies L j (instant w 2) "refresh" T c /\
       activeRefresh (redis w) (instant w 3) (TokenClaims.UserID c) = Some T /\
       (exists d,
          redis w' !! ("refresh:" +:+ TokenClaims.UserID c)
          = Some (mkEntry (RefreshResponse.RefreshToken resp) d)) /\
       exists tokens w1,
         utils.GenerateTokenPair L j (TokenClaims.UserID c) (TokenClaims.Email c) (checked w)
         = (Ok tokens, w1) /\
         resp = RefreshResponse_of s tokens) /\
  (forall c,
     ~ revoked (redis w) (instant w 1) T ->
     verifies L j (instant w 2) "refresh" T c ->
     service_at w 1 = Served ->
     activeRefresh (redis w) (instant w 3) (TokenClaims.UserID c) = Some T ->
     forall g w1,
       utils.GenerateTokenPair L j (TokenClaims.UserID c) (TokenClaims.Email c) (checked w)
       = (g, w1) ->
       users w' = users w /\
       (forall e,
          g = Err e ->
          r = Err (Wrapf "failed to generate new tokens" e) /\ redis w' = redis w) /\
       (forall tokens,
          g = Ok tokens ->
          let key := "refresh:" +:+ TokenClaims.UserID c in
          let session :=
            <[key := mkEntry (snd tokens)
                       (new_deadline (redis w) (instant w1 1) key
                          (RefreshTokenTTL (JWT (config s))))]> (redis w) in
          (service_at w1 0 = Served ->
             r = Ok (RefreshResponse_of s tokens) /\ redis w' = session) /\
          (service_at w1 0 = Refused ->
             r = Err (Wrapf "failed to save new refresh token" ErrUnavailable) /\
             redis w' = redis w) /\
          (service_at w1 0 = Lost ->
             r = Err (Wrapf "failed to save new refresh token" ErrUnavailable) /\
             redis w' = session))).
Proof.
  intros H Hs0 T j. pose proof H as Hrun. apply Refresh_cases in H. fold T j in H.
  assert (Hchk : same_stores w (checked w)).
  { split; [|apply redis_checked]. unfold checked.
    now rewrite users_arrive, users_elapse, users_arrive. }
  assert (Hpassed :
    forall c,
      ~ revoked (redis w) (instant w 1) T ->
      verifies L j (instant w 2) "refresh" T c ->
      service_at w 1 = Served ->
      activeRefresh (redis w) (instant w 3) (TokenClaims.UserID c) = Some T ->
      forall g w1,
        utils.GenerateTokenPair L j (TokenClaims.UserID c) (TokenClaims.Email c) (checked w)
        = (g, w1) ->
        users w' = users w /\
        (forall e,
           g = Err e ->
           r = Err (Wrapf "failed to generate new tokens" e) /\ redis w' = redis w) /\
        (forall tokens,
           g = Ok tokens ->
           let key := "refresh:" +:+ TokenClaims.UserID c in
           let session :=
             <[key := mkEntry (snd tokens)
                        (new_deadline (redis w) (instant w1 1) key
                           (RefreshTokenTTL (JWT (config s))))]> (redis w) in
           (service_at w1 0 = Served ->
              r = Ok (RefreshResponse_of s tokens) /\ redis w' = session) /\
           (service_at w1 0 = Refused ->
              r = Err (Wrapf "failed to save new refresh token" ErrUnavailable) /\
              redis w' = redis w) /\
           (service_at w1 0 = Lost ->
              r = Err (Wrapf "failed to save new refresh token" ErrUnavailable) /\
              redis w' = session))).
  { intros c Hnr Hv Hs1 Hact g w1 Hg.
    rewrite (Refresh_passed s req w c Hs0 Hnr Hv Hs1 Hact) in Hrun.
    unfold issue, bind, or_return in Hrun. fold j in Hrun. rewrite Hg in Hrun.
    destruct (GenerateTokenPair_stores _ _ _ _ _ _ Hg) as [[Hu1 Hr1] _].
    rewrite (proj1 Hchk) in Hu1. rewrite redis_checked in Hr1.
    destruct g as [tokens|e|].
    - rewrite Set_unfold in Hrun. cbv zeta.
      destruct (service_at w1 0) eqn:Hs2; injection Hrun as <- <-;
        rewrite ?users_written, ?users_arrive, ?redis_written, ?redis_arrive, Hr1;
        (split; [exact Hu1|]); (split; [discriminate|]);
        intros tokens' [= <-]; repeat split; intros; try discriminate; reflexivity.
    - injection Hrun as <- <-. split; [exact Hu1|]. split.
      + intros e' [= <-]. now split.
      + discriminate.
    - injection Hrun as <- <-. split; [exact Hu1|]. split; discriminate. }
  destruct H as [Hn|_ Hrev|e w1 _ Hnr Hnv Hst|c e _ Hnr Hv Hget
                |c stored _ Hnr Hv Hs1 Hact Hne|c r w1 _ Hnr Hv Hs1 Hact Hi].
  - contradiction.
  - repeat split; try (intros; contradiction); try discriminate;
      try apply same_stores_arrive; try (now apply Hpassed).
    + exists (Errorf "refresh token blacklisted"). now split.
  - repeat split; try (intros; contradiction); try discriminate; try assumption;
      try (exfalso; eapply Hnv; eassumption); try (destruct Hst; assumption);
      try (now apply Hpassed).
    exists (Wrapf "invalid refresh token" e). split; [reflexivity|now exists e].
  - split; [intros; contradiction|]. split; [|split; [discriminate|exact Hpassed]].
    intros _. split; [intros Hnv; exfalso; eapply Hnv; eassumption|].
    intros c' Hv'. rewrite (verifies_functional L _ _ _ _ _ _ _ _ Hv' Hv). split.
    + intros _. split; [|assumption].
      exists (Wrapf "refresh token not found" e). split; [reflexivity|now exists e].
    + intros stored Hact Hne Hs1. destruct Hget as [Hget|Hget]; congruence.
  - split; [intros; contradiction|]. split; [|split; [discriminate|exact Hpassed]].
    intros _. split; [intros Hnv; exfalso; eapply Hnv; eassumption|].
    intros c' Hv'. rewrite (verifies_functional L _ _ _ _ _ _ _ _ Hv' Hv). split.
    + congruence.
    + intros _ _ _ _. split; [|assumption].
      exists (Errorf "refresh token mismatch"). now split.
  - split; [intros; contradiction|]. split; [|split; [|exact Hpassed]].
    + intros _. split; [intros Hnv; exfalso; eapply Hnv; eassumption|].
      intros c' Hv'. rewrite (verifies_functional L _ _ _ _ _ _ _ _ Hv' Hv). split.
      * congruence.
      * intros stored Hact' Hne. congruence.
    + intros resp ->. split; [assumption|]. exists c. split; [assumption|].
      split; [assumption|].
      apply issue_Ok in Hi as (a & rt & d & -> & _ & _ & _ & Hr).
      split; [exists d; rewrite Hr; simpl; apply lookup_insert_eq|].
      destruct (utils.GenerateTokenPair L j (TokenClaims.UserID c) (TokenClaims.Email c)
                  (checked w)) as [g w2] eqn:Hg.
      destruct (Hpassed c Hnr Hv Hs1 Hact g w2 Hg) as (_ & Herr & Hok).
      destruct g as [tokens|e|].
      * exists tokens, w2. split; [reflexivity|].
        destruct (Hok tokens eq_refl) as (Hserved & Hrefused & Hlost).
        assert (Hinj : forall x y : RefreshResponse.t, Ok x = Ok y -> x = y)
          by (intros x y [=]; assumption).
        destruct (service_at w2 0) eqn:Hs2.
        -- apply Hinj. exact (proj1 (Hserved eq_refl)).
        -- destruct (Hrefused eq_refl) as [[=] _].
        -- destruct (Hlost eq_refl) as [[=] _].
      * destruct (Herr e eq_refl) as [[=] _].
      * exfalso. rewrite GenerateTokenPair_unfold in Hg.
        destruct (SignedString L HS256 (accessClaims_of _ _ _ _) _); [discriminate|].
        destruct (SignedString L HS256 (refreshClaims_of _ _ _ _) _); discriminate.
Qed.

(** C4.  With token ids that never repeat, after two successful Logins of
    one principal a Refresh that presents the refresh token of the first
    Login fails; it fails with SessionMismatch whenever it gets as far as
    the comparison, that is when Redis answers, the token is neither
    revoked nor out of force and the session has not expired. *)
Theorem second_Login_supersedes_first (s : Server) (req1 req2 : LoginRequest.t)
    (w0 w1 w2 : World) (r1 r2 : IssueResponse.t) (r3 : result RefreshResponse.t)
    (w3 : World) :
  round_trip L ->
  (forall m n, entropy w0 m = entropy w0 n -> m = n) ->
  auth.Login L s req1 w0 = (Ok r1, w1) ->
  auth.Login L s req2 w1 = (Ok r2, w2) ->
  IssueResponse.UserId r1 = IssueResponse.UserId r2 ->
  let T1 := IssueResponse.RefreshToken r1 in
  auth.Refresh L s (RefreshRequest.mk T1) w2 = (r3, w3) ->
  (exists e, r3 = Err e) /\
  (service_at w2 0 = Served -> service_at w2 1 = Served ->
   ~ revoked (redis w2) (instant w2 1) T1 ->
   (forall c, signed_by L (secret (jwtManager s)) T1 c -> in_force (instant w2 2) c) ->
   activeRefresh (redis w2) (instant w2 3) (IssueResponse.UserId r1) <> None ->
   fails_with r3 SessionMismatch).
Proof.
  intros Hrt Hinj H1 H2 Hsame T1 H3.
  destruct (Login_Ok _ _ _ _ _ Hrt H1) as (c1 & d1 & Hsig1 & Hu1 & Hty1 & Hid1 & _ & He1 & Hd1).
  destruct (Login_Ok _ _ _ _ _ Hrt H2) as (c2 & d2 & Hsig2 & Hu2 & _ & Hid2 & Hr2 & _ & _).
  fold T1 in Hsig1. set (T2 := IssueResponse.RefreshToken r2) in *.
  clear H1 H2.
  assert (Hne : T2 <> T1).
  { intros Heq. rewrite Heq in Hsig2.
    pose proof (signed_by_functional L _ _ _ _ Hsig1 Hsig2) as Hc.
    rewrite <- Hc, Hid1, He1, Hd1 in Hid2.
    apply Hinj in Hid2. lia. }
  assert (Hstored : forall t c, verifies L (jwtManager s) t "refresh" T1 c ->
            forall t', activeRefresh (redis w2) t' (TokenClaims.UserID c) <> Some T1).
  { intros t c [Hs _] t' Hact.
    rewrite <- (signed_by_functional L _ _ _ _ Hsig1 Hs), Hu1, Hsame in Hact.
    unfold activeRefresh in Hact. rewrite Hr2 in Hact.
    destruct (lookup_at_insert (redis w1) t'
                ("refresh:" +:+ IssueResponse.UserId r2) T2 d2) as [Hl|Hl];
      rewrite Hl in Hact; congruence. }
  apply Refresh_cases in H3. cbn [RefreshRequest.RefreshToken] in H3.
  destruct H3 as [Hn|_ Hrev|e w' _ _ Hnv _|c e _ _ Hv Hget
                 |c stored _ _ Hv _ Hact Hneq|c r w' _ _ Hv _ Hact _].
  - split; [eauto|]. intros Hs0. contradiction.
  - split; [eauto|]. intros _ _ Hnr. contradiction.
  - split; [eauto|]. intros _ _ _ Hforce _. exfalso. apply (Hnv c1).
    split; [assumption|]. split; [now apply Hforce|assumption].
  - split; [eauto|]. intros _ Hs1 _ _ Hlive. exfalso.
    destruct Hv as [Hs Hrest].
    rewrite <- (signed_by_functional L _ _ _ _ Hsig1 Hs), Hu1 in Hget.
    destruct Hget; contradiction.
  - split; [eauto|]. intros _ _ _ _ _.
    exists (Errorf "refresh token mismatch"). now split.
  - exfalso. eapply Hstored; eassumption.
Qed.

(** C5.  When the token id drawn for the new refresh token (the second
    string the random source yields during the call, the first being the
    id of the access token) is not the one [T] carries, a successful
    Refresh of [T] answers with a refresh token other than [T], and the
    Refresh of [T] that follows it fails. *)
Theorem Refresh_single_use (s : Server) (T : string) (w : World)
    (resp : RefreshResponse.t) (w1 : World) :
  round_trip L ->
  auth.Refresh L s (RefreshRequest.mk T) w = (Ok resp, w1) ->
  (forall c, signed_by L (secret (jwtManager s)) T c ->
             TokenClaims.ID c <> entropy w (S (drawn w))) ->
  RefreshResponse.RefreshToken resp <> T /\
  forall r w2,
    auth.Refresh L s (RefreshRequest.mk T) w1 = (r, w2) -> exists e, r = Err e.
Proof.
  intros Hrt H Hfresh. apply Refresh_cases in H. simpl in H.
  inversion H as [| | | | |c r0 w0 _ _ Hv _ _ Hi]; subst.
  apply issue_Ok in Hi as (a & rt & d & -> & Hsig & _ & _ & Hr). simpl.
  assert (Hne : rt <> T).
  { intros ->. apply round_trip_signed_by in Hsig; [|assumption].
    apply (Hfresh _ Hsig). simpl. now rewrite entropy_checked, drawn_checked. }
  split; [assumption|].
  intros r w2 H2. apply Refresh_cases in H2. simpl in H2.
  destruct H2 as [| | | | |c' r' w' _ _ Hv' _ Hact _]; eauto.
  exfalso. unfold activeRefresh in Hact.
  assert (c' = c) as -> by (eapply verifies_functional; eassumption).
  rewrite Hr in Hact.
  destruct (lookup_at_insert (redis (checked w)) (instant w1 3)
              ("refresh:" +:+ TokenClaims.UserID c) rt d) as [Hl|Hl];
    rewrite Hl in Hact; congruence.
Qed.

(** C6.  When Logout succeeds on a token that is still in force as it
    measures the remaining lifetime (at [instant w 2], the validator having
    read the clock at [instant w 1]), the token is on the deny-list with a
    deadline later than the instant Redis stored it; as long as that entry
    lives a Refresh of the token fails with Blacklisted if Redis answers;
    and ValidateToken keeps answering valid:true for an access token that
    verifies and carries an expiry, whatever the stores hold. *)
Theorem Logout_revokes (s : Server) (T : string) (w w1 : World) (c : TokenClaims.t) :
  auth.Logout L s (LogoutRequest.mk T) w = (Ok (LogoutResponse.mk true), w1) ->
  verifies L (jwtManager s) (instant w 2) "refresh" T c ->
  (exists d,
      redis w1 !! ("blacklist:" +:+ T) = Some (mkEntry "1" (Some d)) /\
      instant w 3 < d /\
      forall w2 r w3,
        redis w2 !! ("blacklist:" +:+ T) = Some (mkEntry "1" (Some d)) ->
        instant w2 1 < d ->
        service_at w2 0 = Served ->
        auth.Refresh L s (RefreshRequest.mk T) w2 = (r, w3) ->
        fails_with r Blacklisted) /\
  (forall A w2 ca e,
      verifies L (jwtManager s) (instant w2 1) "access" A ca ->
      TokenClaims.ExpiresAt ca = Some e ->
      fst (auth.ValidateToken L s (ValidateTokenRequest.mk A) w2)
      = Ok (ValidateTokenResponse.mk true (TokenClaims.UserID ca) (TokenClaims.Email ca)
              (Seconds (Time e - instant w2 2)))).
Proof.
  intros H Hv. split.
  - apply Logout_cases in H. simpl in H.
    inversion H as [|c0 Hv0 He0|c0 e Hv0 He0 Hle _|c0 e Hv0 He0 Hlt _ _|]; subst.
    + assert (c0 = c) as -> by (eapply verifies_functional; eassumption).
      destruct Hv as (_ & [Hexp _] & _). specialize (Hexp e He0). lia.
    + set (rem := Time e - instant w 2).
      exists (instant w 3 +
              (if rem <? Millisecond then Millisecond else rem / Millisecond * Millisecond)).
      assert (Hrem : 0 < rem) by (unfold rem; lia).
      split; [|split].
      * rewrite redis_deleted.
        rewrite lookup_delete_ne by apply refresh_key_not_blacklist_key.
        unfold denied. rewrite redis_written, lookup_insert_eq.
        unfold new_deadline. fold rem.
        apply Z.ltb_lt in Hrem. rewrite Hrem.
        unfold measured. now rewrite !instant_elapse.
      * destruct (rem <? Millisecond) eqn:Hms; [unfold Millisecond; lia|].
        apply Z.ltb_ge in Hms.
        assert (1 <= rem / Millisecond)
          by (apply Z.div_le_lower_bound; unfold Millisecond in *; lia).
        unfold Millisecond in *. lia.
      * intros w2 r w3 Hentry Hlive Hs0 Hrun.
        apply Refresh_cases in Hrun. simpl in Hrun.
        assert (Hrev : revoked (redis w2) (instant w2 1) T).
        { unfold revoked, lookup_at. rewrite Hentry. unfold alive.
          cbn [deadline value]. apply Z.ltb_lt in Hlive. rewrite Hlive. discriminate. }
        destruct Hrun; try contradiction.
        exists (Errorf "refresh token blacklisted"). now split.
  - intros A w2 ca e Hva Hea.
    destruct (auth.ValidateToken L s (ValidateTokenRequest.mk A) w2) as [r w'] eqn:Hrun.
    apply ValidateToken_cases' in Hrun. simpl in *.
    destruct Hrun as [w' Hn _|c' Hv' He'|c' e' Hv' He'].
    + now contradiction (Hn ca).
    + assert (c' = ca) as -> by (eapply verifies_functional; eassumption). congruence.
    + assert (c' = ca) as -> by (eapply verifies_functional; eassumption). congruence.
Qed.

(** C7, where the code departs from it.  On a token that verifies as an
    access token and carries no expiry, ValidateToken neither answers
    valid:false nor valid:true: dereferencing the absent expiry panics. *)
Theorem ValidateToken_panics_without_expiry (s : Server) (T : string) (w : World)
    (c : TokenClaims.t) :
  verifies L (jwtManager s) (instant w 1) "access" T c ->
  TokenClaims.ExpiresAt c = None ->
  auth.ValidateToken L s (ValidateTokenRequest.mk T) w = (Panic, elapse w).
Proof.
  intros Hv He.
  destruct (auth.ValidateToken L s (ValidateTokenRequest.mk T) w) as [r w'] eqn:H.
  apply ValidateToken_cases' in H. simpl in H.
  destruct H as [w1 Hn _|c' Hv' _|c' e Hv' He'].
  - now contradiction (Hn c).
  - reflexivity.
  - rewrite (verifies_functional L _ _ _ _ _ _ _ _ Hv' Hv) in He'. congruence.
Qed.

(** On every other input ValidateToken answers, never with an error:
    valid:false when the token does not verify as an access token,
    valid:true with the principal, the email and the whole seconds left
    when it does.  In no case does it send a request to Redis or Postgres,
    and it leaves both stores as they were. *)
Lemma ValidateToken_answers (s : Server) (T : string) (w : World) :
  (forall c, verifies L (jwtManager s) (instant w 1) "access" T c ->
             TokenClaims.ExpiresAt c <> None) ->
  services (snd (auth.ValidateToken L s (ValidateTokenRequest.mk T) w)) = services w /\
  same_stores w (snd (auth.ValidateToken L s (ValidateTokenRequest.mk T) w)) /\
  ((forall c, ~ verifies L (jwtManager s) (instant w 1) "access" T c) ->
     fst (auth.ValidateToken L s (ValidateTokenRequest.mk T) w)
     = Ok (ValidateTokenResponse.mk false "" "" 0)) /\
  (forall c e,
      verifies L (jwtManager s) (instant w 1) "access" T c ->
      TokenClaims.ExpiresAt c = Some e ->
      fst (auth.ValidateToken L s (ValidateTokenRequest.mk T) w)
      = Ok (ValidateTokenResponse.mk true (TokenClaims.UserID c) (TokenClaims.Email c)
              (Seconds (Time e - instant w 2)))).
Proof.
  intros Hexp.
  destruct (auth.ValidateToken L s (ValidateTokenRequest.mk T) w) as [r w'] eqn:H.
  apply ValidateToken_cases' in H. cbn [fst snd ValidateTokenRequest.Token] in *.
  destruct H as [w1 Hn Hw1|c' Hv' He'|c' e' Hv' He'].
  - split; [destruct Hw1 as [->| ->]; now rewrite ?services_elapse|].
    split; [destruct Hw1 as [->| ->]; [apply same_stores_refl|apply same_stores_elapse]|].
    split; [reflexivity|]. intros c e Hv. now contradiction (Hn c).
  - now contradiction (Hexp c').
  - split; [unfold measured; now rewrite !services_elapse|].
    split; [unfold measured; split; now rewrite ?users_elapse, ?redis_elapse|].
    split; [intros Hn; now contradiction (Hn c')|].
    intros c e Hv He.
    assert (c = c') as -> by (eapply verifies_functional; eassumption).
    congruence.
Qed.

(** C8.  Refresh, whatever its outcome, leaves every deny-list entry as
    it was, and so do Register, Login and ValidateToken: only Logout
    writes to the deny-list. *)
Theorem deny_list_untouched_outside_Logout (s : Server) (w : World) (T : string) :
  (forall req,
      redis (snd (auth.Refresh L s req w)) !! ("blacklist:" +:+ T)
      = redis w !! ("blacklist:" +:+ T)) /\
  (forall req,
      redis (snd (auth.Register L s req w)) !! ("blacklist:" +:+ T)
      = redis w !! ("blacklist:" +:+ T)) /\
  (forall req,
      redis (snd (auth.Login L s req w)) !! ("blacklist:" +:+ T)
      = redis w !! ("blacklist:" +:+ T)) /\
  (forall req,
      redis (snd (auth.ValidateToken L s req w)) !! ("blacklist:" +:+ T)
      = redis w !! ("blacklist:" +:+ T)).
Proof.
  assert (Hkey : forall principal, "blacklist:" +:+ T <> "refresh:" +:+ principal)
    by (intros principal Heq; symmetry in Heq; revert Heq;
        apply refresh_key_not_blacklist_key).
  repeat split; intros req.
  - destruct (auth.Refresh L s req w) as [r w'] eqn:H. simpl.
    eapply Refresh_redis; eassumption.
  - destruct (auth.Register L s req w) as [r w'] eqn:H. simpl.
    eapply Register_redis; eassumption.
  - destruct (auth.Login L s req w) as [r w'] eqn:H. simpl.
    eapply Login_redis; eassumption.
  - destruct (auth.ValidateToken L s req w) as [r w'] eqn:H. simpl.
    now rewrite (ValidateToken_redis L _ _ _ _ _ H).
Qed.

(** C9.  A Login for an email the credential store does not hold and a
    Login with a password that does not match the stored hash return the
    same result, the error InvalidCredentials, and neither changes a
    store. *)
Theorem Login_failures_indistinguishable (s : Server) (req1 req2 : LoginRequest.t)
    (w1 w2 : World) (user : User.t) :
  principal w1 (LoginRequest.Email req1) = None ->
  service_at w2 0 = Served ->
  principal w2 (LoginRequest.Email req2) = Some user ->
  models.CheckPassword L user (LoginRequest.Password req2) = false ->
  fst (auth.Login L s req1 w1) = fst (auth.Login L s req2 w2) /\
  fails_with (fst (auth.Login L s req1 w1)) InvalidCredentials /\
  same_stores w1 (snd (auth.Login L s req1 w1)) /\
  same_stores w2 (snd (auth.Login L s req2 w2)).
Proof.
  intros Hnone Hs Hsome Hpw.
  destruct (auth.Login L s req1 w1) as [r1 w1'] eqn:H1.
  destruct (auth.Login L s req2 w2) as [r2 w2'] eqn:H2.
  apply Login_cases in H1, H2. simpl.
  assert (E1 : r1 = Err (Errorf "invalid credentials") /\ w1' = arrive w1).
  { destruct H1 as [|u ? Hu|u ? ? ? Hu]; auto; congruence. }
  assert (E2 : r2 = Err (Errorf "invalid credentials") /\ w2' = arrive w2).
  { destruct H2 as [|u ? Hu|u ? ? ? Hu Hp]; auto; congruence. }
  destruct E1 as [-> ->], E2 as [-> ->].
  repeat split; try apply users_arrive; try apply redis_arrive.
  exists (Errorf "invalid credentials"). now split.
Qed.

(** C10.  When Register fails while generating the tokens or while storing
    the refresh token, the principal it created stays in the credential
    store, and a later Register for the same email fails with
    AlreadyExists whenever the store answers. *)
Theorem Register_not_atomic (s : Server) (req : RegisterRequest.t) (w : World)
    (e : error) (w' : World) :
  auth.Register L s req w = (Err e, w') ->
  (exists cause, e = Wrapf "failed to generate tokens" cause) \/
  (exists cause, e = Wrapf "failed to store refresh token" cause) ->
  (exists user,
      User.Email user = RegisterRequest.Email req /\
      users w' = (users w ++ [user])%list) /\
  (forall req' w2,
      RegisterRequest.Email req' = RegisterRequest.Email req ->
      users w2 = users w' ->
      service_at w2 0 = Served ->
      fails_with (fst (auth.Register L s req' w2)) AlreadyExists).
Proof.
  intros H Hkind.
  destruct (Register_persists L s req w e w' H Hkind) as (user & Hemail & Husers).
  split; [eauto|].
  intros req' w2 Hreq Hw2 Hs.
  rewrite Register_taken; [eexists; split; reflexivity|assumption|].
  rewrite Hw2, Husers, Hreq, existsb_app. simpl.
  unfold UserRepository.has_email. rewrite Hemail, String.eqb_refl.
  now rewrite orb_true_r.
Qed.
End Claims.

Section Checks.
Context (L : Library).

Lemma claims_if_signed_sound key T c :
  claims_if_signed L key T = Some c -> signed_by L key T c.
Proof.
  unfold claims_if_signed. destruct (Decode L T) as [e|token] eqn:Hd; [discriminate|].
  destruct (is_SigningMethodHMAC _) eqn:Hm; [|discriminate].
  destruct (Verify L _ _ _ _) eqn:Hv; [|discriminate].
  intros [= <-]. exists token. auto.
Qed.
End Checks.

(** ** The claims on the run of the fake *)

Module Examples.
Import Fake Scenario.

(** A run is determined by its result and the world it ends in. *)
Lemma returns {A} (run : result A * World) (r : result A) :
  fst run = r -> run = (r, snd run).
Proof. intros <-. apply surjective_pairing. Qed.

(** Settles [run = (r, w')] where [w'] is defined as the world [run] ends
    in, by evaluating the result. *)
Ltac evaluate_run := refine (returns _ _ _); vm_compute; reflexivity.

Ltac evaluate := vm_compute; reflexivity.

Lemma refresh1_signed :
  signed_by library (secret (jwtManager server)) refresh1 refresh1_claims.
Proof. apply claims_if_signed_sound. evaluate. Qed.

Lemma access1_signed :
  signed_by library (secret (jwtManager server)) access1 access1_claims.
Proof. apply claims_if_signed_sound. evaluate. Qed.

Lemma eternal_signed :
  signed_by library (secret (jwtManager server)) eternal_token eternal_claims.
Proof. apply claims_if_signed_sound. evaluate. Qed.

(** The refresh token of the first Login verifies until its tenth second. *)
Lemma refresh1_verifies t :
  (t <? Time 10) = true ->
  verifies library (jwtManager server) t "refresh" refresh1 refresh1_claims.
Proof.
  intros Ht. apply Z.ltb_lt in Ht. split; [apply refresh1_signed|]. split; [|reflexivity].
  split; [intros e [= <-]; exact Ht|intros n' [=]].
Qed.

Lemma first_Login_runs :
  auth.Login library server credentials registered = (Ok login1, logged_in).
Proof. unfold logged_in. evaluate_run. Qed.

Lemma second_Login_runs :
  auth.Login library server credentials logged_in = (Ok login2, logged_in_again).
Proof. unfold logged_in_again. evaluate_run. Qed.

Lemma Logout_runs :
  auth.Logout library server (LogoutRequest.mk refresh1) logged_in
  = (Ok (LogoutResponse.mk true), logged_out).
Proof. unfold logged_out. evaluate_run. Qed.

Lemma access1_verifies :
  verifies library (jwtManager server) (instant logged_out 1) "access" access1
    access1_claims.
Proof.
  split; [apply access1_signed|]. split; [|reflexivity].
  split; [intros e [= <-]; evaluate|intros n [=]].
Qed.

(** C1, a counterexample to the claim as stated: Logout accepts the
    refresh token of the first Login (it answers success:true) although
    the session of the principal named in its claims holds another
    token, the one of the second Login. *)
Lemma Logout_accepts_superseded_token :
  fst (auth.Logout library server (LogoutRequest.mk refresh1) logged_in_again)
  = Ok (LogoutResponse.mk true) /\
  verifies library (jwtManager server) (instant logged_in_again 1) "refresh"
    refresh1 refresh1_claims /\
  activeRefresh (redis logged_in_again) (instant logged_in_again 1)
    (TokenClaims.UserID refresh1_claims) = Some refresh2 /\
  refresh2 <> refresh1.
Proof.
  split; [evaluate|].
  split; [apply refresh1_verifies; evaluate|].
  split; [evaluate|discriminate].
Qed.

(** C1, as amended, on the run: the Refresh after the first Login accepts
    its refresh token, which passes the three checks. *)
Lemma accepted_refresh_token_witness :
  exists c,
    verifies library (jwtManager server) (instant logged_in 2) "refresh" refresh1 c /\
    ~ revoked (redis logged_in) (instant logged_in 1) refresh1 /\
    activeRefresh (redis logged_in) (instant logged_in 3) (TokenClaims.UserID c)
    = Some refresh1.
Proof.
  eapply (proj1 (accepted_refresh_token library server refresh1 logged_in)).
  evaluate_run.
Defined.

(** C2, a counterexample to the claim as stated: a token whose signature
    was made with HS384, not HS256, passes ValidateToken. *)
Lemma HS384_token_accepted :
  (exists token, Decode hs384_token = inr token /\ Token.Method token = HS384) /\
  fst (utils.ValidateToken library (jwtManager server) hs384_token world)
  = Ok access1_claims.
Proof.
  split; [eexists; split; evaluate|evaluate].
Qed.

(** C2, as amended, on the run: the token whose header names RS256 is
    rejected. *)
Lemma ValidateToken_rejects_other_families_witness :
  exists e,
    utils.ValidateToken library (jwtManager server) rs256_token world = (Err e, world).
Proof.
  eapply (ValidateToken_rejects_other_families library (jwtManager server) rs256_token).
  - evaluate.
  - reflexivity.
Defined.

(** C3 on the run: after the second Login the refresh token of the first
    passes the first three checks and fails the fourth; after the first
    Login it passes all four, and Refresh answers with the pair that
    GenerateTokenPair made and overwrites Alice's session with the new
    refresh token, which is not the one presented. *)
Lemma Refresh_checks_in_order_witness :
  fails_with
    (fst (auth.Refresh library server (RefreshRequest.mk refresh1) logged_in_again))
    SessionMismatch /\
  exists tokens d,
    utils.GenerateTokenPair library (jwtManager server) "10" "a@x.com" (checked logged_in)
    = (Ok tokens,
       snd (utils.GenerateTokenPair library (jwtManager server) "10" "a@x.com"
              (checked logged_in))) /\
    fst (auth.Refresh library server (RefreshRequest.mk refresh1) logged_in)
    = Ok (RefreshResponse_of server tokens) /\
    redis refreshed = <["refresh:10" := mkEntry (snd tokens) d]> (redis logged_in) /\
    snd tokens <> refresh1.
Proof.
  split.
  - refine (proj1
      (proj2 (proj2 (proj1 (proj2
         (Refresh_checks_in_order library server (RefreshRequest.mk refresh1)
            logged_in_again _ _ (surjective_pairing _) _)) _)
         refresh1_claims _) refresh2 _ _ _)).
    + reflexivity.
    + vm_compute. intros H. now apply H.
    + apply refresh1_verifies. evaluate.
    + evaluate.
    + discriminate.
    + reflexivity.
  - pose (generated :=
      utils.GenerateTokenPair library (jwtManager server) "10" "a@x.com"
        (checked logged_in)).
    assert (Hgen : generated = (Ok (response generated ("", "")), snd generated))
      by evaluate_run.
    destruct (Refresh_checks_in_order library server (RefreshRequest.mk refresh1)
                logged_in _ _ (surjective_pairing _) eq_refl)
      as (_ & _ & _ & Hpass).
    assert (Hnr : ~ revoked (redis logged_in) (instant logged_in 1) refresh1)
      by (vm_compute; intros H; now apply H).
    assert (Hv : verifies library (jwtManager server) (instant logged_in 2) "refresh"
                   refresh1 refresh1_claims)
      by (apply refresh1_verifies; evaluate).
    assert (Hact : activeRefresh (redis logged_in) (instant logged_in 3) "10"
                   = Some refresh1) by evaluate.
    destruct (Hpass refresh1_claims Hnr Hv eq_refl Hact _ _ Hgen) as (_ & _ & Hok).
    destruct (Hok _ eq_refl) as (Hserved & _).
    assert (Hs2 : service_at (snd generated) 0 = Served) by evaluate.
    destruct (Hserved Hs2) as [Hr Hredis].
    exists (response generated ("", "")).
    refine (ex_intro _ _ (conj Hgen (conj Hr (conj Hredis _)))).
    intros H. vm_compute in H. discriminate H.
Defined.

(** C4 on the run: Alice logs in twice, and the Refresh with the first
    refresh token fails with SessionMismatch. *)
Lemma second_Login_supersedes_first_witness :
  fails_with
    (fst (auth.Refresh library server (RefreshRequest.mk refresh1) logged_in_again))
    SessionMismatch.
Proof.
  refine (proj2
    (second_Login_supersedes_first library server credentials credentials
       registered logged_in logged_in_again login1 login2 _ _
       FakeFacts.library_round_trip FakeFacts.entropy_injective
       first_Login_runs second_Login_runs _
       (surjective_pairing _)) _ _ _ _ _).
  - reflexivity.
  - reflexivity.
  - reflexivity.
  - vm_compute. intros H. now apply H.
  - intros c Hc.
    rewrite <- (signed_by_functional library _ _ _ _ refresh1_signed Hc).
    split; [intros e [= <-]; evaluate|intros n [=]].
  - vm_compute. discriminate.
Defined.

(** C5 on the run: the Refresh with the first refresh token succeeds, and
    the same Refresh again fails. *)
Lemma Refresh_single_use_witness :
  exists e,
    fst (auth.Refresh library server (RefreshRequest.mk refresh1) refreshed) = Err e.
Proof.
  refine (proj2
    (Refresh_single_use library server refresh1 logged_in
       (response (auth.Refresh library server (RefreshRequest.mk refresh1) logged_in)
          (RefreshResponse.mk "" 0 "" 0))
       refreshed FakeFacts.library_round_trip _ _)
    _ _ (surjective_pairing _)).
  - unfold refreshed. evaluate_run.
  - intros c Hc.
    rewrite <- (signed_by_functional library _ _ _ _ refresh1_signed Hc).
    vm_compute. discriminate.
Defined.

(** C6 on the run: after the Logout with the first refresh token, the
    access token of the same Login is still answered valid:true. *)
Lemma Logout_revokes_witness :
  fst (auth.ValidateToken library server (ValidateTokenRequest.mk access1) logged_out)
  = Ok (ValidateTokenResponse.mk true
          (TokenClaims.UserID access1_claims) (TokenClaims.Email access1_claims)
          (Seconds (Time 2 - instant logged_out 2))).
Proof.
  refine (proj2
    (Logout_revokes library server refresh1 logged_in logged_out refresh1_claims
       Logout_runs _)
    access1 logged_out access1_claims 2 access1_verifies _).
  - apply refresh1_verifies. evaluate.
  - reflexivity.
Defined.

(** C7 on the run: the token without expiry, signed with the server's
    secret, makes ValidateToken panic. *)
Lemma ValidateToken_panics_without_expiry_witness :
  auth.ValidateToken library server (ValidateTokenRequest.mk eternal_token) world
  = (Panic, elapse world).
Proof.
  apply (ValidateToken_panics_without_expiry library server eternal_token world
           eternal_claims).
  - split; [apply eternal_signed|]. split; [|reflexivity].
    split; intros x [=].
  - reflexivity.
Defined.

(** C9 on the run: an unknown email and a wrong password for Alice get
    the same result. *)
Lemma Login_failures_indistinguishable_witness :
  fst (auth.Login library server (LoginRequest.mk "b@x.com" "pw") registered)
  = fst (auth.Login library server (LoginRequest.mk "a@x.com" "wrong") registered).
Proof.
  refine (proj1
    (Login_failures_indistinguishable library server
       (LoginRequest.mk "b@x.com" "pw") (LoginRequest.mk "a@x.com" "wrong")
       registered registered alice_row _ _ _ _)).
  - evaluate.
  - reflexivity.
  - evaluate.
  - evaluate.
Defined.

(** C10 on the run: Redis refuses to store the refresh token, Register
    fails, and registering the same email again fails with AlreadyExists. *)
Lemma Register_not_atomic_witness :
  fails_with
    (fst (auth.Register library server (RegisterRequest.mk "a@x.com" "other" "B")
            (snd (auth.Register library server alice redis_down))))
    AlreadyExists.
Proof.
  refine (proj2
    (Register_not_atomic library server alice redis_down
       (Wrapf "failed to store refresh token" ErrUnavailable)
       (snd (auth.Register library server alice redis_down)) _ _)
    (RegisterRequest.mk "a@x.com" "other" "B") _ _ _ _).
  - evaluate_run.
  - right. eexists. reflexivity.
  - reflexivity.
  - reflexivity.
  - evaluate.
Defined.
End Examples.

(** ** The lifetime of the tokens of a pair *)

Lemma NumericDate_floor t :
  Time (NewNumericDate t) <= t < Time (NewNumericDate t) + Second.
Proof. unfold Time, NewNumericDate, Second. Z.div_mod_to_equations. lia. Qed.

Section Lifetime.
Context (L : Library).

Lemma pair_signed j userID email w w' a r :
  round_trip L ->
  utils.GenerateTokenPair L j userID email w = (Ok (a, r), w') ->
  signed_by L (secret j) a (accessClaims_of j userID email w) /\
  signed_by L (secret j) r (refreshClaims_of j userID email w).
Proof.
  intros Hrt. rewrite GenerateTokenPair_unfold.
  destruct (SignedString L HS256 (accessClaims_of _ _ _ _) _) as [e|a'] eqn:Ha; [discriminate|].
  destruct (SignedString L HS256 (refreshClaims_of _ _ _ _) _) as [e|r'] eqn:Hr; [discriminate|].
  intros [= <- <- _]. split; now apply round_trip_signed_by.
Qed.

Lemma in_force_access j userID email w t :
  in_force t (accessClaims_of j userID email w) <->
  t < Time (NewNumericDate (instant w 1 + accessTokenTTL j)).
Proof.
  unfold in_force, accessClaims_of. cbn [TokenClaims.ExpiresAt TokenClaims.NotBefore]. split.
  - intros [H _]. now apply H.
  - intros H. split; [now intros e [= <-]|discriminate].
Qed.

Lemma in_force_refresh j userID email w t :
  in_force t (refreshClaims_of j userID email w) <->
  t < Time (NewNumericDate (instant w 3 + refreshTokenTTL j)).
Proof.
  unfold in_force, refreshClaims_of.
  cbn [TokenClaims.ExpiresAt TokenClaims.NotBefore]. rewrite instant_after_claims. split.
  - intros [H _]. now apply H.
  - intros H. split; [now intros e [= <-]|discriminate].
Qed.

Lemma ValidateAccessToken_accepts j T c w :
  verifies L j (instant w 1) "access" T c ->
  utils.ValidateAccessToken L j T w = (Ok c, elapse w).
Proof.
  intros Hv.
  destruct (ValidateAccessToken_cases L j T w) as [(c' & Hv' & ->)|(e & w' & Hn & _)].
  - now rewrite (verifies_functional L _ _ _ _ _ _ _ _ Hv Hv').
  - now destruct (Hn c).
Qed.

Lemma ValidateRefreshToken_accepts j T c w :
  verifies L j (instant w 1) "refresh" T c ->
  utils.ValidateRefreshToken L j T w = (Ok c, elapse w).
Proof.
  intros Hv.
  destruct (ValidateRefreshToken_cases L j T w) as [(c' & Hv' & ->)|(e & w' & Hn & _)].
  - now rewrite (verifies_functional L _ _ _ _ _ _ _ _ Hv Hv').
  - now destruct (Hn c).
Qed.

Lemma ValidateAccessToken_rejects j T c w :
  signed_by L (secret j) T c ->
  ~ in_force (instant w 1) c \/ TokenClaims.Type_ c <> "access" ->
  exists e, fst (utils.ValidateAccessToken L j T w) = Err e.
Proof.
  intros Hs Hnot.
  destruct (ValidateAccessToken_cases L j T w)
    as [(c' & (Hs' & Hf & Ht) & _)|(e & w' & _ & -> & _)]; [|now exists e].
  rewrite <- (signed_by_functional L _ _ _ _ Hs Hs') in *. tauto.
Qed.

Lemma ValidateRefreshToken_rejects j T c w :
  signed_by L (secret j) T c ->
  ~ in_force (instant w 1) c \/ TokenClaims.Type_ c <> "refresh" ->
  exists e, fst (utils.ValidateRefreshToken L j T w) = Err e.
Proof.
  intros Hs Hnot.
  destruct (ValidateRefreshToken_cases L j T w)
    as [(c' & (Hs' & Hf & Ht) & _)|(e & w' & _ & -> & _)]; [|now exists e].
  rewrite <- (signed_by_functional L _ _ _ _ Hs Hs') in *. tauto.
Qed.

(** X1.  Each token of a pair made by GenerateTokenPair passes the
    validator of its kind, which returns the user id and the email the
    pair was made for, whenever the validator reads the clock at least
    one second before the instant read at issuance plus the token's TTL;
    it is rejected whenever the validator reads the clock at or after
    that instant plus the TTL. *)
Theorem issued_tokens_verify (j : JWTManager) (userID email : string) (w w' : World)
    (accessToken refreshToken : string) :
  round_trip L ->
  utils.GenerateTokenPair L j userID email w = (Ok (accessToken, refreshToken), w') ->
  (forall w2, instant w2 1 + Second <= instant w 1 + accessTokenTTL j ->
     exists c, utils.ValidateAccessToken L j accessToken w2 = (Ok c, elapse w2) /\
               TokenClaims.UserID c = userID /\ TokenClaims.Email c = email) /\
  (forall w2, instant w 1 + accessTokenTTL j <= instant w2 1 ->
     exists e, fst (utils.ValidateAccessToken L j accessToken w2) = Err e) /\
  (forall w2, instant w2 1 + Second <= instant w 3 + refreshTokenTTL j ->
     exists c, utils.ValidateRefreshToken L j refreshToken w2 = (Ok c, elapse w2) /\
               TokenClaims.UserID c = userID /\ TokenClaims.Email c = email) /\
  (forall w2, instant w 3 + refreshTokenTTL j <= instant w2 1 ->
     exists e, fst (utils.ValidateRefreshToken L j refreshToken w2) = Err e).
Proof.
  intros Hrt H. destruct (pair_signed _ _ _ _ _ _ _ Hrt H) as [Ha Hr].
  pose proof (NumericDate_floor (instant w 1 + accessTokenTTL j)) as Fa.
  pose proof (NumericDate_floor (instant w 3 + refreshTokenTTL j)) as Fr.
  repeat split.
  - intros w2 Ht. exists (accessClaims_of j userID email w).
    split; [apply ValidateAccessToken_accepts|split; reflexivity].
    split; [exact Ha|]. split; [|reflexivity]. apply in_force_access. lia.
  - intros w2 Ht. apply (ValidateAccessToken_rejects _ _ _ _ Ha). left.
    rewrite in_force_access. lia.
  - intros w2 Ht. exists (refreshClaims_of j userID email w).
    split; [apply ValidateRefreshToken_accepts|split; reflexivity].
    split; [exact Hr|]. split; [|reflexivity]. apply in_force_refresh. lia.
  - intros w2 Ht. apply (ValidateRefreshToken_rejects _ _ _ _ Hr). left.
    rewrite in_force_refresh. lia.
Qed.

(** X2.  The two tokens of a pair are not interchangeable: at whatever
    instant, Refresh fails on the access token, Logout answers
    success:false on it, and ValidateToken answers valid:false on the
    refresh token. *)
Theorem token_kinds_not_interchangeable (s : Server) (userID email : string) (w w' : World)
    (accessToken refreshToken : string) :
  round_trip L ->
  utils.GenerateTokenPair L (jwtManager s) userID email w
  = (Ok (accessToken, refreshToken), w') ->
  forall w2,
    (exists e, fst (auth.Refresh L s (RefreshRequest.mk accessToken) w2) = Err e) /\
    fst (auth.Logout L s (LogoutRequest.mk accessToken) w2) = Ok (LogoutResponse.mk false) /\
    fst (auth.ValidateToken L s (ValidateTokenRequest.mk refreshToken) w2)
    = Ok (ValidateTokenResponse.mk false "" "" 0).
Proof.
  intros Hrt H w2. destruct (pair_signed _ _ _ _ _ _ _ Hrt H) as [Ha Hr].
  assert (Hna : forall t c, ~ verifies L (jwtManager s) t "refresh" accessToken c).
  { intros t c (Hs & _ & Ht). rewrite <- (signed_by_functional L _ _ _ _ Ha Hs) in Ht.
    discriminate. }
  assert (Hnr : forall t c, ~ verifies L (jwtManager s) t "access" refreshToken c).
  { intros t c (Hs & _ & Ht). rewrite <- (signed_by_functional L _ _ _ _ Hr Hs) in Ht.
    discriminate. }
  repeat split.
  - destruct (auth.Refresh L s (RefreshRequest.mk accessToken) w2) as [r w3] eqn:E.
    apply Refresh_cases in E. cbn [RefreshRequest.RefreshToken fst] in *.
    inversion E; subst; eauto. now destruct (Hna (instant w2 2) c).
  - destruct (auth.Logout L s (LogoutRequest.mk accessToken) w2) as [r w3] eqn:E.
    apply Logout_cases in E. cbn [LogoutRequest.RefreshToken fst] in *.
    inversion E; subst; try reflexivity; now destruct (Hna (instant w2 1) c).
  - destruct (auth.ValidateToken L s (ValidateTokenRequest.mk refreshToken) w2)
      as [r w3] eqn:E.
    apply ValidateToken_cases' in E. cbn [ValidateTokenRequest.Token fst] in *.
    inversion E; subst; try reflexivity; now destruct (Hnr (instant w2 1) c).
Qed.

(** X3.  On the tokens of a pair made by GenerateTokenPair neither
    ValidateToken nor Logout panics.  ValidateToken answers valid:true for
    the access token, with the user id and email of the pair, while its
    validator reads the clock at least a second before issuance plus the
    access TTL, and valid:false from issuance plus the TTL on; when the
    remaining lifetime is measured after the pair was issued, the
    ExpiresIn it reports is at most the TTL in whole seconds. *)
Theorem ValidateToken_on_issued_token (s : Server) (userID email : string) (w w' : World)
    (accessToken refreshToken : string) :
  round_trip L ->
  utils.GenerateTokenPair L (jwtManager s) userID email w
  = (Ok (accessToken, refreshToken), w') ->
  forall w2,
    fst (auth.ValidateToken L s (ValidateTokenRequest.mk accessToken) w2) <> Panic /\
    fst (auth.Logout L s (LogoutRequest.mk refreshToken) w2) <> Panic /\
    (instant w2 1 + Second <= instant w 1 + accessTokenTTL (jwtManager s) ->
     exists expiresIn,
       fst (auth.ValidateToken L s (ValidateTokenRequest.mk accessToken) w2)
       = Ok (ValidateTokenResponse.mk true userID email expiresIn) /\
       (instant w 1 <= instant w2 2 -> 0 <= accessTokenTTL (jwtManager s) ->
        expiresIn <= Seconds (accessTokenTTL (jwtManager s)))) /\
    (instant w 1 + accessTokenTTL (jwtManager s) <= instant w2 1 ->
     fst (auth.ValidateToken L s (ValidateTokenRequest.mk accessToken) w2)
     = Ok (ValidateTokenResponse.mk false "" "" 0)).
Proof.
  intros Hrt H w2. destruct (pair_signed _ _ _ _ _ _ _ Hrt H) as [Ha Hr].
  pose proof (NumericDate_floor (instant w 1 + accessTokenTTL (jwtManager s))) as Fa.
  destruct (auth.ValidateToken L s (ValidateTokenRequest.mk accessToken) w2)
    as [r w3] eqn:E.
  apply ValidateToken_cases' in E. cbn [ValidateTokenRequest.Token fst] in *.
  destruct (auth.Logout L s (LogoutRequest.mk refreshToken) w2) as [r' w3'] eqn:E'.
  apply Logout_cases in E'. cbn [LogoutRequest.RefreshToken fst] in *.
  split; [|split; [|split]].
  - inversion E as [| c [Hs _] He |]; subst; try discriminate.
    rewrite <- (signed_by_functional L _ _ _ _ Ha Hs) in He. discriminate.
  - inversion E' as [| c [Hs _] He | | |]; subst; try discriminate.
    rewrite <- (signed_by_functional L _ _ _ _ Hr Hs) in He. discriminate.
  - intros Ht.
    assert (Hv : verifies L (jwtManager s) (instant w2 1) "access" accessToken
                   (accessClaims_of (jwtManager s) userID email w)).
    { split; [exact Ha|]. split; [|reflexivity]. apply in_force_access. lia. }
    inversion E as [w4 Hn _| c Hv' He | c e Hv' He]; subst.
    + now destruct (Hn _ Hv).
    + rewrite <- (verifies_functional L _ _ _ _ _ _ _ _ Hv Hv') in He. discriminate.
    + rewrite <- (verifies_functional L _ _ _ _ _ _ _ _ Hv Hv') in *.
      injection He as <-. eexists. split; [reflexivity|].
      intros Hafter Httl. unfold Seconds, Second in *.
      apply Z.quot_le_mono; lia.
  - intros Ht. inversion E as [| c Hv He | c e Hv He]; subst; try reflexivity.
    + destruct Hv as (Hs & Hf & _).
      rewrite <- (signed_by_functional L _ _ _ _ Ha Hs) in Hf.
      apply in_force_access in Hf. lia.
    + destruct Hv as (Hs & Hf & _).
      rewrite <- (signed_by_functional L _ _ _ _ Ha Hs) in Hf.
      apply in_force_access in Hf. lia.
Qed.
End Lifetime.

(** ** Registration, sessions and the credential store *)

Section Sessions.
Context (L : Library).

Lemma NewUser_Ok email password name w user w' :
  models.NewUser L email password name w = (Ok user, w') ->
  User.Email user = email /\ User.Name user = name /\
  (exists salt, GenerateFromPassword L salt password = inr (User.PasswordHash user)).
Proof.
  unfold models.NewUser, bind, call, random_string, fail, ret.
  destruct (GenerateFromPassword L _ password) as [e|h] eqn:Hh; [discriminate|].
  rewrite !time_Now_unfold. intros [= <- _]. cbn [User.Email User.Name User.PasswordHash].
  eauto.
Qed.

(** Every way a call of Register can go: it fails before the credential
    store is written, or a principal is added and either the tail that
    issues the pair runs or the reply of the store is lost. *)
Lemma Register_cases s req w r w' :
  auth.Register L s req w = (r, w') ->
  ((exists e, r = Err e) /\ users w' = users w /\ redis w' = redis w) \/
  (exists user w2,
      existsb (UserRepository.has_email (RegisterRequest.Email req)) (users w) = false /\
      User.Email user = RegisterRequest.Email req /\
      User.Name user = RegisterRequest.Name req /\
      (exists salt,
          GenerateFromPassword L salt (RegisterRequest.Password req)
          = inr (User.PasswordHash user)) /\
      users w2 = (users w ++ [user])%list /\
      redis w2 = redis w /\
      (issue_run L s (User.ID user) (User.Email user)
         (Wrapf "failed to generate tokens") (Wrapf "failed to store refresh token")
         (IssueResponse_of s user) w2 r w' \/
       r = Err (Wrapf "failed to save user" ErrUnavailable) /\ w' = w2)).
Proof.
  intros H. unfold auth.Register in H.
  unfold bind at 1 in H. unfold or_return at 1 in H.
  rewrite ExistsByEmail_unfold in H.
  destruct (service_at w 0) eqn:Hs0;
    [|injection H as <- <-; left; rewrite users_arrive, redis_arrive; eauto..].
  destruct (existsb _ (users w)) eqn:Hex.
  { injection H as <- <-. left. rewrite users_arrive, redis_arrive. eauto. }
  unfold bind at 1 in H. unfold or_return at 1 in H.
  destruct (models.NewUser L _ _ _ (arrive w)) as [[user|e1|] w1] eqn:Hnew.
  2:{ injection H as <- <-. left.
      pose proof (NewUser_redis L _ _ _ _ _ _ Hnew) as Hr.
      apply NewUser_outcome in Hnew as (Hu & _).
      rewrite Hu, Hr, users_arrive, redis_arrive. eauto. }
  2:{ apply NewUser_outcome in Hnew as (_ & Hp & _). now destruct Hp. }
  pose proof (NewUser_redis L _ _ _ _ _ _ Hnew) as Hr1.
  pose proof (NewUser_Ok _ _ _ _ _ _ Hnew) as (Hemail & Hname & Hhash).
  apply NewUser_outcome in Hnew as (Hu1 & _).
  rewrite users_arrive in Hu1. rewrite redis_arrive in Hr1.
  unfold bind at 1 in H. unfold or_return at 1 in H.
  destruct (UserRepository.Create user w1) as [[[]|e2|] w2] eqn:Hcreate.
  - pose proof (Create_redis _ _ _ _ Hcreate) as Hr2. apply Create_served in Hcreate.
    change (issue L s (User.ID user) (User.Email user)
              (Wrapf "failed to generate tokens") (Wrapf "failed to store refresh token")
              (IssueResponse_of s user) w2 = (r, w')) in H.
    apply issue_cases in H. right. exists user, w2.
    split; [reflexivity|]. split; [assumption|]. split; [assumption|].
    split; [assumption|]. split; [congruence|]. split; [congruence|now left].
  - injection H as <- <-. pose proof (Create_redis _ _ _ _ Hcreate) as Hr2.
    unfold UserRepository.Create in Hcreate. rewrite request_unfold, users_arrive in Hcreate.
    destruct (service_at w1 0) eqn:Hs1,
      (existsb (UserRepository.clashes user) (users w1)) eqn:Hclash;
      try discriminate; injection Hcreate as <- Hw2;
      try (left; split; [eauto|]; rewrite <- Hw2, users_arrive; split; congruence).
    right. exists user, w2.
    split; [reflexivity|]. split; [assumption|]. split; [assumption|].
    split; [assumption|]. split; [|split; [congruence|now right]].
    rewrite <- Hw2. change (users (with_users ?x ?u)) with u. congruence.
  - exfalso. unfold UserRepository.Create in Hcreate. rewrite request_unfold in Hcreate.
    destruct (service_at w1 0), (existsb (UserRepository.clashes user) (users (arrive w1)));
      discriminate.
Qed.

Lemma find_appended email (l : list User.t) user :
  existsb (UserRepository.has_email email) l = false ->
  User.Email user = email ->
  find (UserRepository.has_email email) (l ++ [user]) = Some user.
Proof.
  intros Hex He. induction l as [|u l IH]; simpl in *.
  - unfold UserRepository.has_email. rewrite He, String.eqb_refl. reflexivity.
  - apply orb_false_elim in Hex as [-> Hex]. auto.
Qed.

Lemma issue_past_the_checks {R} s userID email f g (k : string * string -> R) w r w' :
  issue_run L s userID email (Wrapf f) (Wrapf g) k w r w' -> past_the_checks r f g.
Proof.
  intros [e w1 _|a rt _ _ _|rt _ _|rt _ _]; unfold past_the_checks; eauto.
Qed.

(** X4.  After a successful Register, a Login with the registered email
    and password gets past the credential check, provided the hash
    compares equal to the password it was made from, the credential store
    still holds the rows Register left and answers: the Login returns a
    response for the registered principal (same id, email and name), or
    fails while generating or storing the tokens, never with invalid
    credentials. *)
Theorem Register_then_Login (s : Server) (req : RegisterRequest.t) (w w1 : World)
    (resp : IssueResponse.t) :
  password_law L ->
  auth.Register L s req w = (Ok resp, w1) ->
  forall w2 r w3,
    users w2 = users w1 ->
    service_at w2 0 = Served ->
    auth.Login L s
      (LoginRequest.mk (RegisterRequest.Email req) (RegisterRequest.Password req)) w2
    = (r, w3) ->
    past_the_checks r "failed to generate tokens" "failed to store refresh token" /\
    forall resp2,
      r = Ok resp2 ->
      IssueResponse.UserId resp2 = IssueResponse.UserId resp /\
      IssueResponse.Email resp2 = RegisterRequest.Email req /\
      IssueResponse.Name resp2 = RegisterRequest.Name req.
Proof.
  intros Hlaw H w2 r w3 Hu Hs0 Hlogin.
  apply Register_cases in H
    as [([e [=]] & _)
       |(user & w' & Hex & Hemail & Hname & (salt & Hhash) & Hw' & _ & [Hi|[[=] _]])].
  pose proof (issue_users L _ _ _ _ _ _ _ _ _ Hi) as Hu1.
  apply issue_Ok in Hi as (a & rt & d & -> & _).
  assert (Hfind : principal w2 (RegisterRequest.Email req) = Some user).
  { unfold principal. rewrite Hu, Hu1, Hw'. now apply find_appended. }
  apply Login_cases in Hlogin. cbn [LoginRequest.Email LoginRequest.Password] in Hlogin.
  inversion Hlogin as [[Hn|Hn]|u ? Hp Hc|u r' w4 ? Hp Hc Hi2]; subst;
    cbn [LoginRequest.Email LoginRequest.Password] in *.
  - contradiction.
  - congruence.
  - rewrite Hfind in Hp. injection Hp as <-.
    unfold models.CheckPassword in Hc. rewrite (Hlaw _ _ _ Hhash) in Hc. discriminate.
  - rewrite Hfind in Hp. injection Hp as <-. split.
    + eapply issue_past_the_checks, Hi2.
    + intros resp2 ->. apply issue_Ok in Hi2 as (a2 & rt2 & d2 & -> & _).
      cbn [IssueResponse_of IssueResponse.UserId IssueResponse.Email IssueResponse.Name].
      auto.
Qed.

Lemma users_checked w : users (checked w) = users w.
Proof. unfold checked. now rewrite users_arrive, users_elapse, users_arrive. Qed.

Lemma users_measured w : users (measured w) = users w.
Proof. unfold measured. now rewrite !users_elapse. Qed.

Lemma redis_measured w : redis (measured w) = redis w.
Proof. unfold measured. now rewrite !redis_elapse. Qed.

Lemma instant_measured w n : instant (measured w) n = instant w (S (S n)).
Proof. unfold measured. now rewrite !instant_elapse. Qed.

(** What Logout does to the two stores, on every path. *)
Lemma Logout_stores s req w r w' :
  auth.Logout L s req w = (r, w') ->
  users w' = users w /\
  forall key,
    key <> "blacklist:" +:+ LogoutRequest.RefreshToken req ->
    (forall c,
        signed_by L (secret (jwtManager s)) (LogoutRequest.RefreshToken req) c ->
        key <> "refresh:" +:+ TokenClaims.UserID c) ->
    redis w' !! key = redis w !! key.
Proof.
  set (T := LogoutRequest.RefreshToken req). intros H.
  unfold auth.Logout in H. fold T in H. unfold on_error in H.
  destruct (ValidateRefreshToken_cases L (jwtManager s) T w)
    as [(c & Hv & Hrun)|(e & w1 & Hn & Hrun & Hw1)];
    rewrite Hrun in H.
  2:{ injection H as <- <-.
      destruct Hw1 as [->| ->]; rewrite ?users_elapse, ?redis_elapse; auto. }
  unfold auth.ExpiresAt_Time, bind, or_return, ret, panic in H.
  destruct (TokenClaims.ExpiresAt c) as [e|] eqn:He.
  2:{ injection H as <- <-. rewrite users_elapse, redis_elapse. auto. }
  rewrite time_Until_unfold, instant_elapse in H. fold (measured w) in H.
  assert (Hkey : forall key,
             (forall c, signed_by L (secret (jwtManager s)) T c ->
                        key <> "refresh:" +:+ TokenClaims.UserID c) ->
             key <> "refresh:" +:+ TokenClaims.UserID c)
    by (intros key Hk; apply Hk, Hv).
  destruct (0 <? Time e - instant w 2) eqn:Hrem.
  - rewrite Set_unfold, service_at_measured in H.
    destruct (service_at w 0) eqn:Hs0.
    + rewrite Del_unfold, service_at_written, service_at_measured in H.
      destruct (service_at w 1) eqn:Hs1; injection H as <- <-;
        rewrite ?users_deleted, ?users_arrive, ?users_written, users_measured;
        (split; [reflexivity|]); intros key Hb Hr;
        rewrite ?redis_deleted, ?redis_arrive, redis_written, redis_measured;
        rewrite ?lookup_delete_ne by (apply not_eq_sym, Hkey, Hr);
        now rewrite lookup_insert_ne by now apply not_eq_sym.
    + injection H as <- <-. rewrite users_arrive, redis_arrive, users_measured, redis_measured.
      auto.
    + injection H as <- <-. rewrite users_written, redis_written, users_measured, redis_measured.
      split; [reflexivity|]. intros key Hb Hr.
      now rewrite lookup_insert_ne by now apply not_eq_sym.
  - rewrite Del_unfold, service_at_measured in H.
    destruct (service_at w 0) eqn:Hs0; injection H as <- <-;
      rewrite ?users_deleted, ?users_arrive, ?redis_deleted, ?redis_arrive,
        users_measured, ?redis_measured;
      (split; [reflexivity|]); intros key Hb Hr; try reflexivity;
      now rewrite lookup_delete_ne by (apply not_eq_sym, Hkey, Hr).
Qed.

(** X5.  Only Register writes the credential store, and it adds at most
    one row: the row carries the requested email, which no row held
    before, and as its password hash the output of the hash function on
    the requested password.  Login, Refresh, ValidateToken and Logout
    leave the store as it is, whatever their outcome. *)
Theorem credential_store_written_by_Register_only (s : Server) (w : World) :
  (forall req,
      let w' := snd (auth.Register L s req w) in
      users w' = users w \/
      exists user,
        users w' = (users w ++ [user])%list /\
        User.Email user = RegisterRequest.Email req /\
        Forall (fun u => User.Email u <> RegisterRequest.Email req) (users w) /\
        exists salt,
          GenerateFromPassword L salt (RegisterRequest.Password req)
          = inr (User.PasswordHash user)) /\
  (forall req, users (snd (auth.Login L s req w)) = users w) /\
  (forall req, users (snd (auth.Refresh L s req w)) = users w) /\
  (forall req, users (snd (auth.ValidateToken L s req w)) = users w) /\
  (forall req, users (snd (auth.Logout L s req w)) = users w).
Proof.
  repeat split.
  - intros req. destruct (auth.Register L s req w) as [r w'] eqn:E. cbn [snd].
    apply Register_cases in E
      as [(_ & Hu & _)|(user & w2 & Hex & Hemail & _ & Hhash & Hw2 & _ & Hi)]; [now left|].
    right. exists user.
    assert (Hw' : users w' = users w2)
      by (destruct Hi as [Hi|[_ ->]]; [now apply issue_users in Hi|reflexivity]).
    split; [congruence|]. split; [assumption|]. split; [|assumption].
    apply List.Forall_forall. intros u Hin Hu.
    assert (Ht : existsb (UserRepository.has_email (RegisterRequest.Email req)) (users w)
                 = true).
    { apply existsb_exists. exists u. split; [assumption|].
      unfold UserRepository.has_email. now apply String.eqb_eq. }
    congruence.
  - intros req. destruct (auth.Login L s req w) as [r w'] eqn:E. cbn [snd].
    apply Login_cases in E. destruct E as [| |user r w' _ _ _ Hi]; rewrite ?users_arrive; auto.
    apply issue_users in Hi. now rewrite Hi, users_arrive.
  - intros req. destruct (auth.Refresh L s req w) as [r w'] eqn:E. cbn [snd].
    apply Refresh_cases in E.
    destruct E as [| |e w1 _ _ _ [Hu _]| | |c r w1 _ _ _ _ _ Hi];
      rewrite ?users_arrive, ?users_checked; auto.
    apply issue_users in Hi. now rewrite Hi, users_checked.
  - intros req. destruct (auth.ValidateToken L s req w) as [r w'] eqn:E. cbn [snd].
    apply ValidateToken_cases' in E.
    destruct E as [w1 _ [->| ->]| |]; now rewrite ?users_measured, ?users_elapse.
  - intros req. destruct (auth.Logout L s req w) as [r w'] eqn:E. cbn [snd].
    now apply Logout_stores in E.
Qed.

(** X6.  Logout, whatever its outcome, changes no key of Redis other than
    the deny-list entry of the token it was given and the session of the
    principal that token names. *)
Theorem Logout_touches_two_keys (s : Server) (T : string) (w : World) (key : string) :
  key <> "blacklist:" +:+ T ->
  (forall c, signed_by L (secret (jwtManager s)) T c ->
             key <> "refresh:" +:+ TokenClaims.UserID c) ->
  redis (snd (auth.Logout L s (LogoutRequest.mk T) w)) !! key = redis w !! key.
Proof.
  intros Hb Hr. destruct (auth.Logout L s (LogoutRequest.mk T) w) as [r w'] eqn:E.
  apply Logout_stores in E as [_ E]. now apply E.
Qed.
End Sessions.

(** ** How long the entries of Redis live *)

Section Expiry.
Context (L : Library).

Lemma instant_le_2 w n : instant w n <= instant w (S (S n)).
Proof. pose proof (instant_mono w n). pose proof (instant_mono w (S n)). lia. Qed.

(** With an expiration of whole milliseconds, the entry [Set] writes at
    instant [t] is alive at every instant before [t] plus the expiration. *)
Lemma new_deadline_alive r t key val expiration t' :
  expiration mod Millisecond = 0 ->
  t' < t + expiration \/ expiration <= 0 ->
  alive t' (mkEntry val (new_deadline r t key expiration)) = true.
Proof.
  unfold alive, new_deadline, KeepTTL, Millisecond. cbn [deadline]. intros Hms Ht.
  destruct (0 <? expiration) eqn:Hpos.
  - apply Z.ltb_lt in Hpos. apply Z.ltb_lt.
    destruct (expiration <? 1000000) eqn:Hsmall.
    + apply Z.ltb_lt in Hsmall. rewrite Z.mod_small in Hms by lia. lia.
    + apply Z.ltb_ge in Hsmall. revert Hms. Z.div_mod_to_equations. lia.
  - destruct (expiration =? -1) eqn:Hkeep; [|reflexivity].
    apply Z.eqb_eq in Hkeep. subst expiration. discriminate.
Qed.

(** The session the issuing tail stores is alive whenever the refresh
    token it stores is in force. *)
Lemma session_alive {R} (cfg : Config) userID email f g (k : string * string -> R) w x w' :
  RefreshTokenTTL (JWT cfg) mod Millisecond = 0 ->
  issue_run L (auth.NewServer cfg) userID email f g k w (Ok x) w' ->
  exists a rt,
    x = k (a, rt) /\
    SignedString L HS256
      (refreshClaims_of (jwtManager (auth.NewServer cfg)) userID email w)
      (Secret (JWT cfg)) = inr rt /\
    forall t,
      in_force t (refreshClaims_of (jwtManager (auth.NewServer cfg)) userID email w) ->
      activeRefresh (redis w') t userID = Some rt.
Proof.
  intros Hms H. inversion H as [| a rt Ha Hrt Hs | |]; subst.
  exists a, rt. split; [reflexivity|]. split; [exact Hrt|].
  intros t Hf. apply in_force_refresh in Hf.
  unfold activeRefresh, lookup_at, session_written.
  rewrite redis_written, lookup_insert_eq. cbn [value].
  rewrite new_deadline_alive; [reflexivity|exact Hms|].
  rewrite !instant_after_claims.
  cbn [auth.NewServer jwtManager utils.NewJWTManager refreshTokenTTL config] in *.
  pose proof (NumericDate_floor (instant w 3 + RefreshTokenTTL (JWT cfg))).
  pose proof (instant_le_2 w 3). left. lia.
Qed.

(** X7.  On a server built by NewServer whose refresh TTL is a whole
    number of milliseconds, the session that a successful Login, Register
    or Refresh stores holds the refresh token of the response at every
    instant at which that token verifies: the session entry does not
    expire before the token it holds. *)
Theorem session_outlives_refresh_token (cfg : Config) (w w1 : World) :
  round_trip L ->
  RefreshTokenTTL (JWT cfg) mod Millisecond = 0 ->
  let s := auth.NewServer cfg in
  (forall req resp,
      auth.Login L s req w = (Ok resp, w1) ->
      forall t c,
        verifies L (jwtManager s) t "refresh" (IssueResponse.RefreshToken resp) c ->
        activeRefresh (redis w1) t (TokenClaims.UserID c)
        = Some (IssueResponse.RefreshToken resp)) /\
  (forall req resp,
      auth.Register L s req w = (Ok resp, w1) ->
      forall t c,
        verifies L (jwtManager s) t "refresh" (IssueResponse.RefreshToken resp) c ->
        activeRefresh (redis w1) t (TokenClaims.UserID c)
        = Some (IssueResponse.RefreshToken resp)) /\
  (forall req resp,
      auth.Refresh L s req w = (Ok resp, w1) ->
      forall t c,
        verifies L (jwtManager s) t "refresh" (RefreshResponse.RefreshToken resp) c ->
        activeRefresh (redis w1) t (TokenClaims.UserID c)
        = Some (RefreshResponse.RefreshToken resp)).
Proof.
  intros Hrt Hms s.
  assert (Hgen : forall {R} userID email f g (k : string * string -> R) w0 x t c,
             issue_run L s userID email f g k w0 (Ok x) w1 ->
             forall rt, (forall a rt', x = k (a, rt') -> rt' = rt) ->
             verifies L (jwtManager s) t "refresh" rt c ->
             activeRefresh (redis w1) t (TokenClaims.UserID c) = Some rt).
  { intros R userID email f g k w0 x t c Hi rt Hk (Hs & Hf & _).
    apply (session_alive cfg) in Hi as (a & rt' & Hx & Hsig & Hal); [|exact Hms].
    specialize (Hk _ _ Hx). subst rt'.
    apply round_trip_signed_by in Hsig; [|exact Hrt].
    rewrite <- (signed_by_functional L _ _ _ _ Hsig Hs) in *. now apply Hal. }
  repeat split.
  - intros req resp H t c Hv. apply Login_cases in H.
    inversion H as [| |u ? ? _ _ _ Hi]; subst.
    eapply Hgen; [exact Hi| |exact Hv].
    intros a rt' ->. reflexivity.
  - intros req resp H t c Hv.
    apply Register_cases in H as [([e [=]] & _)|(u & w2 & _ & _ & _ & _ & _ & _ & [Hi|[[=] _]])].
    eapply Hgen; [exact Hi| |exact Hv].
    intros a rt' ->. reflexivity.
  - intros req resp H t c Hv. apply Refresh_cases in H.
    inversion H as [| | | | |c0 ? ? _ _ _ _ _ Hi]; subst.
    eapply Hgen; [exact Hi| |exact Hv].
    intros a rt' ->. reflexivity.
Qed.

(** X8.  On such a server the refresh token a successful Login returns is
    accepted by the next Refresh: when Redis still holds what the Login
    left and answers both lookups, the token is not on the deny-list and
    is still in force when the session lookup is answered, Refresh passes
    its four checks; it returns a new pair or fails while generating or
    storing it. *)
Theorem Login_then_Refresh (cfg : Config) (req : LoginRequest.t) (w w1 : World)
    (resp : IssueResponse.t) :
  round_trip L ->
  RefreshTokenTTL (JWT cfg) mod Millisecond = 0 ->
  let s := auth.NewServer cfg in
  let T := IssueResponse.RefreshToken resp in
  auth.Login L s req w = (Ok resp, w1) ->
  forall w2 r w3,
    redis w2 = redis w1 ->
    service_at w2 0 = Served ->
    service_at w2 1 = Served ->
    ~ revoked (redis w2) (instant w2 1) T ->
    (forall c, signed_by L (secret (jwtManager s)) T c -> in_force (instant w2 3) c) ->
    auth.Refresh L s (RefreshRequest.mk T) w2 = (r, w3) ->
    past_the_checks r "failed to generate new tokens" "failed to save new refresh token".
Proof.
  intros Hrt Hms s T H w2 r w3 Hredis Hs0 Hs1 Hnr Hforce Hrefresh. subst s.
  apply Login_cases in H. inversion H as [| |u ? ? _ _ _ Hi]; subst.
  apply (session_alive cfg) in Hi as (a & rt & Hx & Hsig & Hal); [|exact Hms].
  assert (HT : T = rt) by (unfold T; rewrite Hx; reflexivity).
  clearbody T. subst T.
  apply round_trip_signed_by in Hsig; [|exact Hrt].
  specialize (Hforce _ Hsig).
  assert (Hv : verifies L (jwtManager (auth.NewServer cfg)) (instant w2 2) "refresh" rt
                 (refreshClaims_of (jwtManager (auth.NewServer cfg)) (User.ID u)
                    (User.Email u) (arrive w))).
  { split; [exact Hsig|]. split; [|reflexivity].
    apply in_force_refresh. apply in_force_refresh in Hforce.
    pose proof (instant_mono w2 2). lia. }
  specialize (Hal _ Hforce). rewrite <- Hredis in Hal.
  apply Refresh_cases in Hrefresh. cbn [RefreshRequest.RefreshToken] in Hrefresh.
  inversion Hrefresh as [Hn|? Hr|e w4 _ _ Hn _|c e _ _ Hv' Hn|c stored _ _ Hv' _ Hact Hne
                        |c r' w4 _ _ Hv' _ Hact Hi2]; subst.
  - contradiction.
  - contradiction.
  - now destruct (Hn _ Hv).
  - rewrite <- (verifies_functional L _ _ _ _ _ _ _ _ Hv Hv') in Hn.
    cbn [refreshClaims_of TokenClaims.UserID] in Hn.
    destruct Hn as [Hn|Hn]; [contradiction|congruence].
  - rewrite <- (verifies_functional L _ _ _ _ _ _ _ _ Hv Hv') in Hact.
    cbn [refreshClaims_of TokenClaims.UserID] in Hact. congruence.
  - eapply issue_past_the_checks, Hi2.
Qed.



(** X10.  A successful Logout ends the session of the principal its token
    names: afterwards that principal has no session, and a Refresh with
    any refresh token that names the same principal fails, until a Login,
    Register or Refresh stores a session again. *)
Theorem Logout_ends_session (s : Server) (T : string) (w w1 : World) :
  auth.Logout L s (LogoutRequest.mk T) w = (Ok (LogoutResponse.mk true), w1) ->
  exists c,
    signed_by L (secret (jwtManager s)) T c /\
    (forall t, activeRefresh (redis w1) t (TokenClaims.UserID c) = None) /\
    forall T' c' w2 r w3,
      signed_by L (secret (jwtManager s)) T' c' ->
      TokenClaims.UserID c' = TokenClaims.UserID c ->
      redis w2 !! ("refresh:" +:+ TokenClaims.UserID c) = None ->
      auth.Refresh L s (RefreshRequest.mk T') w2 = (r, w3) ->
      exists e, r = Err e.
Proof.
  intros H. apply Logout_cases in H. cbn [LogoutRequest.RefreshToken] in H.
  assert (Hgone : forall c w0,
             w1 = deleted w0 ("refresh:" +:+ TokenClaims.UserID c) ->
             forall t, activeRefresh (redis w1) t (TokenClaims.UserID c) = None).
  { intros c w0 -> t. unfold activeRefresh, lookup_at.
    now rewrite redis_deleted, lookup_delete_eq. }
  assert (Hfails : forall c T' c' w2 r w3,
             signed_by L (secret (jwtManager s)) T' c' ->
             TokenClaims.UserID c' = TokenClaims.UserID c ->
             redis w2 !! ("refresh:" +:+ TokenClaims.UserID c) = None ->
             auth.Refresh L s (RefreshRequest.mk T') w2 = (r, w3) ->
             exists e, r = Err e).
  { intros c T' c' w2 r w3 Hs Hid Hnone Hr. apply Refresh_cases in Hr.
    cbn [RefreshRequest.RefreshToken] in Hr.
    inversion Hr as [| | | | |c2 ? ? _ _ Hv _ Hact _]; subst; eauto.
    rewrite <- (signed_by_functional L _ _ _ _ Hs (proj1 Hv)) in Hact.
    unfold activeRefresh, lookup_at in Hact. rewrite Hid, Hnone in Hact. discriminate. }
  inversion H as [|c Hv He|c e Hv He Hle|c e Hv He Hlt|]; subst;
    exists c; (split; [exact (proj1 Hv)|]); (split; [eapply Hgone; reflexivity|apply Hfails]).
Qed.
End Expiry.

(** ** Splitting, joining and the stored form of tags *)

Lemma free_of_app c a b : free_of c (a +:+ b) = free_of c a && free_of c b.
Proof.
  unfold free_of. induction a as [|x a IH]; simpl; [reflexivity|].
  now rewrite IH, andb_assoc.
Qed.

Lemma Cut_None s sep : strings.Cut s sep = None <-> free_of sep s = true.
Proof.
  unfold free_of. induction s as [|c s IH]; simpl; [tauto|].
  destruct (Ascii.eqb c sep); simpl; [split; discriminate|].
  destruct (strings.Cut s sep) as [[a b]|]; [|tauto].
  split; [discriminate|]. intros H. apply IH in H. discriminate.
Qed.

Lemma Cut_app a b sep :
  free_of sep a = true -> strings.Cut (a +:+ String sep b) sep = Some (a, b).
Proof.
  unfold free_of. induction a as [|c a IH]; simpl.
  - now rewrite Ascii.eqb_refl.
  - intros H. apply andb_prop in H as [Hc Ha]. apply negb_true_iff in Hc.
    now rewrite Hc, IH.
Qed.

(** What [Cut] returns puts the string back together, and the part
    before the separator holds none. *)
Lemma Cut_Some s sep a b :
  strings.Cut s sep = Some (a, b) -> s = a +:+ String sep b /\ free_of sep a = true.
Proof.
  unfold free_of. revert a. induction s as [|c s IH]; simpl; [discriminate|].
  intros a. destruct (Ascii.eqb c sep) eqn:Hc.
  - intros [= <- <-]. apply Ascii.eqb_eq in Hc. now subst.
  - destruct (strings.Cut s sep) as [[a' b']|]; [|discriminate].
    intros [= <- <-]. destruct (IH a' eq_refl) as [-> Hf].
    simpl. now rewrite Hc, Hf.
Qed.

Lemma Cut_free s sep a b c :
  strings.Cut s sep = Some (a, b) -> free_of c s = true ->
  free_of c a = true /\ free_of c b = true.
Proof.
  intros H Hs. apply Cut_Some in H as [-> _].
  rewrite free_of_app in Hs. apply andb_prop in Hs as [Ha Hb].
  split; [assumption|]. unfold free_of in *. simpl in Hb. now apply andb_prop in Hb.
Qed.

Lemma length_app (a b : string) : String.length (a +:+ b) = (String.length a + String.length b)%nat.
Proof. induction a as [|c a IH]; simpl; [reflexivity|now rewrite IH]. Qed.

(** With enough fuel every piece is free of the separator. *)
Lemma pieces_free n s sep :
  (String.length s <= n)%nat -> Forall (fun p => free_of sep p = true) (strings.pieces n s sep).
Proof.
  revert s. induction n as [|n IH]; intros s Hn; simpl.
  - destruct s; [|simpl in Hn; lia]. now repeat constructor.
  - destruct (strings.Cut s sep) as [[a b]|] eqn:Hc.
    + pose proof (Cut_Some _ _ _ _ Hc) as [-> Ha]. constructor; [exact Ha|].
      apply IH. rewrite length_app in Hn. simpl in Hn. lia.
    + constructor; [now apply Cut_None|constructor].
Qed.

(** Splitting what [Join] made gives the pieces back, when none of them
    holds the separator. *)
Lemma pieces_Join parts sep n :
  parts <> [] ->
  Forall (fun p => free_of sep p = true) parts ->
  (length parts <= S n)%nat ->
  strings.pieces n (strings.Join parts (String sep "")) sep = parts.
Proof.
  revert n. induction parts as [|a parts IH]; intros n Hne Hfree Hn; [contradiction|].
  apply Forall_cons in Hfree as [Ha Hfree].
  destruct parts as [|b parts].
  - simpl. destruct n; simpl; [reflexivity|].
    apply Cut_None in Ha. now rewrite Ha.
  - change (strings.Join (a :: b :: parts) (String sep ""))
      with (a +:+ String sep "" +:+ strings.Join (b :: parts) (String sep "")).
    change (a +:+ String sep "" +:+ ?x) with (a +:+ String sep x).
    destruct n as [|n]; [simpl in Hn; lia|].
    simpl strings.pieces. rewrite Cut_app by exact Ha.
    f_equal. apply IH; [discriminate|assumption|simpl in *; lia].
Qed.

Lemma length_Join parts sep :
  (length parts <= S (String.length (strings.Join parts (String sep ""))))%nat.
Proof.
  induction parts as [|a [|b parts] IH]; [simpl; lia..|].
  change (strings.Join (a :: b :: parts) (String sep ""))
    with (a +:+ String sep "" +:+ strings.Join (b :: parts) (String sep "")).
  rewrite !length_app. change (String.length (String sep "")) with 1%nat.
  cbn [List.length] in *. lia.
Qed.

Lemma Split_Join parts :
  parts <> [] ->
  Forall (fun p => free_of ","%char p = true) parts ->
  strings.Split (strings.Join parts ",") ","%char = parts.
Proof.
  intros Hne Hfree. unfold strings.Split, strings.SplitN. simpl.
  apply pieces_Join; [assumption|assumption|apply length_Join].
Qed.

Lemma SplitN_entry k v :
  free_of "="%char k = true -> strings.SplitN (k +:+ "=" +:+ v) "="%char 2 = [k; v].
Proof.
  intros Hk. unfold strings.SplitN. simpl.
  change (k +:+ "=" +:+ v) with (k +:+ String "="%char v).
  now rewrite Cut_app.
Qed.

Lemma SplitN_two part k v :
  strings.SplitN part "="%char 2 = [k; v] ->
  strings.Cut part "="%char = Some (k, v).
Proof.
  unfold strings.SplitN. simpl.
  destruct (strings.Cut part "="%char) as [[a b]|]; [|discriminate].
  now intros [= <- <-].
Qed.

Lemma parseTags_unfold tags :
  parseTags tags =
  if String.eqb tags "" then ∅ else fold_left parse_step (strings.Split tags ","%char) ∅.
Proof. reflexivity. Qed.

Lemma storable_empty : storable ∅.
Proof. intros k v H. now rewrite lookup_empty in H. Qed.

Lemma storable_insert m k v :
  storable m ->
  free_of ","%char k = true -> free_of "="%char k = true -> free_of ","%char v = true ->
  storable (<[k := v]> m).
Proof.
  intros Hm Hk1 Hk2 Hv k' v' H. destruct (decide (k = k')) as [<-|Hne].
  - rewrite lookup_insert_eq in H. injection H as <-. auto.
  - rewrite lookup_insert_ne in H by assumption. now apply Hm.
Qed.

Lemma parse_step_storable m part :
  storable m -> free_of ","%char part = true -> storable (parse_step m part).
Proof.
  intros Hm Hp. unfold parse_step.
  destruct (strings.SplitN part "="%char 2) as [|k [|v [|? ?]]] eqn:Hs; try assumption.
  apply SplitN_two in Hs.
  destruct (Cut_free _ _ _ _ _ Hs Hp) as [Hk Hv].
  apply Cut_Some in Hs as [_ Hk']. now apply storable_insert.
Qed.

Lemma fold_parse_storable parts m :
  storable m ->
  Forall (fun p => free_of ","%char p = true) parts ->
  storable (fold_left parse_step parts m).
Proof.
  revert m. induction parts as [|p parts IH]; intros m Hm Hf; simpl; [assumption|].
  apply Forall_cons in Hf as [Hp Hf]. apply IH; [|assumption].
  now apply parse_step_storable.
Qed.

(** Whatever the stored text is, the tags read from it are storable. *)
Lemma parseTags_storable tags : storable (parseTags tags).
Proof.
  rewrite parseTags_unfold. destruct (String.eqb tags ""); [apply storable_empty|].
  apply fold_parse_storable; [apply storable_empty|].
  unfold strings.Split, strings.SplitN. simpl. now apply pieces_free.
Qed.

Lemma range_Permutation order m : range order m ≡ₚ map_to_list m.
Proof.
  unfold range. symmetry. apply permutations_Permutation.
  destruct (nth_in_or_default order (permutations (map_to_list m)) (map_to_list m)) as [H| ->].
  - now apply list_elem_of_In.
  - apply permutations_refl.
Qed.

Lemma fold_parse_entries (l : list (string * string)) m :
  Forall (fun kv => free_of "="%char (fst kv) = true) l ->
  fold_left parse_step (map (fun kv => fst kv +:+ "=" +:+ snd kv) l) m =
  fold_left (fun m kv => <[fst kv := snd kv]> m) l m.
Proof.
  revert m. induction l as [|[k v] l IH]; intros m Hf; simpl; [reflexivity|].
  apply Forall_cons in Hf as [Hk Hf]. simpl in Hk.
  unfold parse_step at 2. rewrite SplitN_entry by assumption. now apply IH.
Qed.

Lemma fold_insert_list_to_map (l : list (string * string)) :
  fold_left (fun m kv => <[fst kv := snd kv]> m) l (∅ : gmap string string)
  = list_to_map (rev l).
Proof.
  rewrite <- fold_left_rev_right. generalize (rev l). intros l'.
  induction l' as [|[k v] l' IH]; simpl; [reflexivity|]. now rewrite IH.
Qed.

Lemma Join_nonempty (l : list (string * string)) :
  l <> [] ->
  String.eqb (strings.Join (map (fun kv => fst kv +:+ "=" +:+ snd kv) l) ",") "" = false.
Proof.
  destruct l as [|[k v] l]; [contradiction|]. intros _.
  apply String.eqb_neq. intros H.
  assert (Hlen : String.length
            (strings.Join (map (fun kv => fst kv +:+ "=" +:+ snd kv) ((k, v) :: l)) ",") = O)
    by now rewrite H.
  destruct l as [|kv l]; simpl in Hlen; rewrite !length_app in Hlen; simpl in Hlen; lia.
Qed.

(** Storable tags come back from their stored form. *)
Lemma parseTags_formatTags order tags :
  storable tags -> parseTags (formatTags order tags) = tags.
Proof.
  intros Hst. unfold formatTags. rewrite parseTags_unfold.
  pose proof (range_Permutation order tags) as Hperm.
  destruct (range order tags) as [|kv l] eqn:Hl.
  - simpl. symmetry. apply map_to_list_empty_iff.
    now apply Permutation_nil.
  - rewrite <- Hl in *. assert (Hne : range order tags <> []) by (rewrite Hl; discriminate).
    clear Hl kv l.
    assert (Hall : Forall (fun kv => free_of ","%char (fst kv) = true /\
                                    free_of "="%char (fst kv) = true /\
                                    free_of ","%char (snd kv) = true)
                         (range order tags)).
    { apply Forall_forall. intros [k v] Hin. apply Hst.
      apply elem_of_map_to_list. now rewrite <- Hperm. }
    rewrite Join_nonempty by assumption.
    rewrite Split_Join.
    + rewrite fold_parse_entries, fold_insert_list_to_map.
      * rewrite <- (list_to_map_to_list tags) at 2. symmetry.
        apply list_to_map_proper; [apply NoDup_fst_map_to_list|].
        rewrite <- Hperm. apply Permutation_rev.
      * eapply Forall_impl; [exact Hall|]. intros [k v] (_ & H & _). exact H.
    + intros H. apply map_eq_nil in H. contradiction.
    + apply Forall_fmap. eapply Forall_impl; [exact Hall|].
      intros [k v] (Hk & _ & Hv). unfold compose. cbn [fst snd] in *.
      rewrite !free_of_app, Hk, Hv. reflexivity.
Qed.

(** X11.  Tags survive being stored and read back exactly when they are
    storable: whatever order the map is visited in, parseTags gives back
    the map formatTags was applied to if and only if no key holds a comma
    or an equals sign and no value holds a comma. *)
Theorem tags_round_trip (order : nat) (tags : gmap string string) :
  parseTags (formatTags order tags) = tags <-> storable tags.
Proof.
  split.
  - intros <-. apply parseTags_storable.
  - apply parseTags_formatTags.
Qed.

(** ** The metadata service *)

Lemma statement_unfold {A} (reply : Cloud -> result A) (effect : Cloud -> Cloud) c :
  statement reply effect c =
  match service_at (world c) 0 with
  | Served => (reply (arrived c), effect (arrived c))
  | Refused => (Err ErrUnavailable, arrived c)
  | Lost => (Err ErrUnavailable, effect (arrived c))
  end.
Proof.
  unfold statement, arrived, arrive, service_at, next_service.
  rewrite <- (services_elapse (world c)).
  destruct (services (elapse (world c))) as [|[] ss]; reflexivity.
Qed.

Lemma files_arrived c : files (arrived c) = files c.
Proof. reflexivity. Qed.

Lemma GetByID_unfold id c :
  FileRepository.GetByID id c =
  match service_at (world c) 0 with
  | Served =>
      (match find (FileRepository.has_id id) (files c) with
       | Some row => Ok (FileRepository.file_of row)
       | None => Err (Errorf "file not found")
       end, arrived c)
  | _ => (Err (Wrapf "failed to get file by id" ErrUnavailable), arrived c)
  end.
Proof.
  unfold FileRepository.GetByID. rewrite statement_unfold, files_arrived.
  destruct (service_at (world c) 0); try reflexivity.
  now destruct (find _ (files c)).
Qed.

Lemma find_has_id id rows row :
  find (FileRepository.has_id id) rows = Some row -> In row rows /\ FileRow.id row = id.
Proof.
  intros H. apply find_some in H as [Hin Hid]. split; [assumption|].
  now apply String.eqb_eq.
Qed.

(** Every way a call of GetMetadata can go. *)
Lemma GetMetadata_run req c r c' :
  metadata.GetMetadata req c = (r, c') ->
  files c' = files c /\
  forall resp,
    r = Ok resp ->
    exists row,
      find (FileRepository.has_id (GetMetadataRequest.Id req)) (files c) = Some row /\
      may_read (GetMetadataRequest.UserId req) row /\
      MetadataResponse.Metadata resp
      = metadata.convertToProto (FileRepository.file_of row).
Proof.
  unfold metadata.GetMetadata, then_, or_else, raise, unit_. rewrite GetByID_unfold.
  destruct (service_at (world c) 0);
    try (intros [= <- <-]; split; [reflexivity|discriminate]).
  destruct (find _ (files c)) as [row|] eqn:Hfind;
    [|intros [= <- <-]; split; [reflexivity|discriminate]].
  cbn [FileRepository.file_of File.UserID File.IsPublic].
  destruct (String.eqb (FileRow.user_id row) (GetMetadataRequest.UserId req)) eqn:Hown;
    destruct (FileRow.is_public row) eqn:Hpub; cbn [negb andb];
    intros [= <- <-]; (split; [reflexivity|]); try discriminate;
    intros resp [= <-]; exists row; (split; [reflexivity|]); (split; [|reflexivity]).
  - now left.
  - right. now apply String.eqb_eq.
  - now left.
Qed.

(** X12.  GetMetadata answers only with a file the requesting user may
    read: the row of the table that carries the requested id, when it is
    public or belongs to the user named in the request.  Whatever the
    outcome, it leaves the table as it is. *)
Theorem GetMetadata_readable_only (req : GetMetadataRequest.t) (c : Cloud) :
  let run := metadata.GetMetadata req c in
  files (snd run) = files c /\
  forall resp,
    fst run = Ok resp ->
    exists row,
      find (FileRepository.has_id (GetMetadataRequest.Id req)) (files c) = Some row /\
      may_read (GetMetadataRequest.UserId req) row /\
      MetadataResponse.Metadata resp
      = metadata.convertToProto (FileRepository.file_of row).
Proof. cbv zeta. apply GetMetadata_run. apply surjective_pairing. Qed.

Lemma next_order_unfold c : next_order c = (Ok (order_of c), ordered c).
Proof. unfold next_order, order_of, ordered. destruct c as [w f [|o os]]; reflexivity. Qed.

Lemma lift_unfold {A} (m : M A) c :
  lift m c = (fst (m (world c)), with_world c (snd (m (world c)))).
Proof. unfold lift. now destruct (m (world c)). Qed.

Lemma Update_unfold file c :
  FileRepository.Update file c =
  let tags := formatTags (order_of c) (File.Tags file) in
  let hit := FileRepository.owned (File.ID file) (File.UserID file) in
  let rows :=
    map (fun row => if hit row then FileRepository.updated file tags row else row) (files c) in
  match service_at (world c) 0 with
  | Served =>
      (if Z.of_nat (length (List.filter hit (files c))) =? 0
       then Err (Errorf "file not found or access denied")
       else Ok tt,
       with_files (arrived (ordered c)) rows)
  | Refused => (Err (Wrapf "failed to update file" ErrUnavailable), arrived (ordered c))
  | Lost =>
      (Err (Wrapf "failed to update file" ErrUnavailable),
       with_files (arrived (ordered c)) rows)
  end.
Proof.
  unfold FileRepository.Update, then_, or_else, raise, unit_.
  rewrite next_order_unfold, statement_unfold.
  change (world (ordered c)) with (world c).
  change (files (arrived (ordered c))) with (files c).
  destruct (service_at (world c) 0); try reflexivity.
  cbv zeta. now destruct (Z.of_nat _ =? 0).
Qed.

Lemma Delete_unfold id userID c :
  FileRepository.Delete id userID c =
  let rows := List.filter (fun row => negb (FileRepository.owned id userID row)) (files c) in
  match service_at (world c) 0 with
  | Served =>
      (if Z.of_nat (length (List.filter (FileRepository.owned id userID) (files c))) =? 0
       then Err (Errorf "file not found or access denied")
       else Ok tt,
       with_files (arrived c) rows)
  | Refused => (Err (Wrapf "failed to delete file" ErrUnavailable), arrived c)
  | Lost => (Err (Wrapf "failed to delete file" ErrUnavailable), with_files (arrived c) rows)
  end.
Proof.
  unfold FileRepository.Delete, then_, or_else, raise, unit_.
  rewrite statement_unfold, files_arrived.
  destruct (service_at (world c) 0); try reflexivity.
  cbv zeta. now destruct (Z.of_nat _ =? 0).
Qed.


Lemma filter_none_owned id userID rows :
  Z.of_nat (length (List.filter (FileRepository.owned id userID) rows)) = 0 ->
  Forall (fun row => FileRepository.owned id userID row = false) rows.
Proof.
  induction rows as [|row rows IH]; simpl; [constructor|].
  destruct (FileRepository.owned id userID row) eqn:Ho; simpl; [lia|].
  intros H. constructor; auto.
Qed.

(** What an [UPDATE] of the repository does to each row. *)
Lemma updated_rows file tags rows :
  Forall2
    (fun old new =>
       new = old \/
       (FileRepository.owned (File.ID file) (File.UserID file) old = true /\
        new = FileRepository.updated file tags old))
    rows
    (map (fun row =>
            if FileRepository.owned (File.ID file) (File.UserID file) row
            then FileRepository.updated file tags row else row) rows).
Proof.
  induction rows as [|row rows IH]; simpl; constructor; [|exact IH].
  destruct (FileRepository.owned _ _ row) eqn:Ho; auto.
Qed.

Lemma Forall2_same {A} (P : A -> A -> Prop) (l : list A) :
  (forall x, P x x) -> Forall2 P l l.
Proof. intros H. induction l; constructor; auto. Qed.

(** Every way a call of UpdateMetadata can go: the table is left as it
    is and there is no response, or the row with the requested id belongs
    to the requesting user and the UPDATE is carried out. *)
Lemma UpdateMetadata_run req c r c' :
  metadata.UpdateMetadata req c = (r, c') ->
  (files c' = files c /\ forall resp, r <> Ok resp) \/
  (exists row file tags,
      find (FileRepository.has_id (UpdateMetadataRequest.Id req)) (files c) = Some row /\
      FileRow.user_id row = UpdateMetadataRequest.UserId req /\
      File.ID file = FileRow.id row /\
      File.UserID file = FileRow.user_id row /\
      files c' =
        map (fun x => if FileRepository.owned (File.ID file) (File.UserID file) x
                      then FileRepository.updated file tags x else x) (files c) /\
      forall resp, r = Ok resp -> MetadataResponse.Metadata resp = metadata.convertToProto file).
Proof.
  unfold metadata.UpdateMetadata, then_, or_else, raise, unit_. rewrite GetByID_unfold.
  destruct (service_at (world c) 0);
    try (intros [= <- <-]; left; split; [reflexivity|discriminate]).
  destruct (find _ (files c)) as [row|] eqn:Hfind;
    [|intros [= <- <-]; left; split; [reflexivity|discriminate]].
  cbn [FileRepository.file_of File.UserID].
  destruct (String.eqb (FileRow.user_id row) (UpdateMetadataRequest.UserId req)) eqn:Hown;
    cbn [negb]; [|intros [= <- <-]; left; split; [reflexivity|discriminate]].
  apply String.eqb_eq in Hown.
  rewrite lift_unfold, time_Now_unfold. cbn [fst snd].
  rewrite Update_unfold. cbv zeta.
  cbn [File.ID File.UserID File.Tags world files with_world arrived ordered].
  set (file := File.mk _ _ _ _ _ _ _ _ _ _ _ _).
  set (tags := formatTags _ _).
  match goal with
  | |- _ -> ?G =>
      assert (Hdone : forall r0 c0,
                 files c0 =
                   map (fun x => if FileRepository.owned (File.ID file) (File.UserID file) x
                                 then FileRepository.updated file tags x else x) (files c) ->
                 (forall resp, r0 = Ok resp ->
                               MetadataResponse.Metadata resp = metadata.convertToProto file) ->
                 (r0, c0) = (r, c') -> G)
  end.
  { intros r0 c0 Hfiles Hresp [= <- <-]. right. exists row, file, tags. auto 10. }
  destruct (service_at (elapse (arrive (world c))) 0);
    [destruct (Z.of_nat _ =? 0)|..]; cbn [fst snd].
  - intros E. refine (Hdone _ _ _ _ E); [reflexivity|discriminate].
  - intros E. refine (Hdone _ _ _ _ E); [reflexivity|]. now intros resp [= <-].
  - intros [= <- <-]. left. split; [reflexivity|discriminate].
  - intros E. refine (Hdone _ _ _ _ E); [reflexivity|discriminate].
Qed.

(** X13.  UpdateMetadata, whatever its outcome, keeps every row of the
    table in its place and changes none but rows that carry the requested
    id and belong to the requesting user; in such a row it leaves id,
    owner, size, MIME type, storage path, bucket and creation time as they
    were.  It succeeds only when the requesting user owns the file. *)
Theorem UpdateMetadata_owner_only (req : UpdateMetadataRequest.t) (c : Cloud) :
  let run := metadata.UpdateMetadata req c in
  Forall2
    (fun old new =>
       new = old \/
       (FileRow.id old = UpdateMetadataRequest.Id req /\
        FileRow.user_id old = UpdateMetadataRequest.UserId req /\
        same_fixed_columns old new))
    (files c) (files (snd run)) /\
  forall resp,
    fst run = Ok resp ->
    exists row,
      find (FileRepository.has_id (UpdateMetadataRequest.Id req)) (files c) = Some row /\
      FileRow.user_id row = UpdateMetadataRequest.UserId req.
Proof.
  cbv zeta.
  destruct (UpdateMetadata_run req c _ _ (surjective_pairing _))
    as [[-> Hno]|(row & file & tags & Hfind & Hown & Hid & Huid & -> & _)].
  - split; [apply Forall2_same; auto|]. intros resp H. now destruct (Hno resp).
  - split; [|intros resp _; eauto].
    apply find_has_id in Hfind as [_ Hrow].
    eapply Forall2_impl; [apply (updated_rows file tags)|].
    intros old new [->|[Ho ->]]; [now left|right].
    unfold FileRepository.owned in Ho. apply andb_prop in Ho as [H1 H2].
    apply String.eqb_eq in H1, H2.
    split; [congruence|]. split; [congruence|].
    unfold same_fixed_columns, FileRepository.updated. cbn. auto 10.
Qed.

(** Every way a call of DeleteMetadata can go. *)
Lemma DeleteMetadata_run req c r c' :
  metadata.DeleteMetadata req c = (r, c') ->
  let mine :=
    FileRepository.owned (DeleteMetadataRequest.Id req) (DeleteMetadataRequest.UserId req) in
  (files c' = files c /\ forall resp, r <> Ok resp) \/
  (files c' = List.filter (fun row => negb (mine row)) (files c) /\
   forall resp, r = Ok resp -> List.filter mine (files c) <> []).
Proof.
  cbv zeta. unfold metadata.DeleteMetadata, then_, or_else, unit_.
  rewrite Delete_unfold. cbv zeta.
  destruct (service_at (world c) 0);
    [destruct (Z.of_nat _ =? 0) eqn:Hz|..]; intros [= <- <-];
    cbn [files with_files arrived with_world].
  - right. split; [reflexivity|discriminate].
  - right. split; [reflexivity|]. intros resp _ Hnil. rewrite Hnil in Hz. discriminate.
  - left. split; [reflexivity|discriminate].
  - right. split; [reflexivity|discriminate].
Qed.

Lemma owned_iff id userID row :
  FileRepository.owned id userID row = true <->
  FileRow.id row = id /\ FileRow.user_id row = userID.
Proof. unfold FileRepository.owned. rewrite andb_true_iff, !String.eqb_eq. tauto. Qed.

Lemma In_not_owned id userID rows row :
  In row (List.filter (fun row => negb (FileRepository.owned id userID row)) rows) <->
  In row rows /\ ~ (FileRow.id row = id /\ FileRow.user_id row = userID).
Proof.
  rewrite filter_In, negb_true_iff, <- owned_iff.
  destruct (FileRepository.owned id userID row); intuition congruence.
Qed.

(** X14.  DeleteMetadata, whatever its outcome, adds no row and removes
    none but rows that carry the requested id and belong to the
    requesting user.  When it answers success such a row was in the table
    and none is left. *)
Theorem DeleteMetadata_owner_only (req : DeleteMetadataRequest.t) (c : Cloud) :
  let run := metadata.DeleteMetadata req c in
  let mine row :=
    FileRow.id row = DeleteMetadataRequest.Id req /\
    FileRow.user_id row = DeleteMetadataRequest.UserId req in
  (forall row, In row (files (snd run)) -> In row (files c)) /\
  (forall row, In row (files c) -> ~ mine row -> In row (files (snd run))) /\
  (forall resp,
      fst run = Ok resp ->
      (exists row, In row (files c) /\ mine row) /\
      forall row, In row (files (snd run)) -> ~ mine row).
Proof.
  cbv zeta.
  destruct (DeleteMetadata_run req c _ _ (surjective_pairing _)) as [[-> Hno]|[-> Hok]].
  - split; [auto|]. split; [auto|]. intros resp H. now destruct (Hno resp).
  - split; [intros row H; now apply In_not_owned in H|].
    split; [intros row H Hn; now apply In_not_owned|].
    intros resp H. split; [|intros row Hin; now apply In_not_owned in Hin].
    specialize (Hok resp H).
    destruct (List.filter _ (files c)) as [|row rows] eqn:Hf; [contradiction|].
    assert (Hin : In row (List.filter
                            (FileRepository.owned (DeleteMetadataRequest.Id req)
                               (DeleteMetadataRequest.UserId req)) (files c)))
      by (rewrite Hf; now left).
    apply filter_In in Hin as [Hin Ho]. exists row. split; [assumption|now apply owned_iff].
Qed.

Lemma CheckAccess_unfold fileID userID c :
  FileRepository.CheckAccess fileID userID c =
  match service_at (world c) 0 with
  | Served =>
      (match find (FileRepository.has_id fileID) (files c) with
       | Some row =>
           if FileRow.is_public row || String.eqb (FileRow.user_id row) userID
           then Ok (true, FileRow.storage_path row, FileRow.bucket row)
           else Ok (false, "", "")
       | None => Err (Errorf "file not found")
       end, arrived c)
  | _ => (Err (Wrapf "failed to check access" ErrUnavailable), arrived c)
  end.
Proof.
  unfold FileRepository.CheckAccess. rewrite statement_unfold, files_arrived.
  destruct (service_at (world c) 0); try reflexivity.
  destruct (find _ (files c)) as [row|]; [|reflexivity].
  now destruct (FileRow.is_public row), (String.eqb (FileRow.user_id row) userID).
Qed.

(** X15.  CheckAccess grants access exactly when the row that carries the
    requested id is public or belongs to the requesting user, and
    discloses storage path and bucket only then: when it denies access
    both are empty.  It leaves the table as it is. *)
Theorem CheckAccess_discloses_readable_only (req : CheckAccessRequest.t) (c : Cloud) :
  let run := metadata.CheckAccess req c in
  files (snd run) = files c /\
  forall resp,
    fst run = Ok resp ->
    exists row,
      find (FileRepository.has_id (CheckAccessRequest.FileId req)) (files c) = Some row /\
      (CheckAccessResponse.HasAccess resp = true <->
       may_read (CheckAccessRequest.UserId req) row) /\
      (CheckAccessResponse.HasAccess resp = true ->
       CheckAccessResponse.StoragePath resp = FileRow.storage_path row /\
       CheckAccessResponse.Bucket resp = FileRow.bucket row) /\
      (CheckAccessResponse.HasAccess resp = false ->
       CheckAccessResponse.StoragePath resp = "" /\ CheckAccessResponse.Bucket resp = "").
Proof.
  cbv zeta. unfold metadata.CheckAccess, then_, or_else, unit_.
  rewrite CheckAccess_unfold.
  destruct (service_at (world c) 0); cbn [fst snd];
    try (split; [reflexivity|discriminate]).
  destruct (find _ (files c)) as [row|] eqn:Hfind; cbn [fst snd];
    [|split; [reflexivity|discriminate]].
  unfold may_read.
  destruct (FileRow.is_public row) eqn:Hpub;
    destruct (String.eqb (FileRow.user_id row) (CheckAccessRequest.UserId req)) eqn:Hown;
    cbn [orb fst snd]; (split; [reflexivity|]); intros resp [= <-]; exists row;
    cbn [CheckAccessResponse.HasAccess CheckAccessResponse.StoragePath
         CheckAccessResponse.Bucket];
    (split; [reflexivity|]).
  - split; [split; [now left|reflexivity]|split; [auto|discriminate]].
  - split; [split; [now left|reflexivity]|split; [auto|discriminate]].
  - apply String.eqb_eq in Hown.
    split; [split; [now right|reflexivity]|split; [auto|discriminate]].
  - apply String.eqb_neq in Hown.
    split; [split; [discriminate|intros [H|H]; [congruence|contradiction]]|].
    split; [discriminate|auto].
Qed.



(** ** The file service *)

Lemma app_empty_r (s : string) : s +:+ "" = s.
Proof.
  induction s as [|c s IH]; [reflexivity|].
  change (String c (s +:+ "") = String c s). now rewrite IH.
Qed.

Lemma drop_app (a b : string) : strings.drop (String.length a) (a +:+ b) = b.
Proof. induction a as [|c a IH]; [reflexivity|exact IH]. Qed.

Lemma get_app_l (a b : string) i :
  (i < String.length a)%nat -> String.get i (a +:+ b) = String.get i a.
Proof.
  revert i. induction a as [|c a IH]; intros i Hi; simpl in *; [lia|].
  destruct i; [reflexivity|]. apply IH. lia.
Qed.

Lemma get_app_r (a b : string) i :
  String.get (String.length a + i) (a +:+ b) = String.get i b.
Proof. induction a as [|c a IH]; simpl; [reflexivity|exact IH]. Qed.

Lemma get_free c s i x : free_of c s = true -> String.get i s = Some x -> x <> c.
Proof.
  unfold free_of. revert i. induction s as [|y s IH]; intros i Hf Hg; simpl in *; [discriminate|].
  apply andb_prop in Hf as [Hy Hs]. destruct i.
  - injection Hg as <-. apply negb_true_iff in Hy. now apply Ascii.eqb_neq.
  - eapply IH; eassumption.
Qed.

Lemma scan_no_dot s i : free_of "."%char s = true -> file.scan s i = "".
Proof.
  intros Hf. induction i as [|i IH]; simpl; [reflexivity|].
  destruct (String.get i s) as [c|] eqn:Hg; [|exact IH].
  apply (get_free _ _ _ _ Hf), Ascii.eqb_neq in Hg. now rewrite Hg.
Qed.

Lemma get_Some s i : (i < String.length s)%nat -> exists c, String.get i s = Some c.
Proof.
  revert i. induction s as [|x s IH]; intros i Hi; simpl in *; [lia|].
  destruct i; [eauto|]. apply IH. lia.
Qed.

Lemma scan_ext stem e k :
  free_of "."%char e = true ->
  (k <= String.length e)%nat ->
  file.scan (stem +:+ "." +:+ e) (S (String.length stem + k)) = "." +:+ e.
Proof.
  intros Hf. induction k as [|k IH]; intros Hk.
  - rewrite Nat.add_0_r. cbn [file.scan].
    assert (Hg : String.get (String.length stem) (stem +:+ "." +:+ e) = Some "."%char).
    { rewrite <- (Nat.add_0_r (String.length stem)). rewrite get_app_r. reflexivity. }
    rewrite Hg. change (Ascii.eqb "."%char "."%char) with true. cbv iota.
    apply drop_app.
  - cbn [file.scan].
    assert (Hg : String.get (String.length stem + S k) (stem +:+ "." +:+ e)
                 = String.get k e).
    { rewrite get_app_r. reflexivity. }
    rewrite Hg.
    destruct (get_Some e k) as [c Hc]; [lia|]. rewrite Hc.
    apply (get_free _ _ _ _ Hf), Ascii.eqb_neq in Hc. rewrite Hc.
    rewrite <- Nat.add_succ_comm. apply IH. lia.
Qed.

(** X17.  generateUniqueFilename names a file by the clock reading in
    nanoseconds followed by the extension of the original name: the text
    from the last dot on, when the name has at least two bytes and a dot
    (so a name that begins with its only dot is taken whole); nothing when
    the name holds no dot or has fewer than two bytes. *)
Theorem generateUniqueFilename_keeps_extension (original : string) (w : World) :
  (forall stem e,
      original = stem +:+ "." +:+ e ->
      free_of "."%char e = true ->
      (2 <= String.length original)%nat ->
      fst (file.generateUniqueFilename original w)
      = Ok (strconv.FormatInt (instant w 1) +:+ "." +:+ e)) /\
  (free_of "."%char original = true \/ (String.length original <= 1)%nat ->
   fst (file.generateUniqueFilename original w) = Ok (strconv.FormatInt (instant w 1))).
Proof.
  unfold file.generateUniqueFilename, bind, ret. rewrite time_Now_unfold. cbn [fst].
  split.
  - intros stem e -> Hf Hlen.
    assert (Hpos : (0 <? Z.of_nat (String.length (stem +:+ "." +:+ e)) - 1) = true)
      by (apply Z.ltb_lt; lia).
    rewrite Hpos. do 2 f_equal.
    rewrite length_app. change (String.length ("." +:+ e)) with (S (String.length e)).
    rewrite <- Nat.add_succ_comm. now apply scan_ext.
  - intros [Hf|Hlen].
    + rewrite scan_no_dot by assumption. destruct (0 <? _); now rewrite app_empty_r.
    + assert (Hpos : (0 <? Z.of_nat (String.length original) - 1) = false)
        by (apply Z.ltb_ge; lia).
      now rewrite Hpos, app_empty_r.
Qed.

Lemma mul64_small x : 0 < x <= 9223372036 -> mul64 x Second = x * Second.
Proof.
  intros Hx. unfold mul64, Second.
  rewrite Z.mod_small by lia. lia.
Qed.

Lemma mul64_range x y : - 2 ^ 63 <= mul64 x y < 2 ^ 63.
Proof. unfold mul64. pose proof (Z.mod_pos_bound (x * y + 2 ^ 63) (2 ^ 64)). lia. Qed.

(** X18.  GetDownloadLink hands out a link only for a file the requesting
    user may read, presigned for the bucket and storage path of its row.
    The link is presigned for one hour when the request asks for no
    positive number of seconds, and for exactly the seconds asked for up
    to 9223372036, which the response repeats; beyond that the
    multiplication by a second wraps around and the link is presigned for
    another duration. *)
Theorem GetDownloadLink_readable_only (S : MinIO) (req : GetDownloadLinkRequest.t)
    (c : Cloud) (resp : GetDownloadLinkResponse.t) :
  fst (file.GetDownloadLink S req c) = Ok resp ->
  exists row expiresIn,
    find (FileRepository.has_id (GetDownloadLinkRequest.FileId req)) (files c) = Some row /\
    may_read (GetDownloadLinkRequest.UserId req) row /\
    PresignedGetObject S (FileRow.bucket row) (FileRow.storage_path row) expiresIn
    = inr (GetDownloadLinkResponse.DownloadUrl resp) /\
    (GetDownloadLinkRequest.ExpiresIn req <= 0 ->
     expiresIn = Hour /\ GetDownloadLinkResponse.ExpiresIn resp = 3600) /\
    (0 < GetDownloadLinkRequest.ExpiresIn req <= 9223372036 ->
     expiresIn = GetDownloadLinkRequest.ExpiresIn req * Second /\
     GetDownloadLinkResponse.ExpiresIn resp = GetDownloadLinkRequest.ExpiresIn req) /\
    (9223372036 < GetDownloadLinkRequest.ExpiresIn req ->
     expiresIn <> GetDownloadLinkRequest.ExpiresIn req * Second).
Proof.
  unfold file.GetDownloadLink, then_, or_else, raise, unit_. rewrite CheckAccess_unfold.
  destruct (service_at (world c) 0); cbn [fst]; try discriminate.
  destruct (find _ (files c)) as [row|] eqn:Hfind; cbn [fst]; [|discriminate].
  set (x := GetDownloadLinkRequest.ExpiresIn req).
  assert (Hread : (FileRow.is_public row || String.eqb (FileRow.user_id row)
                     (GetDownloadLinkRequest.UserId req)) = true ->
                  may_read (GetDownloadLinkRequest.UserId req) row).
  { intros H. apply orb_prop in H as [H|H]; [now left|right; now apply String.eqb_eq]. }
  destruct (FileRow.is_public row || _) eqn:Hacc; cbn [negb fst]; [|discriminate].
  destruct (PresignedGetObject S _ _ _) as [err|url] eqn:Hurl; cbn [fst]; [discriminate|].
  intros [= <-]. cbn [GetDownloadLinkResponse.DownloadUrl GetDownloadLinkResponse.ExpiresIn].
  exists row, (if 0 <? x then mul64 x Second else Hour).
  split; [reflexivity|]. split; [now apply Hread|]. split; [exact Hurl|].
  split; [|split].
  - intros Hx. assert (H0 : (0 <? x) = false) by (apply Z.ltb_ge; lia).
    rewrite H0. split; [reflexivity|]. reflexivity.
  - intros Hx. assert (H0 : (0 <? x) = true) by (apply Z.ltb_lt; lia).
    rewrite H0, mul64_small by assumption. split; [reflexivity|].
    unfold Second. now rewrite Z.quot_mul by lia.
  - intros Hx. assert (H0 : (0 <? x) = true) by (apply Z.ltb_lt; lia).
    rewrite H0. pose proof (mul64_range x Second). unfold Second in *. lia.
Qed.

(** ** The gateway *)

Lemma SplitN_2 s sep :
  strings.SplitN s sep 2 =
  match strings.Cut s sep with
  | Some (before, after) => [before; after]
  | None => [s]
  end.
Proof.
  unfold strings.SplitN. simpl. now destruct (strings.Cut s sep) as [[a b]|].
Qed.

Lemma lift_files {A} (m : M A) c : files (snd (lift m c)) = files c.
Proof. rewrite lift_unfold. reflexivity. Qed.

Section Gateway.
Context (U : Unicode) (J : Codec) (L : Library) (a : Server)
  (lister : ListMetadataRequest.t -> Call Cloud ListMetadataResponse.t).

Let s := deployed L a lister.

(** What the gateway gets from ValidateToken of the auth server. *)
Lemma connect_ValidateToken token c reply c' :
  connect (lift (auth.ValidateToken L a (ValidateTokenRequest.mk token))) c = (reply, c') ->
  files c' = files c /\
  forall resp,
    reply = inr resp ->
    ValidateTokenResponse.Valid resp = true ->
    exists claims,
      verifies L (jwtManager a) (instant (world c) 1) "access" token claims /\
      ValidateTokenResponse.UserId resp = TokenClaims.UserID claims /\
      ValidateTokenResponse.Email resp = TokenClaims.Email claims /\
      c' = with_world c (measured (world c)).
Proof.
  unfold connect. rewrite lift_unfold.
  destruct (auth.ValidateToken L a _ (world c)) as [res w'] eqn:E. cbn [fst snd].
  apply ValidateToken_cases' in E. cbn [ValidateTokenRequest.Token] in E.
  destruct E as [w1 Hn Hw|claims Hv He|claims e Hv He]; intros [= <- <-];
    (split; [reflexivity|]); intros resp [= <-]; try discriminate.
  intros _. exists claims. auto.
Qed.

(** Every way a request can pass [withAuth]. *)
Lemma withAuth_run next r c out c' :
  gateway.withAuth U s next r c = (out, c') ->
  (exists msg,
      out = Wrote [Error (error_body msg) http.StatusUnauthorized] /\ files c' = files c) \/
  (exists scheme claims,
      http.Get (http.Header r) "Authorization" = scheme +:+ " " +:+ bearer_token r /\
      strings.ToLower U scheme = "bearer" /\
      verifies L (jwtManager a) (instant (world c) 1) "access" (bearer_token r) claims /\
      next (authenticated r claims) (with_world c (measured (world c))) = (out, c')).
Proof.
  unfold gateway.withAuth.
  destruct (String.eqb (http.Get (http.Header r) "Authorization") "");
    [intros [= <- <-]; left; eauto|].
  rewrite SplitN_2.
  destruct (strings.Cut (http.Get (http.Header r) "Authorization") " "%char)
    as [[scheme token]|] eqn:Hcut; [|intros [= <- <-]; left; eauto].
  assert (Htoken : bearer_token r = token) by (unfold bearer_token; now rewrite Hcut).
  destruct (String.eqb (strings.ToLower U scheme) "bearer") eqn:Hscheme; cbn [negb];
    [|intros [= <- <-]; left; eauto].
  apply String.eqb_eq in Hscheme. apply Cut_Some in Hcut as [Hheader _].
  cbn [s deployed gateway.authClient api.ValidateToken].
  destruct (connect _ c) as [reply c1] eqn:Hcall.
  apply connect_ValidateToken in Hcall as [Hfiles Hvalid].
  destruct reply as [err|resp]; [intros [= <- <-]; left; eauto|].
  destruct (ValidateTokenResponse.Valid resp) eqn:HV; cbn [negb];
    [|intros [= <- <-]; left; eauto].
  destruct (Hvalid resp eq_refl HV) as (claims & Hv & -> & -> & ->).
  intros H. right. exists scheme, claims. unfold authenticated. rewrite Htoken.
  split; [exact Hheader|]. split; [exact Hscheme|]. split; [exact Hv|exact H].
Qed.

(** X19.  A request passes withAuth only with a bearer token that verifies
    as an access token at the auth server: the Authorization header is a
    scheme that lower-cases to bearer, a space, and a token which
    ValidateToken accepts; the next handler then sees the user id and the
    email of the token's claims in the request context.  Every other
    request is answered 401 and leaves the table of files as it is. *)
Theorem withAuth_admits_verified_tokens_only (next : gateway.HandlerFunc Cloud)
    (r : http.Request) (c : Cloud) (out : Outcome) (c' : Cloud) :
  gateway.withAuth U s next r c = (out, c') ->
  (exists msg,
      out = Wrote [Error (error_body msg) http.StatusUnauthorized] /\ files c' = files c) \/
  (exists scheme claims,
      http.Get (http.Header r) "Authorization" = scheme +:+ " " +:+ bearer_token r /\
      strings.ToLower U scheme = "bearer" /\
      verifies L (jwtManager a) (instant (world c) 1) "access" (bearer_token r) claims /\
      http.Value (authenticated r claims) "userID" = Some (TokenClaims.UserID claims) /\
      http.Value (authenticated r claims) "email" = Some (TokenClaims.Email claims) /\
      next (authenticated r claims) (with_world c (measured (world c))) = (out, c')).
Proof.
  intros H. apply withAuth_run in H as [H|(scheme & claims & H1 & H2 & H3 & H4)];
    [now left|right].
  exists scheme, claims.
  split; [exact H1|]. split; [exact H2|]. split; [exact H3|].
  split; [reflexivity|]. split; [reflexivity|exact H4].
Qed.

Lemma Value_userID r claims :
  http.Value (authenticated r claims) "userID" = Some (TokenClaims.UserID claims).
Proof. reflexivity. Qed.

Lemma respond_Wrote {A} failure success (payload : A -> Payload)
    (answer : (error + A) * Cloud) calls c' :
  gateway.respond J failure success payload answer = (Wrote calls, c') ->
  snd answer = c' /\
  forall data,
    In (Encode data) calls -> exists resp, fst answer = inr resp /\ data = payload resp.
Proof.
  unfold gateway.respond. destruct answer as [[err|resp] st]; intros [= <- <-];
    (split; [reflexivity|]); intros data Hin.
  - destruct Hin as [[=]|[]].
  - destruct Hin as [[=]|[[=]|[[= <-]|[]]]]. eauto.
Qed.

Lemma connect_Ok {St A} (h : Run St A) st resp st' :
  connect h st = (inr resp, st') -> h st = (Ok resp, st').
Proof.
  unfold connect. destruct (h st) as [[x|e|] st1]; intros [= <- <-]; reflexivity.
Qed.

Lemma connect_state {St A} (h : Run St A) st : snd (connect h st) = snd (h st).
Proof. unfold connect. now destruct (h st) as [[x|e|] st1]. Qed.

(** X20.  Through the gateway, metadata of a file leave the route
    [/api/v1/files/<id>] only for a bearer token that verifies as an
    access token, and only when the file with that id is public or belongs
    to the user the token names. *)
Theorem gateway_serves_readable_files_only (r : http.Request) (c : Cloud)
    (calls : list Written) (c' : Cloud) (resp : MetadataResponse.t) :
  gateway.withAuth U s (gateway.handleFileDetail J s) r c = (Wrote calls, c') ->
  In (Encode (JSON_metadata resp)) calls ->
  exists claims row,
    verifies L (jwtManager a) (instant (world c) 1) "access" (bearer_token r) claims /\
    find (FileRepository.has_id (file_id r)) (files c) = Some row /\
    may_read (TokenClaims.UserID claims) row /\
    FileMetadata.Id (MetadataResponse.Metadata resp) = FileRow.id row /\
    FileMetadata.UserId (MetadataResponse.Metadata resp) = FileRow.user_id row.
Proof.
  intros H Hin. apply withAuth_run in H as [(msg & [= ->] & _)|(scheme & claims & _ & _ & Hv & H)].
  { destruct Hin as [[=]|[]]. }
  exists claims. unfold gateway.handleFileDetail in H. rewrite Value_userID in H.
  change (strings.TrimPrefix (http.Path (authenticated r claims)) "/api/v1/files/")
    with (file_id r) in H.
  change (http.Method (authenticated r claims)) with (http.Method r) in H.
  change (http.Body (authenticated r claims)) with (http.Body r) in H.
  set (c1 := with_world c (measured (world c))) in *.
  destruct (String.eqb (http.Method r) "GET").
  { apply respond_Wrote in H as [_ H]. destruct (H _ Hin) as (resp' & Hcall & [= <-]).
    cbn [s deployed gateway.metadataClient api.GetMetadata] in Hcall.
    destruct (connect _ c1) as [reply c2] eqn:Hc. cbn [fst] in Hcall. subst reply.
    apply connect_Ok, GetMetadata_run in Hc as [_ Hc].
    destruct (Hc _ eq_refl) as (row & Hfind & Hread & ->).
    exists row. cbn [GetMetadataRequest.Id GetMetadataRequest.UserId] in *.
    split; [exact Hv|]. split; [exact Hfind|]. split; [exact Hread|]. now split. }
  destruct (String.eqb (http.Method r) "PUT").
  { destruct (DecodeUpdate J (http.Body r)) as [req|];
      [|injection H as <- _; destruct Hin as [[=]|[]]].
    apply respond_Wrote in H as [_ H]. destruct (H _ Hin) as (resp' & Hcall & [= <-]).
    cbn [s deployed gateway.metadataClient api.UpdateMetadata] in Hcall.
    destruct (connect _ c1) as [reply c2] eqn:Hc. cbn [fst] in Hcall. subst reply.
    apply connect_Ok, UpdateMetadata_run in Hc
      as [[_ Hno]|(row & file & tags & Hfind & Hown & Hid & Huid & _ & Hresp)].
    { now destruct (Hno resp). }
    cbn [UpdateMetadataRequest.Id UpdateMetadataRequest.UserId] in *.
    exists row. rewrite (Hresp _ eq_refl).
    cbn [metadata.convertToProto FileMetadata.Id FileMetadata.UserId].
    split; [assumption|]. split; [assumption|]. split; [now right|]. now split. }
  destruct (String.eqb (http.Method r) "DELETE").
  { destruct (api.DeleteMetadata _ _ c1) as [[err|x] c2]; injection H as <- _;
      [destruct Hin as [[=]|[]]|destruct Hin as [[=]|[[=]|[[=]|[]]]]]. }
  injection H as <- _. destruct Hin as [[=]|[]].
Qed.

(** X21.  Through the gateway, a request to [/api/v1/files/<id>], whatever
    its method, header and body, removes or changes no row of a user
    other than the one its bearer token names: a row whose owner differs
    from the user of every claims the token verifies with is in the table
    afterwards as it was. *)
Theorem gateway_changes_own_files_only (r : http.Request) (c : Cloud) (out : Outcome)
    (c' : Cloud) (row : FileRow.t) :
  gateway.withAuth U s (gateway.handleFileDetail J s) r c = (out, c') ->
  In row (files c) ->
  (forall t claims,
      verifies L (jwtManager a) t "access" (bearer_token r) claims ->
      FileRow.user_id row <> TokenClaims.UserID claims) ->
  In row (files c').
Proof.
  intros H Hin Hother.
  apply withAuth_run in H as [(msg & _ & ->)|(scheme & claims & _ & _ & Hv & H)];
    [assumption|].
  specialize (Hother _ _ Hv).
  unfold gateway.handleFileDetail in H. rewrite Value_userID in H.
  change (strings.TrimPrefix (http.Path (authenticated r claims)) "/api/v1/files/")
    with (file_id r) in H.
  change (http.Method (authenticated r claims)) with (http.Method r) in H.
  change (http.Body (authenticated r claims)) with (http.Body r) in H.
  set (c1 := with_world c (measured (world c))) in *.
  change (files c) with (files c1) in Hin.
  assert (Hrespond : forall {A} failure success (payload : A -> Payload)
                             (answer : (error + A) * Cloud) out0 c0,
             gateway.respond J failure success payload answer = (out0, c0) ->
             c0 = snd answer).
  { intros A failure success payload [[err|x] st] out0 c0; now intros [= _ <-]. }
  destruct (String.eqb (http.Method r) "GET").
  { apply Hrespond in H. subst c'.
    cbn [s deployed gateway.metadataClient api.GetMetadata].
    rewrite connect_state.
    match goal with
    | |- context [metadata.GetMetadata ?q ?c0] =>
        now rewrite (proj1 (GetMetadata_run q c0 _ _ (surjective_pairing _)))
    end. }
  destruct (String.eqb (http.Method r) "PUT").
  { destruct (DecodeUpdate J (http.Body r)) as [req|]; [|now injection H as _ <-].
    apply Hrespond in H. subst c'.
    cbn [s deployed gateway.metadataClient api.UpdateMetadata].
    rewrite connect_state.
    match goal with
    | |- context [metadata.UpdateMetadata ?q ?c0] =>
        destruct (UpdateMetadata_run q c0 _ _ (surjective_pairing _))
          as [[-> _]|(row0 & file & tags & _ & Hown & Hid & Huid & -> & _)]; [assumption|]
    end.
    cbn [UpdateMetadataRequest.UserId] in Hown.
    apply in_map_iff. exists row. split; [|assumption].
    destruct (FileRepository.owned (File.ID file) (File.UserID file) row) eqn:Ho;
      [|reflexivity].
    apply owned_iff in Ho as [_ Ho]. congruence. }
  destruct (String.eqb (http.Method r) "DELETE").
  { cbn [s deployed gateway.metadataClient api.DeleteMetadata] in H.
    assert (Hc' : c' = snd (connect (metadata.DeleteMetadata
                                       (DeleteMetadataRequest.mk (file_id r)
                                          (TokenClaims.UserID claims))) c1)).
    { destruct (connect _ c1) as [[err|x] c2]; now injection H as _ <-. }
    rewrite Hc', connect_state.
    match goal with
    | |- context [metadata.DeleteMetadata ?q ?c0] =>
        destruct (DeleteMetadata_run q c0 _ _ (surjective_pairing _)) as [[-> _]|[-> _]];
          [assumption|]
    end.
    apply In_not_owned. split; [assumption|].
    cbn [DeleteMetadataRequest.UserId]. intros [_ Hmine]. contradiction. }
  now injection H as _ <-.
Qed.

(** X22.  The logout route answers 200 only when both tokens verify at the
    auth server: the bearer token of the header as an access token, and
    the refresh token of the body as a refresh token.  The principal that
    refresh token names then has no session left.  Nothing ties the two
    tokens to one principal. *)
Theorem logout_route_needs_both_tokens (r : http.Request) (c : Cloud)
    (calls : list Written) (c' : Cloud) :
  gateway.withAuth U s (gateway.handleLogout J s) r c = (Wrote calls, c') ->
  In (WriteHeader http.StatusOK) calls ->
  exists accessClaims req refreshClaims,
    verifies L (jwtManager a) (instant (world c) 1) "access" (bearer_token r) accessClaims /\
    DecodeLogout J (http.Body r) = Some req /\
    verifies L (jwtManager a) (instant (world c) 3) "refresh"
      (LogoutRequest.RefreshToken req) refreshClaims /\
    forall t, activeRefresh (redis (world c')) t (TokenClaims.UserID refreshClaims) = None.
Proof.
  intros H Hin.
  apply withAuth_run in H as [(msg & [= ->] & _)|(scheme & claims & _ & _ & Hv & H)].
  { destruct Hin as [[=]|[]]. }
  exists claims. unfold gateway.handleLogout in H.
  change (http.Method (authenticated r claims)) with (http.Method r) in H.
  change (http.Body (authenticated r claims)) with (http.Body r) in H.
  destruct (String.eqb (http.Method r) "POST"); cbn [negb] in H;
    [|injection H as <- _; destruct Hin as [[=]|[]]].
  destruct (DecodeLogout J (http.Body r)) as [req|];
    [|injection H as <- _; destruct Hin as [[=]|[]]].
  exists req.
  cbn [s deployed gateway.authClient api.Logout] in H.
  unfold connect in H. rewrite lift_unfold in H. cbn [world with_world] in H.
  destruct (auth.Logout L a req (measured (world c))) as [res w'] eqn:E. cbn [fst snd] in H.
  destruct res as [resp|err|]; [|injection H as <- _; destruct Hin as [[=]|[]]..].
  destruct resp as [[|]]; cbn [LogoutResponse.Success negb] in H;
    [|injection H as <- _; destruct Hin as [[=]|[]]].
  injection H as _ <-. cbn [world with_world].
  apply Logout_cases in E.
  inversion E as [|rc Hr He|rc e Hr He Hle|rc e Hr He Hlt|]; subst;
    rewrite instant_measured in Hr;
    exists rc; (split; [exact Hv|]); (split; [reflexivity|]); (split; [exact Hr|]);
    intros t; unfold activeRefresh, lookup_at;
    now rewrite redis_deleted, lookup_delete_eq.
Qed.
End Gateway.

(** X23.  Without a bearer header no request passes withAuth, and neither
    the auth service nor the next handler is reached: when the
    Authorization header is not a scheme that lower-cases to bearer
    followed by a space, the answer is 401 with a fixed body, whatever the
    clients of the gateway and the next handler are, and the state behind
    the gateway is untouched. *)
Theorem withAuth_needs_bearer_header (U : Unicode) (r : http.Request) :
  (forall scheme token,
      http.Get (http.Header r) "Authorization" = scheme +:+ " " +:+ token ->
      free_of " "%char scheme = true ->
      strings.ToLower U scheme <> "bearer") ->
  exists msg,
    forall (St : Type) (s : gateway.Server St) (next : gateway.HandlerFunc St) (st : St),
      gateway.withAuth U s next r st
      = (Wrote [Error (error_body msg) http.StatusUnauthorized], st).
Proof.
  intros Hno. unfold gateway.withAuth.
  destruct (String.eqb (http.Get (http.Header r) "Authorization") ""); [eauto|].
  rewrite SplitN_2.
  destruct (strings.Cut (http.Get (http.Header r) "Authorization") " "%char)
    as [[scheme token]|] eqn:Hcut; [|eauto].
  apply Cut_Some in Hcut as [Hheader Hfree].
  destruct (String.eqb (strings.ToLower U scheme) "bearer") eqn:Hscheme; cbn [negb]; [|eauto].
  apply String.eqb_eq in Hscheme. now destruct (Hno _ _ Hheader Hfree).
Qed.

(** X24.  The page size handleFiles forwards to ListMetadata is always
    between 1 and 100 (20 when the query gives none, or one outside that
    range); the page it forwards is at least 1 when the number in the
    query is below 2^31, and is negative when that number lies between
    2^31 and 2^32, the conversion to 32 bits having wrapped it. *)
Theorem handleFiles_page_bounds (J : Codec) (St : Type) (s : gateway.Server St)
    (r : http.Request) (st : St) (userID : string) :
  http.Value r "userID" = Some userID ->
  http.Method r = "GET" ->
  let page := fst (strconv.Atoi (http.Get (http.Query r) "page")) in
  exists req,
    gateway.handleFiles J s r st
    = gateway.respond J http.StatusInternalServerError http.StatusOK JSON_list
        (api.ListMetadata (gateway.metadataClient s) req st) /\
    ListMetadataRequest.UserId req = userID /\
    1 <= ListMetadataRequest.PageSize req <= 100 /\
    (page < 2 ^ 31 -> 1 <= ListMetadataRequest.Page req) /\
    (2 ^ 31 <= page < 2 ^ 32 -> ListMetadataRequest.Page req < 0).
Proof.
  intros Huser Hmethod page. unfold gateway.handleFiles. rewrite Huser, Hmethod.
  change (String.eqb "GET" "GET") with true. cbv iota. fold page.
  eexists. split; [reflexivity|].
  cbn [ListMetadataRequest.UserId ListMetadataRequest.PageSize ListMetadataRequest.Page].
  split; [reflexivity|].
  set (size := fst (strconv.Atoi (http.Get (http.Query r) "page_size"))).
  split; [|split].
  - assert (Hps : 1 <= (if (size <? 1) || (100 <? size) then 20 else size) <= 100).
    { destruct (size <? 1) eqn:H1; [cbn [orb]; lia|].
      destruct (100 <? size) eqn:H2; [cbn [orb]; lia|]. cbn [orb].
      apply Z.ltb_ge in H1, H2. lia. }
    unfold int32. rewrite Z.mod_small by lia. lia.
  - intros Hp.
    assert (Hpg : 1 <= (if page <? 1 then 1 else page) < 2 ^ 31).
    { destruct (page <? 1) eqn:H1; [lia|]. apply Z.ltb_ge in H1. lia. }
    unfold int32. rewrite Z.mod_small by lia. lia.
  - intros Hp. unfold int32. assert (H1 : (page <? 1) = false) by (apply Z.ltb_ge; lia).
    rewrite H1.
    replace (page + 2 ^ 31) with (page - 2 ^ 31 + 1 * 2 ^ 32) by lia.
    rewrite Z.mod_add by lia. rewrite Z.mod_small by lia. lia.
Qed.

(** ** Further runs on the fake *)

Module Tours.
Import Fake Scenario Tour.

Lemma ends_in {S A} (run : result A * S) (r : result A) :
  fst run = r -> run = (r, snd run).
Proof. intros <-. apply surjective_pairing. Qed.

Lemma wrote {S} (run : Outcome * S) :
  fst run = Wrote (calls_of (fst run)) -> run = (Wrote (calls_of (fst run)), snd run).
Proof. intros H. rewrite <- H. apply surjective_pairing. Qed.

Ltac run := refine (ends_in _ _ _); vm_compute; reflexivity.
Ltac compute_it := vm_compute; reflexivity.

Lemma library_password_law : password_law library.
Proof.
  intros salt password hash. simpl. unfold GenerateFromPassword, CompareHashAndPassword.
  destruct (72 <? _)%nat; [discriminate|]. intros [= <-].
  rewrite FakeFacts.get_put_str. apply String.eqb_refl.
Qed.

Lemma pair_generated :
  utils.GenerateTokenPair library (jwtManager server) "7" "a@x.com" world
  = (Ok (fst pair, snd pair),
     snd (utils.GenerateTokenPair library (jwtManager server) "7" "a@x.com" world)).
Proof. run. Qed.

Lemma refresh2_signed :
  signed_by library (secret (jwtManager server)) refresh2 (claims_of refresh2).
Proof. apply claims_if_signed_sound. compute_it. Qed.

(** X1 on the run: the access token of the pair passes its validator in
    the world it was issued in. *)
Lemma issued_tokens_verify_witness :
  exists c,
    utils.ValidateAccessToken library (jwtManager server) (fst pair) world
    = (Ok c, elapse world) /\
    TokenClaims.UserID c = "7" /\ TokenClaims.Email c = "a@x.com".
Proof.
  refine (proj1
    (issued_tokens_verify library (jwtManager server) "7" "a@x.com" world _
       (fst pair) (snd pair) FakeFacts.library_round_trip pair_generated) world _).
  apply Z.leb_le. compute_it.
Defined.

(** X2 on the run: Logout answers success:false on the access token. *)
Lemma token_kinds_not_interchangeable_witness :
  fst (auth.Logout library server (LogoutRequest.mk (fst pair)) world)
  = Ok (LogoutResponse.mk false).
Proof.
  exact (proj1 (proj2
    (token_kinds_not_interchangeable library server "7" "a@x.com" world _
       (fst pair) (snd pair) FakeFacts.library_round_trip pair_generated world))).
Defined.

(** X3 on the run: three seconds later the access token, which lives two
    seconds, is answered valid:false. *)
Lemma ValidateToken_on_issued_token_witness :
  fst (auth.ValidateToken library server (ValidateTokenRequest.mk (fst pair)) much_later)
  = Ok (ValidateTokenResponse.mk false "" "" 0).
Proof.
  refine (proj2 (proj2 (proj2
    (ValidateToken_on_issued_token library server "7" "a@x.com" world _
       (fst pair) (snd pair) FakeFacts.library_round_trip pair_generated much_later))) _).
  apply Z.leb_le. compute_it.
Defined.

(** X4 on the run: Alice registers, and her Login gets past the
    credential check. *)
Lemma Register_then_Login_witness :
  past_the_checks (fst (auth.Login library server credentials registered))
    "failed to generate tokens" "failed to store refresh token".
Proof.
  refine (proj1
    (Register_then_Login library server alice world registered
       (response (auth.Register library server alice world) no_response)
       library_password_law _ registered _ _ eq_refl _ (surjective_pairing _))).
  - unfold registered. run.
  - reflexivity.
Defined.

(** X6 on the run: Alice's Logout leaves a key of another kind alone. *)
Lemma Logout_touches_two_keys_witness :
  redis (snd (auth.Logout library server (LogoutRequest.mk refresh1) logged_in)) !! "other"
  = redis logged_in !! "other".
Proof.
  apply (Logout_touches_two_keys library server refresh1 logged_in "other").
  - discriminate.
  - intros c _. discriminate.
Defined.

(** X7 on the run: at its fifth second the refresh token of the first
    Login is the session of Alice. *)
Lemma session_outlives_refresh_token_witness :
  activeRefresh (redis logged_in) (Time 5) (TokenClaims.UserID refresh1_claims)
  = Some refresh1.
Proof.
  refine (proj1
    (session_outlives_refresh_token library config registered logged_in
       FakeFacts.library_round_trip _)
    credentials login1 Examples.first_Login_runs (Time 5) refresh1_claims _).
  - reflexivity.
  - apply Examples.refresh1_verifies. compute_it.
Defined.

(** X8 on the run: the Refresh after the first Login passes the checks. *)
Lemma Login_then_Refresh_witness :
  past_the_checks
    (fst (auth.Refresh library server (RefreshRequest.mk refresh1) logged_in))
    "failed to generate new tokens" "failed to save new refresh token".
Proof.
  refine (Login_then_Refresh library config credentials registered logged_in login1
            FakeFacts.library_round_trip _ Examples.first_Login_runs
            logged_in _ _ eq_refl _ _ _ _ (surjective_pairing _)).
  - reflexivity.
  - reflexivity.
  - reflexivity.
  - vm_compute. intros H. now apply H.
  - intros c Hc.
    rewrite <- (signed_by_functional library _ _ _ _ Examples.refresh1_signed Hc).
    split; [intros e [= <-]; compute_it|intros n [=]].
Defined.


(** X10 on the run: Alice logs out with the superseded token of her first
    Login, and the token of her second Login is refused. *)
Lemma Logout_ends_session_witness :
  exists e,
    fst (auth.Refresh library server (RefreshRequest.mk refresh2) logged_out_late) = Err e.
Proof.
  destruct (Logout_ends_session library server refresh1 logged_in_again logged_out_late)
    as (c & Hs & _ & Hfail).
  - unfold logged_out_late. run.
  - rewrite <- (signed_by_functional library _ _ _ _ Examples.refresh1_signed Hs) in Hfail.
    apply (Hfail refresh2 (claims_of refresh2) logged_out_late _
             (snd (auth.Refresh library server (RefreshRequest.mk refresh2) logged_out_late))
             refresh2_signed); [compute_it|compute_it|apply surjective_pairing].
Defined.

(** X11 on the run: two plain tags come back, visited in the second
    order. *)
Lemma tags_round_trip_witness :
  parseTags (formatTags 1 (<["a" := "1"]> (<["b" := "2"]> ∅)))
  = <["a" := "1"]> (<["b" := "2"]> ∅).
Proof.
  apply (proj2 (tags_round_trip 1 _)).
  apply storable_insert; [apply storable_insert; [apply storable_empty|..]|..]; reflexivity.
Defined.

(** X12 on the run: Alice reads the metadata of her file. *)
Lemma GetMetadata_readable_only_witness :
  exists row,
    find (FileRepository.has_id notes) (files stocked) = Some row /\
    may_read "10" row /\
    MetadataResponse.Metadata
      (answer (metadata.GetMetadata (GetMetadataRequest.mk notes "10") stocked) no_metadata)
    = metadata.convertToProto (FileRepository.file_of row).
Proof.
  refine (proj2
    (GetMetadata_readable_only (GetMetadataRequest.mk notes "10") stocked) _ _).
  compute_it.
Defined.

(** X13 on the run: Alice renames her file. *)
Lemma UpdateMetadata_owner_only_witness :
  exists row,
    find (FileRepository.has_id notes) (files stocked) = Some row /\
    FileRow.user_id row = "10".
Proof.
  refine (proj2
    (UpdateMetadata_owner_only
       (UpdateMetadataRequest.mk notes "10" "2.txt" "notes.txt" true ∅) stocked)
    (answer
       (metadata.UpdateMetadata
          (UpdateMetadataRequest.mk notes "10" "2.txt" "notes.txt" true ∅) stocked)
       no_metadata) _).
  compute_it.
Defined.

(** X14 on the run: Alice deletes her file. *)
Lemma DeleteMetadata_owner_only_witness :
  exists row,
    In row (files stocked) /\ FileRow.id row = notes /\ FileRow.user_id row = "10".
Proof.
  refine (proj1
    (proj2 (proj2 (DeleteMetadata_owner_only (DeleteMetadataRequest.mk notes "10") stocked))
       (DeleteMetadataResponse.mk true) _)).
  compute_it.
Defined.

(** X15 on the run: Bob is denied access to Alice's private file and
    learns neither its storage path nor its bucket. *)
Lemma CheckAccess_discloses_readable_only_witness :
  CheckAccessResponse.StoragePath
    (answer (metadata.CheckAccess (CheckAccessRequest.mk notes "bob") stocked)
       (CheckAccessResponse.mk true "?" "?")) = "" /\
  CheckAccessResponse.Bucket
    (answer (metadata.CheckAccess (CheckAccessRequest.mk notes "bob") stocked)
       (CheckAccessResponse.mk true "?" "?")) = "".
Proof.
  destruct (proj2
    (CheckAccess_discloses_readable_only (CheckAccessRequest.mk notes "bob") stocked)
    (answer (metadata.CheckAccess (CheckAccessRequest.mk notes "bob") stocked)
       (CheckAccessResponse.mk true "?" "?")))
    as (row & _ & _ & _ & Hdenied).
  - compute_it.
  - apply Hdenied. compute_it.
Defined.


(** X17 on the run: of [photo.tar.gz] the extension [.gz] is kept. *)
Lemma generateUniqueFilename_keeps_extension_witness :
  fst (file.generateUniqueFilename "photo.tar.gz" world)
  = Ok (strconv.FormatInt (instant world 1) +:+ "." +:+ "gz").
Proof.
  apply (proj1 (generateUniqueFilename_keeps_extension "photo.tar.gz" world)
           "photo.tar" "gz"); [reflexivity|reflexivity|].
  apply Nat.leb_le. reflexivity.
Defined.

(** X18 on the run: Alice gets a link to her file. *)
Lemma GetDownloadLink_readable_only_witness :
  exists row,
    find (FileRepository.has_id notes) (files stocked) = Some row /\ may_read "10" row.
Proof.
  destruct (GetDownloadLink_readable_only minio
              (GetDownloadLinkRequest.mk notes "10" 60) stocked
              (answer
                 (file.GetDownloadLink minio (GetDownloadLinkRequest.mk notes "10" 60) stocked)
                 (GetDownloadLinkResponse.mk "" "" ∅ 0)))
    as (row & d & Hfind & Hread & _).
  - compute_it.
  - exists row. split; assumption.
Defined.

(** X19 on the run: Alice's request for her file passes withAuth. *)
Lemma withAuth_admits_verified_tokens_only_witness :
  let next := gateway.handleFileDetail codec front in
  let run := gateway.withAuth unicode front next get_notes stocked in
  (exists msg,
      fst run = Wrote [Error (error_body msg) http.StatusUnauthorized] /\
      files (snd run) = files stocked) \/
  (exists scheme claims,
      http.Get (http.Header get_notes) "Authorization"
      = scheme +:+ " " +:+ bearer_token get_notes /\
      strings.ToLower unicode scheme = "bearer" /\
      verifies library (jwtManager server) (instant (world_of stocked) 1) "access"
        (bearer_token get_notes) claims /\
      http.Value (authenticated get_notes claims) "userID"
      = Some (TokenClaims.UserID claims) /\
      http.Value (authenticated get_notes claims) "email"
      = Some (TokenClaims.Email claims) /\
      next (authenticated get_notes claims)
        (with_world stocked (measured (world_of stocked)))
      = (fst run, snd run)).
Proof.
  cbv zeta.
  apply (withAuth_admits_verified_tokens_only unicode library server out_of_service
           (gateway.handleFileDetail codec front) get_notes stocked).
  apply surjective_pairing.
Defined.

(** X20 on the run: the metadata Alice is served are those of her file. *)
Lemma gateway_serves_readable_files_only_witness :
  exists claims row,
    verifies library (jwtManager server) (instant (world_of stocked) 1) "access"
      (bearer_token get_notes) claims /\
    find (FileRepository.has_id (file_id get_notes)) (files stocked) = Some row /\
    may_read (TokenClaims.UserID claims) row /\
    FileMetadata.Id
      (MetadataResponse.Metadata
         (answer
            (metadata.GetMetadata (GetMetadataRequest.mk notes "10")
               (with_world stocked (measured (world_of stocked))))
            no_metadata))
    = FileRow.id row /\
    FileMetadata.UserId
      (MetadataResponse.Metadata
         (answer
            (metadata.GetMetadata (GetMetadataRequest.mk notes "10")
               (with_world stocked (measured (world_of stocked))))
            no_metadata))
    = FileRow.user_id row.
Proof.
  refine (gateway_serves_readable_files_only unicode codec library server out_of_service
            get_notes stocked _ _ _ (wrote _ _) _).
  - compute_it.
  - vm_compute. right. right. left. reflexivity.
Defined.

(** X21 on the run: Alice asks the gateway to delete Bob's file, and his
    row stays. *)
Lemma gateway_changes_own_files_only_witness :
  In bobs_row
    (files (snd (gateway.withAuth unicode front (gateway.handleFileDetail codec front)
                   delete_bobs shared))).
Proof.
  apply (gateway_changes_own_files_only unicode codec library server out_of_service
           delete_bobs shared _ _ bobs_row (surjective_pairing _)).
  - now left.
  - intros t claims [Hs _].
    assert (Htoken : bearer_token delete_bobs = access1) by compute_it.
    rewrite Htoken in Hs.
    rewrite <- (signed_by_functional library _ _ _ _ Examples.access1_signed Hs).
    discriminate.
Defined.

(** X22 on the run: Alice logs out through the gateway, with the access
    token in the header and the refresh token in the body. *)
Lemma logout_route_needs_both_tokens_witness :
  exists refreshClaims,
    verifies library (jwtManager server) (instant (world_of cloud) 3) "refresh" refresh1
      refreshClaims /\
    activeRefresh
      (redis (world_of (snd (gateway.withAuth unicode front (gateway.handleLogout codec front)
                            logout cloud))))
      0 (TokenClaims.UserID refreshClaims) = None.
Proof.
  destruct (logout_route_needs_both_tokens unicode codec library server out_of_service
              logout cloud _ _
              (wrote
                 (gateway.withAuth unicode front (gateway.handleLogout codec front) logout cloud)
                 ltac:(compute_it)))
    as (ac & req & rc & _ & Hreq & Hr & Hnone).
  - vm_compute. right. left. reflexivity.
  - injection Hreq as <-. exists rc. split; [exact Hr|apply Hnone].
Defined.

(** X23 on the run: a request with a Basic header is answered 401. *)
Lemma withAuth_needs_bearer_header_witness :
  exists msg,
    gateway.withAuth unicode front (gateway.handleFiles codec front) basic cloud
    = (Wrote [Error (error_body msg) http.StatusUnauthorized], cloud).
Proof.
  destruct (withAuth_needs_bearer_header unicode basic) as [msg H].
  - intros scheme token Hheader Hfree.
    assert (Hcut : strings.Cut (http.Get (http.Header basic) "Authorization") " "%char
                   = Some (scheme, token)).
    { rewrite Hheader. now apply Cut_app. }
    vm_compute in Hcut. injection Hcut as <- _. discriminate.
  - exists msg. apply H.
Defined.

(** X24 on the run: page 4294967295 is forwarded as a negative page. *)
Lemma handleFiles_page_bounds_witness :
  exists req,
    gateway.handleFiles codec front far_page cloud
    = gateway.respond codec http.StatusInternalServerError http.StatusOK JSON_list
        (api.ListMetadata (gateway.metadataClient front) req cloud) /\
    ListMetadataRequest.Page req < 0.
Proof.
  destruct (handleFiles_page_bounds codec Cloud front far_page cloud "10" eq_refl eq_refl)
    as (req & H1 & _ & _ & _ & H2).
  exists req. split; [exact H1|]. apply H2.
  split; [apply Z.leb_le|apply Z.ltb_lt]; compute_it.
Defined.
End Tours.
